(** * The script of the portfolio page

    A shallow embedding of [src/javascript.js].  First its section 4
    (CONTACT FORM VALIDATION & SUBMISSION): [validateField],
    [clearFieldError], [showFormStatus] and [handleFormSubmit], together
    with the parts of the browser they talk to (elements looked up by id,
    class lists, the timer queue, the entry list of a form, its reset, the
    outbound request and the promise chain attached to it).  Then the
    navigation ([setupSmoothScrolling], [updateActiveNav] and the scroll
    listener), the theme ([applyTheme], [setupThemeToggle]), [debounce]
    and the reveal on view ([setupIntersectionObserver]). *)

From Stdlib Require Import NArith List Ascii String Decimal Lia.
From stdpp Require Import base option list gmap.
Import ListNotations.

Local Open Scope N_scope.
Local Open Scope list_scope.

(** ** JavaScript strings

    A JavaScript string is a sequence of UTF-16 code units; [length],
    [trim], [includes], [===] and the regular expressions of the source
    (none of which carries the [u] flag) all work on code units. *)

Abbreviation jsstring := (list N).

Module JsString.

(** An ASCII literal of the source as code units. *)
Fixpoint str (s : string) : jsstring :=
  match s with
  | EmptyString => []
  | String a s' => N_of_ascii a :: str s'
  end.

(** [WhiteSpace] and [LineTerminator] of ECMAScript: what [trim] strips
    and what [\s] matches. *)
Definition is_space (c : N) : bool :=
  (c =? 0x09) || (c =? 0x0A) || (c =? 0x0B) || (c =? 0x0C) || (c =? 0x0D)
  || (c =? 0x20) || (c =? 0xA0) || (c =? 0x1680)
  || ((0x2000 <=? c) && (c <=? 0x200A))
  || (c =? 0x2028) || (c =? 0x2029) || (c =? 0x202F) || (c =? 0x205F)
  || (c =? 0x3000) || (c =? 0xFEFF).

Fixpoint trimStart (s : jsstring) : jsstring :=
  match s with
  | [] => []
  | c :: s' => if is_space c then trimStart s' else s
  end.

Definition trimEnd (s : jsstring) : jsstring := rev (trimStart (rev s)).

(** [String.prototype.trim] *)
Definition trim (s : jsstring) : jsstring := trimEnd (trimStart s).

(** [a === b] on strings *)
Fixpoint eqb (a b : jsstring) : bool :=
  match a, b with
  | [], [] => true
  | c :: a', d :: b' => (c =? d) && eqb a' b'
  | _, _ => false
  end.

Fixpoint startsWith (s t : jsstring) {struct t} : bool :=
  match t, s with
  | [], _ => true
  | c :: t', d :: s' => (c =? d) && startsWith s' t'
  | _ :: _, [] => false
  end.

(** [s.includes(t)] *)
Fixpoint includes (s t : jsstring) : bool :=
  startsWith s t ||
  match s with
  | [] => false
  | _ :: s' => includes s' t
  end.

(** Decimal digits of a number, as a template literal [`${n}`] prints a
    non-negative integer. *)
Fixpoint of_uint (d : Decimal.uint) : jsstring :=
  match d with
  | Nil => []
  | D0 d => 48 :: of_uint d
  | D1 d => 49 :: of_uint d
  | D2 d => 50 :: of_uint d
  | D3 d => 51 :: of_uint d
  | D4 d => 52 :: of_uint d
  | D5 d => 53 :: of_uint d
  | D6 d => 54 :: of_uint d
  | D7 d => 55 :: of_uint d
  | D8 d => 56 :: of_uint d
  | D9 d => 57 :: of_uint d
  end.

Definition of_number (n : N) : jsstring := of_uint (N.to_uint n).

(** Surrogates: the code units [D800-DBFF] lead a pair, [DC00-DFFF] trail
    it. *)
Definition is_lead (c : N) : bool := (0xD800 <=? c) && (c <=? 0xDBFF).
Definition is_trail (c : N) : bool := (0xDC00 <=? c) && (c <=? 0xDFFF).
Definition is_surrogate (c : N) : bool := is_lead c || is_trail c.

(** Converting a string into a scalar value string: every surrogate that
    is not part of a pair becomes U+FFFD. *)
Fixpoint to_scalar (s : jsstring) : jsstring :=
  match s with
  | [] => []
  | c :: s' =>
      if is_lead c then
        match s' with
        | d :: s'' =>
            if is_trail d then c :: d :: to_scalar s''
            else 0xFFFD :: to_scalar s'
        | [] => [0xFFFD]
        end
      else if is_trail c then 0xFFFD :: to_scalar s'
      else c :: to_scalar s'
  end.

End JsString.

Import JsString.

(** ** Regular expressions

    The two patterns of the source are anchored at both ends, have no
    flags, and use only character classes, literal characters,
    concatenation and [+]; for such patterns [RegExp.prototype.test]
    decides membership of the whole string in the pattern's language. *)

Module Regex.

Inductive regex : Type :=
  | Void
  | Eps
  | Class (p : N -> bool)
  | Cat (r1 r2 : regex)
  | Alt (r1 r2 : regex)
  | Star (r : regex).

(** [r+] *)
Definition Plus (r : regex) : regex := Cat r (Star r).

(** a literal character *)
Definition Chr (c : N) : regex := Class (N.eqb c).

(** The language of a pattern. *)
Inductive matches : regex -> jsstring -> Prop :=
  | MEps : matches Eps []
  | MClass p c : p c = true -> matches (Class p) [c]
  | MCat r1 r2 s1 s2 :
      matches r1 s1 -> matches r2 s2 -> matches (Cat r1 r2) (s1 ++ s2)
  | MAltL r1 r2 s : matches r1 s -> matches (Alt r1 r2) s
  | MAltR r1 r2 s : matches r2 s -> matches (Alt r1 r2) s
  | MStarNil r : matches (Star r) []
  | MStarApp r s1 s2 :
      matches r s1 -> matches (Star r) s2 -> matches (Star r) (s1 ++ s2).

Fixpoint nullable (r : regex) : bool :=
  match r with
  | Void => false
  | Eps => true
  | Class _ => false
  | Cat r1 r2 => nullable r1 && nullable r2
  | Alt r1 r2 => nullable r1 || nullable r2
  | Star _ => true
  end.

Fixpoint deriv (c : N) (r : regex) : regex :=
  match r with
  | Void => Void
  | Eps => Void
  | Class p => if p c then Eps else Void
  | Cat r1 r2 =>
      if nullable r1 then Alt (Cat (deriv c r1) r2) (deriv c r2)
      else Cat (deriv c r1) r2
  | Alt r1 r2 => Alt (deriv c r1) (deriv c r2)
  | Star r1 => Cat (deriv c r1) (Star r1)
  end.

(** [/^r$/.test(s)] *)
Fixpoint test (r : regex) (s : jsstring) : bool :=
  match s with
  | [] => nullable r
  | c :: s' => test (deriv c r) s'
  end.

End Regex.

Import Regex.

(** ** The page

    The document is the list of its elements in tree order; a JavaScript
    reference to an element is its position in that list, [null] is
    [None].  Of an element the model keeps what the form code reads or
    writes, and what [new FormData(form)] and [form.reset()] read and write
    for the submittable elements of HTML: [input], [textarea], [select]
    and [button].  The [dirname] attribute, which adds an entry for the
    direction of the text, is left out: no control of the page carries
    it. *)

Module Dom.

(** The states of the [type] attribute of an [input], grouped as the
    standard groups them when it reads [value], resets the control and
    builds the entry list of its form. *)
Inductive input_type : Type :=
  | Text         (* text, search, tel, url, email, password, date, month,
                    week, time, datetime-local, number, range, color *)
  | Hidden
  | Checkbox
  | Radio
  | FileUpload
  | Push.        (* submit, image, reset, button *)

(** [OTHER] is an element that is no control and has no [value]: a [div],
    a [span], a [p] and the like.  A [select] comes with its [multiple]
    attribute and its display size. *)
Inductive tag : Type :=
  | FORM
  | INPUT (type : input_type)
  | TEXTAREA
  | BUTTON
  | SELECT (multiple : bool) (size : N)
  | OTHER.

(** An [option] in the list of options of a [select]. *)
Record opt : Type := Opt {
  o_value : jsstring;
  o_selected : bool;          (* its selectedness *)
  o_defaultSelected : bool;   (* the [selected] attribute *)
  o_disabled : bool           (* disabled, by itself or by its [optgroup] *)
}.

Record element : Type := Element {
  el_tag : tag;
  el_id : jsstring;             (* [id]; empty when the attribute is absent *)
  el_name : jsstring;           (* [name]; empty when the attribute is absent *)
  el_form : option nat;         (* form owner of a control *)
  el_action : jsstring;         (* [form.action] *)
  el_value : jsstring;          (* [value] of a control; of a [select], the
                                   value of its first selected option; of
                                   a file input, the path of its first
                                   file *)
  el_defaultValue : jsstring;   (* what [form.reset()] restores *)
  el_classList : list jsstring; (* the ordered token set of [class] *)
  el_textContent : jsstring;
  el_disabled : bool;           (* [disabled] *)
  el_barred : bool;             (* inside a [datalist] or a disabled [fieldset] *)
  el_checked : bool;            (* checkedness of a checkbox or radio button *)
  el_defaultChecked : bool;     (* the [checked] attribute *)
  el_files : list jsstring;     (* names of the selected files of a file input *)
  el_options : list opt         (* the list of options of a [select] *)
}.

Definition set_value (v : jsstring) (el : element) : element :=
  Element (el_tag el) (el_id el) (el_name el) (el_form el) (el_action el)
          v (el_defaultValue el) (el_classList el) (el_textContent el)
          (el_disabled el) (el_barred el) (el_checked el)
          (el_defaultChecked el) (el_files el) (el_options el).

Definition set_classList (cl : list jsstring) (el : element) : element :=
  Element (el_tag el) (el_id el) (el_name el) (el_form el) (el_action el)
          (el_value el) (el_defaultValue el) cl (el_textContent el)
          (el_disabled el) (el_barred el) (el_checked el)
          (el_defaultChecked el) (el_files el) (el_options el).

Definition set_textContent (t : jsstring) (el : element) : element :=
  Element (el_tag el) (el_id el) (el_name el) (el_form el) (el_action el)
          (el_value el) (el_defaultValue el) (el_classList el) t
          (el_disabled el) (el_barred el) (el_checked el)
          (el_defaultChecked el) (el_files el) (el_options el).

Definition set_disabled (b : bool) (el : element) : element :=
  Element (el_tag el) (el_id el) (el_name el) (el_form el) (el_action el)
          (el_value el) (el_defaultValue el) (el_classList el)
          (el_textContent el) b (el_barred el) (el_checked el)
          (el_defaultChecked el) (el_files el) (el_options el).

Definition set_checked (b : bool) (el : element) : element :=
  Element (el_tag el) (el_id el) (el_name el) (el_form el) (el_action el)
          (el_value el) (el_defaultValue el) (el_classList el)
          (el_textContent el) (el_disabled el) (el_barred el) b
          (el_defaultChecked el) (el_files el) (el_options el).

Definition set_files (fs : list jsstring) (el : element) : element :=
  Element (el_tag el) (el_id el) (el_name el) (el_form el) (el_action el)
          (el_value el) (el_defaultValue el) (el_classList el)
          (el_textContent el) (el_disabled el) (el_barred el) (el_checked el)
          (el_defaultChecked el) fs (el_options el).

Definition set_options (os : list opt) (el : element) : element :=
  Element (el_tag el) (el_id el) (el_name el) (el_form el) (el_action el)
          (el_value el) (el_defaultValue el) (el_classList el)
          (el_textContent el) (el_disabled el) (el_barred el) (el_checked el)
          (el_defaultChecked el) (el_files el) os.

(** Does the element have a [value] that is a string?  The controls do;
    on a [form] and on an element that is no control [el.value] is not a
    string. *)
Definition has_value (el : element) : bool :=
  match el_tag el with
  | INPUT _ | TEXTAREA | BUTTON | SELECT _ _ => true
  | FORM | OTHER => false
  end.

(** Class tokens: a token list never holds a token twice. *)
Definition has_token (tok : jsstring) (cl : list jsstring) : bool :=
  existsb (eqb tok) cl.

(** [classList.add(tok)] *)
Definition token_add (tok : jsstring) (cl : list jsstring) : list jsstring :=
  if has_token tok cl then cl else cl ++ [tok].

(** [classList.remove(tok)] *)
Definition token_remove (tok : jsstring) (cl : list jsstring) : list jsstring :=
  List.filter (fun t => negb (eqb tok t)) cl.

(** ASCII whitespace, the separators of a [class] attribute. *)
Definition is_ascii_space (c : N) : bool :=
  (c =? 0x09) || (c =? 0x0A) || (c =? 0x0C) || (c =? 0x0D) || (c =? 0x20).

Definition push_token (cur : jsstring) (acc : list jsstring) : list jsstring :=
  match cur with
  | [] => acc
  | _ :: _ => token_add (rev cur) acc
  end.

(** Splitting a [class] attribute into its ordered token set; [cur] is the
    token being read, reversed, and [acc] the tokens read so far. *)
Fixpoint parse_tokens (s cur : jsstring) (acc : list jsstring)
  : list jsstring :=
  match s with
  | [] => push_token cur acc
  | c :: s' =>
      if is_ascii_space c then parse_tokens s' [] (push_token cur acc)
      else parse_tokens s' (c :: cur) acc
  end.

(** [el.className = s] *)
Definition set_className (s : jsstring) (el : element) : element :=
  set_classList (parse_tokens s [] []) el.

(** The first element in tree order with the given id. *)
Fixpoint find_id (id : jsstring) (l : list element) : option nat :=
  match l with
  | [] => None
  | el :: l' => if eqb (el_id el) id then Some 0%nat else S <$> find_id id l'
  end.

(** *** [form.reset()]

    The resettable elements whose form owner is the form, each by its own
    reset algorithm. *)

(** A control that [form.reset()] resets. *)
Definition is_field_of (form : nat) (el : element) : bool :=
  match el_tag el, el_form el with
  | (INPUT _ | TEXTAREA | SELECT _ _), Some f => Nat.eqb f form
  | _, _ => false
  end.

Definition set_selected (b : bool) (o : opt) : opt :=
  Opt (o_value o) b (o_defaultSelected o) (o_disabled o).

(** Selecting the first option that is not disabled. *)
Fixpoint select_first (os : list opt) : list opt :=
  match os with
  | [] => []
  | o :: os' =>
      if o_disabled o then o :: select_first os' else set_selected true o :: os'
  end.

(** Deselecting every selected option but the last. *)
Fixpoint keep_last (os : list opt) : list opt :=
  match os with
  | [] => []
  | o :: os' =>
      (if o_selected o && existsb o_selected os' then set_selected false o
       else o) :: keep_last os'
  end.

(** The selectedness setting algorithm of a [select]. *)
Definition set_selectedness (multiple : bool) (size : N) (os : list opt)
  : list opt :=
  if multiple then os
  else if (size =? 1) && negb (existsb o_selected os) then select_first os
  else keep_last os.

(** The options of a [select] after its reset algorithm. *)
Definition reset_options (multiple : bool) (size : N) (os : list opt)
  : list opt :=
  set_selectedness multiple size
    (map (fun o => set_selected (o_defaultSelected o) o) os).

(** [select.value]: the value of the first selected option, if any. *)
Definition selected_value (os : list opt) : jsstring :=
  match List.filter o_selected os with
  | o :: _ => o_value o
  | [] => []
  end.

(** Two radio buttons in one group: the same form owner and the same
    name, which is not empty. *)
Definition same_group (a b : element) : bool :=
  match el_tag a, el_tag b, el_form a, el_form b with
  | INPUT Radio, INPUT Radio, Some f, Some g =>
      Nat.eqb f g && negb (eqb (el_name a) []) && eqb (el_name a) (el_name b)
  | _, _, _, _ => false
  end.

(** The reset algorithm of one control, with the elements after it in
    tree order.  A text control and a [textarea] go back to the default
    value; a hidden input and a button read [value] from the attribute,
    which stays; a checkbox goes back to its [checked] attribute, and so
    does a radio button unless a later button of its group has the
    attribute too, which checks that one and unchecks this one; a file
    input loses its files; a [select] resets its options. *)
Definition reset_element (form : nat) (later : list element) (el : element)
  : element :=
  if is_field_of form el then
    match el_tag el with
    | INPUT Text | TEXTAREA => set_value (el_defaultValue el) el
    | INPUT Checkbox => set_checked (el_defaultChecked el) el
    | INPUT Radio =>
        set_checked
          (el_defaultChecked el
           && negb (existsb (fun b => same_group el b && el_defaultChecked b)
                            later))
          el
    | INPUT FileUpload => set_files [] (set_value [] el)
    | SELECT multiple size =>
        let os := reset_options multiple size (el_options el) in
        set_options os (set_value (selected_value os) el)
    | _ => el
    end
  else el.

(** [form.reset()] *)
Fixpoint reset_fields (form : nat) (l : list element) : list element :=
  match l with
  | [] => []
  | el :: l' => reset_element form l' el :: reset_fields form l'
  end.

(** *** [new FormData(form)]

    Constructing the entry list of the form, without a submitter. *)

(** The value of an entry: a string or a file, kept by its name. *)
Inductive entry_value : Type :=
  | Str (s : jsstring)
  | File (name : jsstring).

(** Does the control take part?  It is a submittable element owned by the
    form, not disabled, not a button, checked if it is a checkbox or a
    radio button, and it has a name. *)
Definition submits (form : nat) (el : element) : bool :=
  match el_form el with
  | Some f => Nat.eqb f form
  | None => false
  end
  && negb (el_disabled el) && negb (el_barred el)
  && negb (eqb (el_name el) [])
  && match el_tag el with
     | INPUT Push | BUTTON => false
     | INPUT Checkbox | INPUT Radio => el_checked el
     | INPUT _ | TEXTAREA | SELECT _ _ => true
     | FORM | OTHER => false
     end.

Definition ascii_lower (c : N) : N :=
  if (0x41 <=? c) && (c <=? 0x5A) then c + 0x20 else c.

(** The entries one control contributes; names and string values are
    converted to scalar value strings.  A checkbox or a radio button
    sends its [value], which reads [on] when it has no [value]
    attribute. *)
Definition entries_of (el : element) : list (jsstring * entry_value) :=
  let name := to_scalar (el_name el) in
  match el_tag el with
  | SELECT _ _ =>
      map (fun o => (name, Str (to_scalar (o_value o))))
          (List.filter (fun o => o_selected o && negb (o_disabled o))
                       (el_options el))
  | INPUT FileUpload =>
      match el_files el with
      | [] => [(name, File [])]
      | _ :: _ => map (fun f => (name, File f)) (el_files el)
      end
  | INPUT Hidden =>
      if eqb (map ascii_lower (el_name el)) (str "_charset_")
      then [(name, Str (str "UTF-8"))]
      else [(name, Str (to_scalar (el_value el)))]
  | _ => [(name, Str (to_scalar (el_value el)))]
  end.

(** The entry list of [new FormData(form)], in tree order. *)
Definition form_entries (form : nat) (l : list element)
  : list (jsstring * entry_value) :=
  flat_map entries_of (List.filter (submits form) l).

End Dom.

Import Dom.

(** ** The browser around the page *)

Module Browser.

(** A thrown value: an error object with its [name] and [message]. *)
Record exn : Type := Exn { exn_name : jsstring; exn_message : jsstring }.

Definition Error (msg : jsstring) : exn := Exn (str "Error") msg.
Definition TypeError (msg : jsstring) : exn := Exn (str "TypeError") msg.
Definition SyntaxError (msg : jsstring) : exn := Exn (str "SyntaxError") msg.

(** Reading a property of [null].  Engines word the message differently;
    nothing in the page inspects it. *)
Definition null_access : exn :=
  TypeError (str "Cannot read properties of null").

(** Reading a property of [undefined], as [field.value.trim] does on an
    element without a [value]. *)
Definition undefined_access : exn :=
  TypeError (str "Cannot read properties of undefined").

(** The only timer callback of the form code,
    [() => statusDiv.classList.remove('show')], with the element it
    captured. *)
Inductive callback : Type := HideStatus (statusDiv : nat).

Record timer : Type := Timer { t_due : N; t_callback : callback }.

Record request : Type := Request {
  req_url : jsstring;
  req_method : jsstring;
  req_body : list (jsstring * entry_value);   (* the entries of [formData] *)
  req_headers : list (jsstring * jsstring)
}.

(** What leaves the page, in order. *)
Inductive effect : Type :=
  | PreventDefault
  | ConsoleError (args : list jsstring)
  | ConsoleLog (args : list jsstring) (time : N)
  | Fetch (r : request).

Record world : Type := World {
  w_dom : list element;
  w_timers : list timer;   (* pending timers, oldest first *)
  w_now : N;               (* the clock, in milliseconds *)
  w_out : list effect      (* effects so far, oldest first *)
}.

Inductive outcome (A : Type) : Type :=
  | Ret (a : A)
  | Throw (e : exn).
Arguments Ret {A} a.
Arguments Throw {A} e.

(** A handler: it reads and writes the world and returns or throws. *)
Definition M (A : Type) : Type := world -> outcome A * world.

Definition ret {A} (a : A) : M A := fun w => (Ret a, w).

Definition throw {A} (e : exn) : M A := fun w => (Throw e, w).

Definition bind {A B} (m : M A) (k : A -> M B) : M B :=
  fun w =>
    match m w with
    | (Ret a, w') => k a w'
    | (Throw e, w') => (Throw e, w')
    end.

#[global] Instance M_ret : MRet M := @ret.
#[global] Instance M_bind : MBind M := fun A B k m => bind m k.

End Browser.

Import Browser.

(** *** Primitive operations *)

Module Prim.

Definition emit (e : effect) : M unit :=
  fun w => (Ret tt, World (w_dom w) (w_timers w) (w_now w) (w_out w ++ [e])).

(** [document.getElementById(id)] *)
Definition getElementById (id : jsstring) : M (option nat) :=
  fun w => (Ret (match id with [] => None | _ :: _ => find_id id (w_dom w) end),
            w).

(** Reading through a reference: [null] has no properties. *)
Definition deref (r : option nat) : M element :=
  fun w =>
    match r with
    | None => (Throw null_access, w)
    | Some i =>
        match w_dom w !! i with
        | Some el => (Ret el, w)
        | None => (Throw null_access, w)
        end
    end.

(** [el.value] where a string is expected: an element without the
    property gives [undefined], which has no [trim]. *)
Definition value_of (el : element) : M jsstring :=
  if has_value el then mret (el_value el) else throw undefined_access.

(** Writing a property through a reference. *)
Definition update (r : option nat) (f : element -> element) : M unit :=
  fun w =>
    match r with
    | None => (Throw null_access, w)
    | Some i =>
        (Ret tt, World (alter f i (w_dom w)) (w_timers w) (w_now w) (w_out w))
    end.

(** The delay as [setTimeout] takes it, for a delay that is a
    non-negative integer: it is converted to a 32-bit signed integer, and
    a negative result counts as 0. *)
Definition timeout (delay : N) : N :=
  let d := delay mod 2 ^ 32 in
  if d <? 2 ^ 31 then d else 0.

(** [setTimeout(cb, delay)] *)
Definition setTimeout (cb : callback) (delay : N) : M unit :=
  fun w => (Ret tt,
            World (w_dom w) (w_timers w ++ [Timer (w_now w + timeout delay) cb])
                  (w_now w) (w_out w)).

Definition now : M N := fun w => (Ret (w_now w), w).

Definition dom : M (list element) := fun w => (Ret (w_dom w), w).

(** [form.reset()] *)
Definition reset (form : nat) : M unit :=
  fun w => (Ret tt,
            World (reset_fields form (w_dom w)) (w_timers w) (w_now w)
                  (w_out w)).

End Prim.

Import Prim.

(** ** The form code *)

(** The two patterns of [validateField]:
    [/^[a-zA-Z\s'-]+$/] and [/^[^\s@]+@[^\s@]+\.[^\s@]+$/]. *)

Definition name_char (c : N) : bool :=
  ((0x61 <=? c) && (c <=? 0x7A))       (* a-z *)
  || ((0x41 <=? c) && (c <=? 0x5A))    (* A-Z *)
  || is_space c                        (* \s *)
  || (c =? 0x27)                       (* ' *)
  || (c =? 0x2D).                      (* - *)

Definition name_regex : regex := Plus (Class name_char).

Definition not_space_at (c : N) : bool :=
  negb (is_space c || (c =? 0x40)).    (* [^\s@] *)

Definition emailRegex : regex :=
  Cat (Plus (Class not_space_at))
      (Cat (Chr 0x40)
           (Cat (Plus (Class not_space_at))
                (Cat (Chr 0x2E) (Plus (Class not_space_at))))).

(** Lines 97-137 of [validateField]: the pair [(isValid, errorMsg)] after
    the three [if (field.id === ...)] blocks have run in turn. *)
Definition check_field (id value : jsstring) : bool * jsstring :=
  let st := (true, []) in
  let st :=
    if eqb id (str "name") then
      if (length value =? 0)%nat then (false, str "Name is required")
      else if (length value <? 2)%nat then
        (false, str "Name must be at least 2 characters")
      else if negb (test name_regex value) then
        (false, str "Name can only contain letters, spaces, hyphens, and apostrophes")
      else st
    else st in
  let st :=
    if eqb id (str "email") then
      if (length value =? 0)%nat then (false, str "Email is required")
      else if negb (test emailRegex value) then
        (false, str "Please enter a valid email address")
      else st
    else st in
  let st :=
    if eqb id (str "message") then
      if (length value =? 0)%nat then (false, str "Message is required")
      else if (length value <? 10)%nat then
        (false, str "Message must be at least 10 characters")
      else st
    else st in
  st.

(** [validateField(e)], called with [e.target] *)
Definition validateField (target : option nat) : M bool :=
  field ← deref target;
  raw ← value_of field;
  let value := trim raw in
  errorElement ← getElementById (el_id field ++ str "-error");
  let '(isValid, errorMsg) := check_field (el_id field) value in
  (if negb isValid then
     update target (fun el =>
       set_classList (token_add (str "error") (el_classList el)) el);;
     match errorElement with
     | Some _ => update errorElement (set_textContent errorMsg)
     | None => mret tt
     end
   else
     update target (fun el =>
       set_classList (token_remove (str "error") (el_classList el)) el);;
     match errorElement with
     | Some _ => update errorElement (set_textContent [])
     | None => mret tt
     end);;
  mret isValid.

(** [clearFieldError(e)], called with [e.target] *)
Definition clearFieldError (target : option nat) : M unit :=
  field ← deref target;
  errorElement ← getElementById (el_id field ++ str "-error");
  update target (fun el =>
    set_classList (token_remove (str "error") (el_classList el)) el);;
  match errorElement with
  | Some _ => update errorElement (set_textContent [])
  | None => mret tt
  end.

(** [showFormStatus(message, type)] *)
Definition showFormStatus (message type : jsstring) : M unit :=
  statusDiv ← getElementById (str "form-status");
  match statusDiv with
  | None => mret tt
  | Some i =>
      update statusDiv (set_textContent message);;
      update statusDiv (set_className (str "form-status show " ++ type));;
      if eqb type (str "success") then setTimeout (HideStatus i) 4000
      else mret tt
  end.

(** The status messages of [handleFormSubmit]. *)
Module Msg.

Definition warning_sign : jsstring := [0x26A0; 0xFE0F].
Definition cross_mark : jsstring := [0x274C].
Definition check_mark : jsstring := [0x2713].

Definition not_configured : jsstring :=
  warning_sign ++ str " Configuration Error: Update your Formspree form ID in the HTML. Visit https://formspree.io/create/".
Definition fix_errors : jsstring :=
  warning_sign ++ str " Please fix the errors above and try again.".
Definition sent : jsstring :=
  check_mark ++ str " Message sent successfully! I'll get back to you soon.".
Definition not_found : jsstring :=
  cross_mark ++ str " Formspree form not found. Update your form ID: https://formspree.io/create/".
Definition rejected : jsstring :=
  cross_mark ++ str " Formspree validation error. Check form field names in HTML.".
Definition network : jsstring :=
  cross_mark ++ str " Network error. Check your internet or CORS settings.".
Definition failed : jsstring :=
  cross_mark ++ str " Failed to send message. Try again or email: narvariyasourabh447@gmail.com".

End Msg.

(** What the callbacks of the promise chain captured. *)
Record pending : Type := Pending {
  p_form : nat;
  p_submitBtn : option nat;
  p_originalText : jsstring
}.

(** The safety check on [form.action]. *)
Definition is_placeholder (action : jsstring) : bool :=
  includes action (str "YOUR_FORMSPREE_ID") || includes action (str "xyzqwvba").

(** Lines 226-254 of [handleFormSubmit]: the loading state of the button
    and the call of [fetch].  It returns what the callbacks of the chain
    capture. *)
Definition send_request (form : nat) (submitBtn : option nat)
  : M (option pending) :=
  btn ← deref submitBtn;
  let originalText := el_textContent btn in
  update submitBtn (set_disabled true);;
  update submitBtn (set_textContent (str "Sending..."));;
  elements ← dom;
  let formData := form_entries form elements in
  formEl ← deref (Some form);
  emit (Fetch (Request (el_action formEl) (str "POST") formData
                       [(str "Accept", str "application/json")]));;
  mret (Some (Pending form submitBtn originalText)).

(** [handleFormSubmit(e)], called with [e.target]; the synchronous part, up
    to and including the call of [fetch].  It returns the captured
    variables when a request was issued. *)
Definition handleFormSubmit (form : nat) : M (option pending) :=
  emit PreventDefault;;
  nameField ← getElementById (str "name");
  emailField ← getElementById (str "email");
  messageField ← getElementById (str "message");
  submitBtn ← getElementById (str "submit-btn");
  formEl ← deref (Some form);
  if is_placeholder (el_action formEl) then
    showFormStatus Msg.not_configured (str "error");;
    emit (ConsoleError [str "ERROR: Formspree form ID not configured properly in index.html"]);;
    mret None
  else
    isNameValid ← validateField nameField;
    isEmailValid ← validateField emailField;
    isMessageValid ← validateField messageField;
    if negb isNameValid || negb isEmailValid || negb isMessageValid then
      showFormStatus Msg.fix_errors (str "error");;
      mret None
    else
      send_request form submitBtn.

(** How the request settles: a response with its status and, when the
    body is not JSON, the message [response.json()] rejects with; or no
    response at all, and the message [fetch] rejects with. *)
Record response : Type := Response {
  status : N;
  json_failure : option jsstring
}.

Inductive fetch_result : Type :=
  | Responded (r : response)
  | Rejected (message : jsstring).

(** [response.ok] *)
Definition ok (r : response) : bool := (200 <=? status r) && (status r <=? 299).

(** The promise returned by [fetch]. *)
Definition fetch_promise (r : fetch_result) : M response :=
  match r with
  | Responded resp => mret resp
  | Rejected msg => throw (TypeError msg)
  end.

(** [response.json()] *)
Definition json (r : response) : M unit :=
  match json_failure r with
  | None => mret tt
  | Some msg => throw (SyntaxError msg)
  end.

(** [promise.catch(h)] and [promise.finally(f)].  [promise.then(k)] is
    [mbind]: a rejected promise skips [k]. *)
Definition catch_ {A} (m : M A) (h : exn -> M A) : M A :=
  fun w =>
    match m w with
    | (Ret a, w') => (Ret a, w')
    | (Throw e, w') => h e w'
    end.

Definition finally_ {A} (m : M A) (f : M unit) : M A :=
  fun w =>
    match m w with
    | (r, w') =>
        match f w' with
        | (Ret _, w'') => (r, w'')
        | (Throw e, w'') => (Throw e, w'')
        end
    end.

(** The callback of [.then] *)
Definition on_response (p : pending) (resp : response) : M unit :=
  if ok resp then
    showFormStatus Msg.sent (str "success");;
    reset (p_form p);;
    t ← now;
    emit (ConsoleLog [Msg.check_mark ++ str " Form submitted successfully to Formspree at"] t);;
    json resp
  else if status resp =? 404 then throw (Error (str "FORMSPREE_NOT_FOUND"))
  else if status resp =? 422 then
    throw (Error (str "FORMSPREE_VALIDATION_ERROR"))
  else throw (Error (str "FORMSPREE_ERROR_" ++ of_number (status resp))).

(** The callback of [.catch] *)
Definition on_error (error : exn) : M unit :=
  emit (ConsoleError [str "Form submission error:"; exn_message error]);;
  if eqb (exn_message error) (str "FORMSPREE_NOT_FOUND") then
    showFormStatus Msg.not_found (str "error")
  else if eqb (exn_message error) (str "FORMSPREE_VALIDATION_ERROR") then
    showFormStatus Msg.rejected (str "error")
  else if includes (exn_message error) (str "Failed to fetch") then
    showFormStatus Msg.network (str "error")
  else
    showFormStatus Msg.failed (str "error").

(** The callback of [.finally] *)
Definition on_settled (p : pending) : M unit :=
  update (p_submitBtn p) (set_disabled false);;
  update (p_submitBtn p) (set_textContent (p_originalText p)).

(** [.then] and [.catch] of the chain, without [.finally]. *)
Definition respond (p : pending) (r : fetch_result) : M unit :=
  catch_ (fetch_promise r ≫= on_response p) on_error.

(** The whole chain [fetch(...).then(...).catch(...).finally(...)], run
    when the request settles with [r]. *)
Definition settle (p : pending) (r : fetch_result) : M unit :=
  finally_ (respond p r) (on_settled p).

(** *** The timer queue *)

Definition run_callback (cb : callback) : M unit :=
  match cb with
  | HideStatus i =>
      update (Some i) (fun el =>
        set_classList (token_remove (str "show") (el_classList el)) el)
  end.

Definition is_due (t : N) (tm : timer) : bool := t_due tm <=? t.

Fixpoint run_timers (l : list timer) (w : world) : world :=
  match l with
  | [] => w
  | tm :: l' => run_timers l' (snd (run_callback (t_callback tm) w))
  end.

(** [dt] milliseconds pass with no other event: the timers that come due
    fire, oldest first. *)
Definition advance (dt : N) (w : world) : world :=
  let t := w_now w + dt in
  run_timers (List.filter (is_due t) (w_timers w))
             (World (w_dom w)
                    (List.filter (fun tm => negb (is_due t tm)) (w_timers w))
                    t (w_out w)).

(** One whole submit attempt with nothing else in between: the handler,
    then, when a request went out, the chain run on its result. *)
Definition attempt (form : nat) (r : fetch_result) (w : world) : world :=
  match handleFormSubmit form w with
  | (Ret (Some p), w') => snd (settle p r w')
  | (_, w') => w'
  end.

(** ** The specification's vocabulary

    These definitions follow the words of the specification, not the code:
    the rule table of its section 4.1 and the outcomes of its section 3
    with the classification of section 4.2, step 4.  The properties below
    compare the code with them. *)

Module Spec.

Inductive field : Type := Name | Email | Message.

Definition field_id (f : field) : jsstring :=
  match f with
  | Name => str "name"
  | Email => str "email"
  | Message => str "message"
  end.

Inductive rule : Type :=
  | NonEmpty
  | MinLength (n : nat)
  | Matching (r : regex).

Definition holds (r : rule) (v : jsstring) : Prop :=
  match r with
  | NonEmpty => v <> []
  | MinLength n => (n <= length v)%nat
  | Matching re => matches re v
  end.

(** The rule table, each rule with the message shown when it fails. *)
Definition rules (f : field) : list (rule * jsstring) :=
  match f with
  | Name =>
      [ (NonEmpty, str "Name is required");
        (MinLength 2, str "Name must be at least 2 characters");
        (Matching name_regex,
         str "Name can only contain letters, spaces, hyphens, and apostrophes") ]
  | Email =>
      [ (NonEmpty, str "Email is required");
        (Matching emailRegex, str "Please enter a valid email address") ]
  | Message =>
      [ (NonEmpty, str "Message is required");
        (MinLength 10, str "Message must be at least 10 characters") ]
  end.

(** Rules are evaluated in order and the first failing rule wins. *)
Inductive verdict : list (rule * jsstring) -> jsstring -> bool * jsstring -> Prop :=
  | AllHold v : verdict [] v (true, [])
  | FirstFails r msg rest v :
      ~ holds r v -> verdict ((r, msg) :: rest) v (false, msg)
  | Holds r msg rest v res :
      holds r v -> verdict rest v res -> verdict ((r, msg) :: rest) v res.



End Spec.

(** ** Observations on a world *)

(** The status region: its text and its class tokens. *)
Definition status_region (w : world) : option (jsstring * list jsstring) :=
  i ← find_id (str "form-status") (w_dom w);
  el ← w_dom w !! i;
  Some (el_textContent el, el_classList el).

(** Is the status region displayed? *)
Definition status_shown (w : world) : bool :=
  match status_region w with
  | Some (_, cl) => has_token (str "show") cl
  | None => false
  end.

(** The submit button: its [disabled] flag and its text. *)
Definition submit_button (w : world) : option (bool * jsstring) :=
  i ← find_id (str "submit-btn") (w_dom w);
  el ← w_dom w !! i;
  Some (el_disabled el, el_textContent el).

(** The requests among the effects. *)
Definition requests (w : world) : list request :=
  omap (fun e => match e with Fetch r => Some r | _ => None end) (w_out w).

Definition values (w : world) : list jsstring := map el_value (w_dom w).

(** What no handler of the form code ever writes. *)
Definition static (el : element)
  : tag * jsstring * jsstring * option nat * jsstring * jsstring
    * (bool * bool) :=
  (el_tag el, el_id el, el_name el, el_form el, el_action el,
   el_defaultValue el, (el_barred el, el_defaultChecked el)).

(** The state of a control beside its value: checkedness, selected files
    and options. *)
Definition choices (el : element) : bool * list jsstring * list opt :=
  (el_checked el, el_files el, el_options el).

(** The class tokens of a field after validation with result [b]. *)
Definition display (b : bool) (cl : list jsstring) : list jsstring :=
  if b then token_remove (str "error") cl else token_add (str "error") cl.

(** The three checks of one pass of [handleFormSubmit] over the world [w],
    each started in the world the previous one left, with what each
    returned. *)
Definition validations (w : world) : list (outcome bool) :=
  let w0 := snd (emit PreventDefault w) in
  let r1 := validateField (find_id (str "name") (w_dom w)) w0 in
  let r2 := validateField (find_id (str "email") (w_dom w)) (snd r1) in
  let r3 := validateField (find_id (str "message") (w_dom w)) (snd r2) in
  [fst r1; fst r2; fst r3].

Definition all_valid : list (outcome bool) := [Ret true; Ret true; Ret true].

(** Does a response count as success? *)
Definition is_success (r : fetch_result) : bool :=
  match r with
  | Responded resp => ok resp
  | Rejected _ => false
  end.

(** Does a status message name the fallback contact channel, the
    e-mail address? *)
Definition suggests_fallback (message : jsstring) : bool :=
  includes message (str "email: narvariyasourabh447@gmail.com").

(** What the validation and status display never write: everything but
    the class tokens, and the text of elements other than the submit
    button. *)
Definition controls (e : element)
  : tag * jsstring * jsstring * option nat * jsstring * jsstring
    * (bool * bool) * jsstring * bool * jsstring
    * (bool * list jsstring * list opt) :=
  (static e, el_value e, el_disabled e,
   (if eqb (el_id e) (str "submit-btn") then el_textContent e else []),
   choices e).





(** The message of the first rule of each row: the field is required. *)
Definition required_message (f : Spec.field) : jsstring :=
  match f with
  | Spec.Name => str "Name is required"
  | Spec.Email => str "Email is required"
  | Spec.Message => str "Message is required"
  end.

(** The error of reading a property of [null] or of [undefined]. *)
Definition access_error (e : exn) : Prop :=
  e = null_access \/ e = undefined_access.

(** The world [x] is the world [w] after [preventDefault] and some of the
    three validations: the same controls, timers, clock and status
    region, and one more effect. *)
Definition validating (w x : world) : Prop :=
  map controls (w_dom x) = map controls (w_dom w) /\
  w_timers x = w_timers w /\
  w_now x = w_now w /\
  w_out x = w_out w ++ [PreventDefault] /\
  status_region x = status_region w.



Module Sample.

(** A control of the form, named as its id, with an empty default. *)
Definition control (t : tag) (id value : jsstring) : element :=
  Element t id id (Some 0%nat) [] value [] [] [] false false false false [] [].

Definition plain (id : jsstring) : element :=
  Element OTHER id [] None [] [] [] [] [] false false false false [] [].

Definition form (action : jsstring) : element :=
  Element FORM (str "contact-form") [] None action [] [] [] [] false
          false false false [] [].

Definition button (text : jsstring) (disabled : bool) : element :=
  Element BUTTON (str "submit-btn") [] (Some 0%nat) [] [] [] [] text disabled
          false false false [] [].

Definition page (action name email message : jsstring) (disabled : bool)
  : list element :=
  [ form action;
    control (INPUT Text) (str "name") name;
    plain (str "name-error");
    control (INPUT Text) (str "email") email;
    plain (str "email-error");
    control TEXTAREA (str "message") message;
    plain (str "message-error");
    button (str "Send Message") disabled;
    plain (str "form-status") ].

Definition start (l : list element) : world := World l [] 0 [].

Definition endpoint : jsstring := str "https://formspree.io/f/abcde12345".
Definition template : jsstring := str "https://formspree.io/f/YOUR_FORMSPREE_ID".

Definition filled : world :=
  start (page endpoint (str "Jane Doe") (str "jane@example.com")
              (str "This is a long enough message.") false).

(** A message sent at time 0, and a second submit one second later, on
    the form that the first success emptied: it fails validation.  Three
    more seconds pass. *)
Definition sent_at_0 : world :=
  attempt 0 (Responded (Response 200 None)) filled.

Definition resubmitted_at_1000 : world :=
  attempt 0 (Responded (Response 200 None)) (advance 1000 sent_at_0).

Definition at_4000 : world := advance 3000 resubmitted_at_1000.

(** The filled page with one more field, a subject line, for which the
    form code has no rule: it is empty, and it and its error element
    carry an error display. *)
Definition subject : element :=
  Element (INPUT Text) (str "subject") (str "subject") (Some 0%nat) [] [] []
          [str "error"] [] false false false false [] [].

Definition subject_error : element :=
  Element OTHER (str "subject-error") [] None [] [] [] []
          (str "Subject is required") false false false false [] [].

Definition with_subject : world :=
  start (w_dom filled ++ [subject; subject_error]).

End Sample.

(** ** Navigation

    [updateActiveNav], the scroll listener that tracks the current section
    and the click listener of [setupSmoothScrolling].  The links are the
    elements matched by ['nav a, .hero-actions a'], in tree order. *)

Module Nav.

Record link : Type := Link {
  l_href : option jsstring;   (* [getAttribute('href')]; [None] is [null] *)
  l_nav : bool;               (* matched by ['nav a'] *)
  l_color : jsstring          (* [style.color] *)
}.

Definition accent : jsstring := str "var(--accent)".
Definition inherit : jsstring := str "inherit".

(** The template literal [`#${sectionId}`] *)
Definition anchor (sectionId : jsstring) : jsstring := str "#" ++ sectionId.

(** [href === a], where [href] may be [null] *)
Definition href_is (l : link) (a : jsstring) : bool :=
  match l_href l with
  | Some h => eqb h a
  | None => false
  end.

(** [updateActiveNav(sectionId)] *)
Definition updateActiveNav (sectionId : jsstring) (links : list link)
  : list link :=
  map (fun l =>
         if l_nav l then
           Link (l_href l) true
                (if href_is l (anchor sectionId) then accent else inherit)
         else l)
      links.

(** A [section] element: its [id] attribute ([None] when absent) and its
    [offsetTop], an integer. *)
Record sect : Type := Sect { s_id : option jsstring; s_top : Z }.

(** [window.pageYOffset >= sectionTop - 200].  The right side is an
    integer, so the test depends on the integer part of the scroll
    position only; [y] is that integer part. *)
Definition passed (y : Z) (s : sect) : bool := (s_top s - 200 <=? y)%Z.

(** The variable [currentSection] after the [forEach] of the scroll
    listener: it starts as the empty string and takes the [id] attribute,
    a string or [null], of each section passed. *)
Definition currentSection (y : Z) (sections : list sect) : option jsstring :=
  fold_left (fun cur s => if passed y s then s_id s else cur)
            sections (Some []).

(** The scroll listener: [updateActiveNav] runs when [currentSection] is
    truthy, that is a non-empty string. *)
Definition onScroll (y : Z) (sections : list sect) (links : list link)
  : list link :=
  match currentSection y sections with
  | Some (c :: id) => updateActiveNav (c :: id) links
  | _ => links
  end.

Inductive effect : Type :=
  | Prevent                        (* [e.preventDefault()] *)
  | Scroll (target : nat).         (* [targetElement.scrollIntoView(...)] *)

(** [document.getElementById(id)] on a page. *)
Definition getElementById (id : jsstring) (page : list element) : option nat :=
  match id with
  | [] => None
  | _ :: _ => find_id id page
  end.

(** The click listener attached to the link at position [i]: what it does
    to the event and the page, and the links afterwards. *)
Definition onClick (i : nat) (page : list element) (links : list link)
  : outcome (list effect * list link) :=
  match links !! i with
  | None => Throw null_access
  | Some l =>
      match l_href l with
      | None => Throw null_access        (* [href.startsWith] on [null] *)
      | Some href =>
          if startsWith href (str "#") then
            let targetId := drop 1 href in       (* [href.substring(1)] *)
            match getElementById targetId page with
            | Some t => Ret ([Prevent; Scroll t], updateActiveNav targetId links)
            | None => Ret ([Prevent], links)
            end
          else Ret ([], links)
      end
  end.

End Nav.

(** ** The theme: [applyTheme] and [setupThemeToggle]

    [localStorage] and the custom properties of
    [document.documentElement.style] are maps from strings to strings. *)

Module Theme.

Record env : Type := Env {
  storage : gmap (list N) (list N);
  style : gmap (list N) (list N)
}.

Definition key : jsstring := str "portfolio-theme".

(** [applyTheme(theme)] *)
Definition applyTheme (theme : jsstring) (e : env) : env :=
  let storage' := <[key := theme]> (storage e) in
  if eqb theme (str "light") then
    Env storage'
        (<[str "--card" := str "#f3f4f6"]>
           (<[str "--muted" := str "#6b7280"]>
              (<[str "--text" := str "#1f2937"]>
                 (<[str "--bg" := str "#ffffff"]> (style e)))))
  else
    Env storage'
        (<[str "--card" := str "#020617"]>
           (<[str "--muted" := str "#9ca3af"]>
              (<[str "--text" := str "#e5e7eb"]>
                 (<[str "--bg" := str "#0f172a"]> (style e))))).

(** [setupThemeToggle()]; [prefersDark] is what
    [matchMedia('(prefers-color-scheme: dark)').matches] answers.  An
    absent entry and the empty string are both falsy. *)
Definition setupThemeToggle (prefersDark : bool) (e : env) : env :=
  let savedTheme := storage e !! key in
  let theme :=
    match savedTheme with
    | Some (c :: t) => c :: t
    | _ => if prefersDark then str "dark" else str "light"
    end in
  applyTheme theme e.

End Theme.

(** ** [debounce]

    The function [debounce(func, delay)] returns, with its variable
    [timeoutId] and the timers of the browser it sets and clears.  A call
    of [func] is recorded by its arguments. *)

Module Debounce.

Record state (A : Type) : Type := State {
  d_now : N;                          (* the clock, in milliseconds *)
  d_next : nat;                       (* the id the next timer gets *)
  d_timers : list (nat * (N * A));    (* active timers: id, due time, arguments *)
  d_timeoutId : option nat;           (* [timeoutId]; [None] is [undefined] *)
  d_calls : list A                    (* the calls of [func], oldest first *)
}.
Arguments State {A}.
Arguments d_now {A}.
Arguments d_next {A}.
Arguments d_timers {A}.
Arguments d_timeoutId {A}.
Arguments d_calls {A}.

(** [clearTimeout(id)]; clearing [undefined] or a timer that is gone does
    nothing. *)
Definition clearTimeout {A} (id : option nat) (timers : list (nat * (N * A)))
  : list (nat * (N * A)) :=
  match id with
  | None => timers
  | Some i => List.filter (fun t => negb (Nat.eqb (fst t) i)) timers
  end.

(** One call of the debounced function with [args]: the timer set is due
    after the delay as [setTimeout] takes it. *)
Definition call {A} (delay : N) (args : A) (s : state A) : state A :=
  let timers := clearTimeout (d_timeoutId s) (d_timers s) in
  State (d_now s) (S (d_next s))
        (timers ++ [(d_next s, (d_now s + timeout delay, args))])
        (Some (d_next s)) (d_calls s).

Definition is_due {A} (t : N) (x : nat * (N * A)) : bool := fst (snd x) <=? t.

(** [dt] milliseconds pass: the timers that come due fire, oldest first,
    each calling [func] with its arguments. *)
Definition advance {A} (dt : N) (s : state A) : state A :=
  let t := d_now s + dt in
  State t (d_next s)
        (List.filter (fun x => negb (is_due t x)) (d_timers s))
        (d_timeoutId s)
        (d_calls s ++ map (fun x => snd (snd x)) (List.filter (is_due t) (d_timers s))).

(** The state when [debounce] returns. *)
Definition init {A} : state A := State 0 1 [] None [].

Inductive event (A : Type) : Type :=
  | Call (args : A)
  | Wait (dt : N).
Arguments Call {A} args.
Arguments Wait {A} dt.

Definition step {A} (delay : N) (s : state A) (e : event A) : state A :=
  match e with
  | Call args => call delay args s
  | Wait dt => advance dt s
  end.

Definition run {A} (delay : N) (events : list (event A)) (s : state A)
  : state A :=
  fold_left (step delay) events s.

(** At most one timer is active, and [timeoutId] names it. *)
Definition tidy {A} (s : state A) : Prop :=
  match d_timers s with
  | [] => True
  | [(id, _)] => d_timeoutId s = Some id
  | _ => False
  end.

(** A burst: calls, each followed by a pause. *)
Definition burst {A} (calls : list (A * N)) : list (event A) :=
  concat (map (fun c => [Call (fst c); Wait (snd c)]) calls).

End Debounce.

(** ** Reveal on view: [setupIntersectionObserver]

    The observed elements are those matched by
    ['.skill-card, .project, .timeline-item, section'], in tree order. *)

Module Reveal.

Record item : Type := Item {
  opacity : jsstring;       (* [style.opacity] *)
  transform : jsstring;     (* [style.transform] *)
  transition : jsstring;    (* [style.transition] *)
  observed : bool           (* is the observer watching the element? *)
}.

(** [setupIntersectionObserver()]: the [forEach] over the elements. *)
Definition setup (items : list item) : list item :=
  map (fun _ => Item (str "0") (str "translateY(20px)")
                     (str "all 0.6s ease-out") true)
      items.

(** One entry handed to the callback: its target and [isIntersecting]. *)
Definition reveal (items : list item) (entry : nat * bool) : list item :=
  if snd entry then
    alter (fun it => Item (str "1") (str "translateY(0)") (transition it) false)
          (fst entry) items
  else items.

(** The callback of the observer, [entries.forEach(...)]. *)
Definition callback (entries : list (nat * bool)) (items : list item)
  : list item :=
  fold_left reveal entries items.

Definition hidden (it : item) : Prop :=
  opacity it = str "0" /\ transform it = str "translateY(20px)" /\
  observed it = true.

Definition revealed (it : item) : Prop :=
  opacity it = str "1" /\ transform it = str "translateY(0)" /\
  observed it = false.

End Reveal.

(** * Properties *)

(** ** Strings *)

Section StringFacts.

Lemma eqb_eq (a b : jsstring) : eqb a b = true <-> a = b.
Proof.
  revert b; induction a as [|c a IH]; intros [|d b]; simpl;
    try (split; [discriminate | intros E; inversion E]); [tauto|].
  rewrite andb_true_iff, N.eqb_eq, IH. split.
  - intros [-> ->]; reflexivity.
  - intros E; inversion E; auto.
Qed.

Lemma eqb_refl (a : jsstring) : eqb a a = true.
Proof. apply eqb_eq; reflexivity. Qed.

Lemma eqb_neq (a b : jsstring) : eqb a b = false <-> a <> b.
Proof.
  rewrite <- eqb_eq. destruct (eqb a b); split; congruence.
Qed.





End StringFacts.

(** ** Regular expressions: [test] decides the language *)

Section RegexFacts.

Lemma matches_Void_inv s : matches Void s -> False.
Proof. inversion 1. Qed.

Lemma matches_Eps_inv s : matches Eps s -> s = [].
Proof. inversion 1; reflexivity. Qed.

Lemma matches_Class_inv p s :
  matches (Class p) s -> exists c, s = [c] /\ p c = true.
Proof. inversion 1; subst; eauto. Qed.

Lemma matches_Cat_inv r1 r2 s :
  matches (Cat r1 r2) s ->
  exists s1 s2, s = s1 ++ s2 /\ matches r1 s1 /\ matches r2 s2.
Proof. inversion 1; subst; eauto. Qed.

Lemma matches_Alt_inv r1 r2 s :
  matches (Alt r1 r2) s -> matches r1 s \/ matches r2 s.
Proof. inversion 1; subst; auto. Qed.

Lemma matches_Star_cons r c s :
  matches (Star r) (c :: s) ->
  exists s1 s2, s = s1 ++ s2 /\ matches r (c :: s1) /\ matches (Star r) s2.
Proof.
  intros H. remember (Star r) as r' eqn:Er. remember (c :: s) as s' eqn:Es.
  revert s Es.
  induction H as [| | | | | |r0 s1 s2 H1 _ H2 IH2]; intros t Es;
    try discriminate.
  inversion Er; subst r0.
  destruct s1 as [|d s1]; simpl in Es.
  - apply IH2; auto.
  - inversion Es; subst. eauto.
Qed.

Lemma nullable_matches r : nullable r = true <-> matches r [].
Proof.
  induction r as [| |p|r1 IH1 r2 IH2|r1 IH1 r2 IH2|r IH]; simpl.
  - split; [discriminate | intros H; destruct (matches_Void_inv _ H)].
  - split; [constructor | reflexivity].
  - split; [discriminate|].
    intros H; apply matches_Class_inv in H as (c & E & _); discriminate.
  - rewrite andb_true_iff, IH1, IH2. split.
    + intros [H1 H2]. apply (MCat _ _ [] []); assumption.
    + intros H; apply matches_Cat_inv in H as (s1 & s2 & E & H1 & H2).
      symmetry in E; apply app_eq_nil in E as [-> ->]; auto.
  - rewrite orb_true_iff, IH1, IH2. split.
    + intros [H|H]; [apply MAltL | apply MAltR]; exact H.
    + apply matches_Alt_inv.
  - split; [constructor | reflexivity].
Qed.

Lemma deriv_matches r c s : matches (deriv c r) s <-> matches r (c :: s).
Proof.
  revert s.
  induction r as [| |p|r1 IH1 r2 IH2|r1 IH1 r2 IH2|r IH]; intros s; simpl.
  - split; intros H; destruct (matches_Void_inv _ H).
  - split; intros H; [destruct (matches_Void_inv _ H)|].
    apply matches_Eps_inv in H; discriminate.
  - destruct (p c) eqn:Hp; split; intros H.
    + apply matches_Eps_inv in H as ->. constructor; exact Hp.
    + apply matches_Class_inv in H as (d & E & _). inversion E; constructor.
    + destruct (matches_Void_inv _ H).
    + apply matches_Class_inv in H as (d & E & Hd). inversion E; congruence.
  - assert (Hcat : matches (Cat (deriv c r1) r2) s <->
                   exists s1 s2, s = s1 ++ s2 /\ matches r1 (c :: s1)
                                 /\ matches r2 s2).
    { split.
      - intros H; apply matches_Cat_inv in H as (s1 & s2 & E & H1 & H2).
        apply IH1 in H1; eauto.
      - intros (s1 & s2 & -> & H1 & H2). constructor; [apply IH1|]; auto. }
    assert (Hsplit : matches (Cat r1 r2) (c :: s) <->
                     (matches r1 [] /\ matches r2 (c :: s)) \/
                     exists s1 s2, s = s1 ++ s2 /\ matches r1 (c :: s1)
                                   /\ matches r2 s2).
    { split.
      - intros H; apply matches_Cat_inv in H as ([|d s1] & s2 & E & H1 & H2);
          simpl in E.
        + left; subst; auto.
        + right; inversion E; subst; eauto.
      - intros [[H1 H2]|(s1 & s2 & -> & H1 & H2)].
        + apply (MCat _ _ [] (c :: s)); assumption.
        + apply (MCat _ _ (c :: s1) s2); assumption. }
    rewrite Hsplit, <- Hcat, <- nullable_matches, <- IH2.
    destruct (nullable r1); split.
    + intros H; apply matches_Alt_inv in H as [H|H]; auto.
    + intros [[_ H]|H]; [apply MAltR | apply MAltL]; exact H.
    + auto.
    + intros [[H _]|H]; [discriminate | exact H].
  - split; intros H.
    + apply matches_Alt_inv in H as [H|H];
        [apply MAltL, IH1 | apply MAltR, IH2]; exact H.
    + apply matches_Alt_inv in H as [H|H];
        [apply MAltL, IH1 | apply MAltR, IH2]; exact H.
  - split; intros H.
    + apply matches_Cat_inv in H as (s1 & s2 & -> & H1 & H2).
      apply IH in H1. apply (MStarApp _ (c :: s1) s2); assumption.
    + apply matches_Star_cons in H as (s1 & s2 & -> & H1 & H2).
      constructor; [apply IH|]; assumption.
Qed.

(** [test] accepts exactly the strings of the pattern's language. *)
Theorem test_matches r s : test r s = true <-> matches r s.
Proof.
  revert r; induction s as [|c s IH]; intros r; simpl.
  - apply nullable_matches.
  - rewrite IH. apply deriv_matches.
Qed.

Lemma test_false r s : test r s = false <-> ~ matches r s.
Proof.
  rewrite <- test_matches. destruct (test r s); split; congruence.
Qed.

Lemma matches_Chr c s : matches (Chr c) s <-> s = [c].
Proof.
  split.
  - intros H; apply matches_Class_inv in H as (d & -> & Hd).
    apply N.eqb_eq in Hd; subst; reflexivity.
  - intros ->. constructor. apply N.eqb_refl.
Qed.

Lemma matches_Star_Class p s :
  matches (Star (Class p)) s <-> Forall (fun c => p c = true) s.
Proof.
  split.
  - intros H. remember (Star (Class p)) as r eqn:Er.
    induction H as [| | | | | |r0 s1 s2 H1 _ H2 IH2]; try discriminate.
    + constructor.
    + inversion Er; subst r0.
      apply matches_Class_inv in H1 as (c & -> & Hc).
      constructor; auto.
  - induction 1 as [|c s Hc _ IH].
    + constructor.
    + apply (MStarApp _ [c] s); [constructor|]; assumption.
Qed.

(** [[p]+] matches the non-empty strings made of characters of the class. *)
Lemma matches_Plus_Class p s :
  matches (Plus (Class p)) s <-> s <> [] /\ Forall (fun c => p c = true) s.
Proof.
  unfold Plus. split.
  - intros H; apply matches_Cat_inv in H as (s1 & s2 & -> & H1 & H2).
    apply matches_Class_inv in H1 as (c & -> & Hc).
    apply matches_Star_Class in H2. split; [discriminate|].
    constructor; assumption.
  - intros [Hne H]. destruct H as [|c s Hc H]; [congruence|].
    apply (MCat _ _ [c] s); [constructor | apply matches_Star_Class];
      assumption.
Qed.

(** The e-mail pattern spelled out: a local part, [@], and a domain that
    splits around one of its dots, none of the three parts empty or
    holding white space or [@]. *)
Lemma matches_emailRegex s :
  matches emailRegex s <->
  exists a b c,
    s = a ++ [0x40] ++ b ++ [0x2E] ++ c /\
    a <> [] /\ b <> [] /\ c <> [] /\
    Forall (fun x => not_space_at x = true) (a ++ b ++ c).
Proof.
  unfold emailRegex. split.
  - intros H.
    apply matches_Cat_inv in H as (a & s1 & -> & Ha & H).
    apply matches_Cat_inv in H as (at_ & s2 & -> & Hat & H).
    apply matches_Cat_inv in H as (b & s3 & -> & Hb & H).
    apply matches_Cat_inv in H as (dot & c & -> & Hdot & Hc).
    apply matches_Chr in Hat as ->. apply matches_Chr in Hdot as ->.
    apply matches_Plus_Class in Ha as [Ha Fa].
    apply matches_Plus_Class in Hb as [Hb Fb].
    apply matches_Plus_Class in Hc as [Hc Fc].
    exists a, b, c. repeat split; auto.
    apply Forall_app; split; [|apply Forall_app; split]; assumption.
  - intros (a & b & c & -> & Ha & Hb & Hc & F).
    apply Forall_app in F as [Fa F]. apply Forall_app in F as [Fb Fc].
    constructor; [apply matches_Plus_Class; auto|].
    constructor; [apply matches_Chr; reflexivity|].
    constructor; [apply matches_Plus_Class; auto|].
    constructor; [apply matches_Chr; reflexivity|].
    apply matches_Plus_Class; auto.
Qed.

End RegexFacts.

(** ** Elements and references *)

Section DomFacts.

Lemma map_alter_same {B} (g : element -> B) (f : element -> element) i l :
  (forall x, g (f x) = g x) -> map g (alter f i l) = map g l.
Proof.
  intros Hg. revert i; induction l as [|x l IH]; intros [|i]; simpl;
    rewrite ?Hg; try reflexivity.
  f_equal. apply IH.
Qed.

Lemma map_alter_at {B} (g : element -> B) (f : element -> element) i l :
  (forall x, l !! i = Some x -> g (f x) = g x) ->
  map g (alter f i l) = map g l.
Proof.
  revert i; induction l as [|x l IH]; intros [|i] Hg; simpl; try reflexivity.
  - rewrite (Hg x eq_refl). reflexivity.
  - f_equal. apply IH. intros y Hy. apply Hg. exact Hy.
Qed.

Lemma map_lookup {B} (g : element -> B) (l l' : list element) i x :
  map g l = map g l' -> l !! i = Some x ->
  exists y, l' !! i = Some y /\ g y = g x.
Proof.
  intros E Hx.
  assert (H : map g l !! i = Some (g x)).
  { change (map g l) with (g <$> l).
    rewrite list_lookup_fmap, Hx. reflexivity. }
  rewrite E in H. change (map g l') with (g <$> l') in H.
  rewrite list_lookup_fmap in H.
  destruct (l' !! i) as [y|]; [|discriminate].
  cbn in H. exists y. split; [reflexivity | congruence].
Qed.

Lemma find_id_ids id l l' :
  map el_id l = map el_id l' -> find_id id l = find_id id l'.
Proof.
  revert l'; induction l as [|x l IH]; intros [|y l'] E; try discriminate;
    [reflexivity|].
  simpl in *. inversion E as [[E1 E2]]. rewrite E1, (IH _ E2). reflexivity.
Qed.

Lemma static_ids l l' : map static l = map static l' -> map el_id l = map el_id l'.
Proof.
  intros E.
  assert (H : map (fun p => snd (fst (fst (fst (fst (fst p)))))) (map static l) =
              map (fun p => snd (fst (fst (fst (fst (fst p)))))) (map static l'))
    by (rewrite E; reflexivity).
  rewrite !map_map in H. exact H.
Qed.

Lemma find_id_static id l l' :
  map static l = map static l' -> find_id id l = find_id id l'.
Proof. intros E; apply find_id_ids, static_ids, E. Qed.

(** A reference returned by the lookup points at an element with that id. *)
Lemma find_id_lookup id l i :
  find_id id l = Some i -> exists el, l !! i = Some el /\ el_id el = id.
Proof.
  revert i; induction l as [|x l IH]; intros i; simpl; [discriminate|].
  destruct (eqb (el_id x) id) eqn:E.
  - intros [= <-]. apply eqb_eq in E. eauto.
  - destruct (find_id id l) as [j|]; simpl; [|discriminate].
    intros [= <-]. apply (IH j); reflexivity.
Qed.

Lemma find_id_distinct id id' l i j :
  find_id id l = Some i -> find_id id' l = Some j -> id <> id' -> i <> j.
Proof.
  intros Hi Hj Hne ->.
  apply find_id_lookup in Hi as (el & H1 & <-).
  apply find_id_lookup in Hj as (el' & H2 & <-).
  congruence.
Qed.

Lemma lookup_alter_at (f : element -> element) i (l : list element) el :
  l !! i = Some el -> alter f i l !! i = Some (f el).
Proof. intros H. rewrite list_lookup_alter_eq, H. reflexivity. Qed.

Lemma lookup_alter_other (f : element -> element) i j (l : list element) :
  i <> j -> alter f i l !! j = l !! j.
Proof. intros H. apply list_lookup_alter_ne, H. Qed.

Lemma has_token_add tok cl : has_token tok (token_add tok cl) = true.
Proof.
  unfold token_add. destruct (has_token tok cl) eqn:E; [exact E|].
  unfold has_token. rewrite existsb_app. simpl.
  rewrite eqb_refl, orb_true_r. reflexivity.
Qed.

Lemma has_token_remove tok cl : has_token tok (token_remove tok cl) = false.
Proof.
  unfold has_token, token_remove. induction cl as [|t cl IH]; simpl; auto.
  destruct (eqb tok t) eqn:E; simpl; rewrite ?E; exact IH.
Qed.

Lemma has_token_display b cl :
  has_token (str "error") (display b cl) = negb b.
Proof.
  destruct b; simpl; [apply has_token_remove | apply has_token_add].
Qed.

Lemma suffix_not_self (a b : jsstring) : b <> [] -> a ++ b <> a.
Proof.
  intros Hb E. apply (f_equal (@length N)) in E.
  rewrite length_app in E. destruct b; [congruence | simpl in E; lia].
Qed.

End DomFacts.

(** Reading a property of an element that was just written. *)
Ltac fields :=
  cbn [el_tag el_id el_name el_form el_action el_value el_defaultValue
       el_classList el_textContent el_disabled el_barred el_checked
       el_defaultChecked el_files el_options
       set_value set_classList set_textContent set_disabled set_className
       set_checked set_files set_options].

(** ** Running handlers *)

Section Running.

Lemma bind_run {A B} (m : M A) (k : A -> M B) w :
  (m ≫= k) w =
  match m w with
  | (Ret a, w') => k a w'
  | (Throw e, w') => (Throw e, w')
  end.
Proof. reflexivity. Qed.

Lemma mret_run {A} (a : A) w : @mret M M_ret A a w = (Ret a, w).
Proof. reflexivity. Qed.

Lemma emit_run e w :
  emit e w =
  (Ret tt, World (w_dom w) (w_timers w) (w_now w) (w_out w ++ [e])).
Proof. reflexivity. Qed.

Lemma getElementById_run id w :
  id <> [] -> getElementById id w = (Ret (find_id id (w_dom w)), w).
Proof. unfold getElementById. destruct id; [congruence | reflexivity]. Qed.

End Running.

(** ** [validateField] *)

Section ValidateField.

Lemma check_field_name v :
  check_field (str "name") v =
  if (length v =? 0)%nat then (false, str "Name is required")
  else if (length v <? 2)%nat then
    (false, str "Name must be at least 2 characters")
  else if negb (test name_regex v) then
    (false, str "Name can only contain letters, spaces, hyphens, and apostrophes")
  else (true, []).
Proof. reflexivity. Qed.

Lemma check_field_email v :
  check_field (str "email") v =
  if (length v =? 0)%nat then (false, str "Email is required")
  else if negb (test emailRegex v) then
    (false, str "Please enter a valid email address")
  else (true, []).
Proof. reflexivity. Qed.

Lemma check_field_message v :
  check_field (str "message") v =
  if (length v =? 0)%nat then (false, str "Message is required")
  else if (length v <? 10)%nat then
    (false, str "Message must be at least 10 characters")
  else (true, []).
Proof. reflexivity. Qed.

Lemma check_field_other id v :
  id <> str "name" -> id <> str "email" -> id <> str "message" ->
  check_field id v = (true, []).
Proof.
  intros H1 H2 H3. unfold check_field.
  apply eqb_neq in H1, H2, H3. rewrite H1, H2, H3. reflexivity.
Qed.

Lemma length_zero_nil (v : jsstring) : (length v =? 0)%nat = true <-> v = [].
Proof. rewrite Nat.eqb_eq. apply length_zero_iff_nil. Qed.

(** The code computes the verdict of the rule table. *)
Lemma check_field_verdict f v :
  Spec.verdict (Spec.rules f) v (check_field (Spec.field_id f) v).
Proof.
  destruct f; simpl Spec.field_id; simpl Spec.rules.
  - rewrite check_field_name.
    destruct (length v =? 0)%nat eqn:E0.
    { apply Spec.FirstFails. simpl. apply length_zero_nil in E0. tauto. }
    apply Spec.Holds.
    { simpl. intros ->. discriminate. }
    destruct (length v <? 2)%nat eqn:E2.
    { apply Spec.FirstFails. simpl. apply Nat.ltb_lt in E2. lia. }
    apply Spec.Holds.
    { simpl. apply Nat.ltb_ge in E2. exact E2. }
    destruct (test name_regex v) eqn:Er; simpl.
    + apply Spec.Holds; [apply test_matches, Er | constructor].
    + apply Spec.FirstFails. apply test_false, Er.
  - rewrite check_field_email.
    destruct (length v =? 0)%nat eqn:E0.
    { apply Spec.FirstFails. simpl. apply length_zero_nil in E0. tauto. }
    apply Spec.Holds.
    { simpl. intros ->. discriminate. }
    destruct (test emailRegex v) eqn:Er; simpl.
    + apply Spec.Holds; [apply test_matches, Er | constructor].
    + apply Spec.FirstFails. apply test_false, Er.
  - rewrite check_field_message.
    destruct (length v =? 0)%nat eqn:E0.
    { apply Spec.FirstFails. simpl. apply length_zero_nil in E0. tauto. }
    apply Spec.Holds.
    { simpl. intros ->. discriminate. }
    destruct (length v <? 10)%nat eqn:E2.
    + apply Spec.FirstFails. simpl. apply Nat.ltb_lt in E2. lia.
    + apply Spec.Holds; [|constructor].
      simpl. apply Nat.ltb_ge in E2. exact E2.
Qed.

(** The verdict of a rule table is unique. *)
Lemma verdict_unique rs v r1 r2 :
  Spec.verdict rs v r1 -> Spec.verdict rs v r2 -> r1 = r2.
Proof.
  intros H1; revert r2.
  induction H1 as [v|r msg rest v Hn|r msg rest v res Hh _ IH]; intros r2 H2;
    inversion H2; subst; auto; contradiction.
Qed.

(** A valid field has no message. *)
Lemma check_field_valid_msg id v :
  fst (check_field id v) = true -> snd (check_field id v) = [].
Proof.
  unfold check_field.
  repeat match goal with
         | |- context [if ?c then _ else _] => destruct c
         end; simpl; congruence.
Qed.

(** Without an [@] no e-mail address is valid. *)
Lemma email_needs_at v : ~ In 0x40 v -> fst (check_field (str "email") v) = false.
Proof.
  intros Hat. rewrite check_field_email.
  destruct (length v =? 0)%nat; [reflexivity|].
  destruct (test emailRegex v) eqn:Er; [|reflexivity].
  apply test_matches, matches_emailRegex in Er as (a & b & c & -> & _).
  destruct Hat. apply in_or_app. right. left. reflexivity.
Qed.

Lemma getElementById_error a w :
  getElementById (a ++ str "-error") w =
  (Ret (find_id (a ++ str "-error") (w_dom w)), w).
Proof. unfold getElementById. destruct a; reflexivity. Qed.

(** One call of [validateField] on an existing field, in full: the value
    returned and the world left behind. *)
Lemma validateField_run w i el :
  w_dom w !! i = Some el ->
  has_value el = true ->
  let r := check_field (el_id el) (trim (el_value el)) in
  let d1 := alter (fun e => set_classList (display (fst r) (el_classList e)) e)
                  i (w_dom w) in
  let d2 := match find_id (el_id el ++ str "-error") (w_dom w) with
            | Some j => alter (set_textContent (snd r)) j d1
            | None => d1
            end in
  validateField (Some i) w =
  (Ret (fst r), World d2 (w_timers w) (w_now w) (w_out w)).
Proof.
  intros Hi Hv r d1 d2. subst d2 d1.
  pose proof (check_field_valid_msg (el_id el) (trim (el_value el))) as Hmsg.
  fold r in Hmsg.
  unfold validateField, mbind, M_bind, bind, deref, value_of.
  rewrite Hi, Hv. cbn [mret M_ret ret]. rewrite getElementById_error. fold r.
  destruct r as [b msg]; simpl in *.
  destruct b; simpl.
  - rewrite (Hmsg eq_refl).
    destruct (find_id _ _); reflexivity.
  - destruct (find_id _ _); reflexivity.
Qed.

(** On an element without a [value] the call ends where it reads it. *)
Lemma validateField_no_value w i el :
  w_dom w !! i = Some el ->
  has_value el = false ->
  validateField (Some i) w = (Throw undefined_access, w).
Proof.
  intros Hi Hv. unfold validateField, mbind, M_bind, bind, deref, value_of.
  rewrite Hi, Hv. reflexivity.
Qed.

(** On [null] it ends where it reads the target. *)
Lemma validateField_null w target :
  match target with
  | Some i => w_dom w !! i = None
  | None => True
  end ->
  validateField target w = (Throw null_access, w).
Proof.
  unfold validateField, mbind, M_bind, bind, deref.
  destruct target as [i|]; [intros ->|]; reflexivity.
Qed.

(** The three ways a call of [validateField] goes. *)
Lemma validateField_ways target w :
  (exists i el, target = Some i /\ w_dom w !! i = Some el /\
                has_value el = true) \/
  validateField target w = (Throw undefined_access, w) \/
  validateField target w = (Throw null_access, w).
Proof.
  destruct target as [i|]; [|right; right; apply validateField_null; exact I].
  destruct (w_dom w !! i) as [el|] eqn:Hi;
    [|right; right; apply validateField_null; exact Hi].
  destruct (has_value el) eqn:Hv; [left; eauto|].
  right; left. apply (validateField_no_value w i el Hi Hv).
Qed.

(** [validateField] writes class tokens and text only. *)
Lemma validateField_frame target w :
  let w' := snd (validateField target w) in
  map static (w_dom w') = map static (w_dom w) /\
  map el_value (w_dom w') = map el_value (w_dom w) /\
  map el_disabled (w_dom w') = map el_disabled (w_dom w) /\
  w_timers w' = w_timers w /\ w_now w' = w_now w /\ w_out w' = w_out w.
Proof.
  destruct (validateField_ways target w)
    as [(i & el & -> & Hi & Hv)|[E|E]]; try (rewrite E; simpl; auto 10).
  rewrite (validateField_run w i el Hi Hv); simpl.
  destruct (find_id _ _);
    rewrite ?map_alter_same by reflexivity; auto 10.
Qed.

Lemma validateField_choices target w :
  map choices (w_dom (snd (validateField target w))) = map choices (w_dom w).
Proof.
  destruct (validateField_ways target w)
    as [(i & el & -> & Hi & Hv)|[E|E]]; try (rewrite E; reflexivity).
  rewrite (validateField_run w i el Hi Hv); simpl.
  destruct (find_id _ _);
    rewrite ?map_alter_same by reflexivity; reflexivity.
Qed.

End ValidateField.

Section ValidateFieldDisplay.

(** What the page shows after [validateField]: the field carries the
    [error] class exactly when the check failed, and the element
    [<id>-error], when the page has one, holds the message. *)
Lemma validateField_display w i el :
  w_dom w !! i = Some el ->
  has_value el = true ->
  let r := check_field (el_id el) (trim (el_value el)) in
  let w' := snd (validateField (Some i) w) in
  (exists el', w_dom w' !! i = Some el' /\
               el_classList el' = display (fst r) (el_classList el) /\
               el_value el' = el_value el) /\
  (forall j, find_id (el_id el ++ str "-error") (w_dom w) = Some j ->
             exists ee, w_dom w' !! j = Some ee /\ el_textContent ee = snd r).
Proof.
  intros Hi Hv r w'. subst w'. rewrite (validateField_run w i el Hi Hv). fold r.
  cbn [snd w_dom]. destruct (find_id (el_id el ++ str "-error") (w_dom w)) as [j|] eqn:Hj.
  - destruct (find_id_lookup _ _ _ Hj) as (ee & Hee & Hid).
    assert (Hne : i <> j).
    { intros ->. rewrite Hi in Hee. inversion Hee; subst ee.
      symmetry in Hid. revert Hid. apply suffix_not_self. discriminate. }
    split.
    + rewrite lookup_alter_other by congruence.
      rewrite (lookup_alter_at _ _ _ _ Hi). eexists; split; [reflexivity|].
      split; reflexivity.
    + intros j' [= <-].
      erewrite lookup_alter_at
        by (rewrite lookup_alter_other by exact Hne; exact Hee).
      eexists; split; reflexivity.
  - split; [|discriminate].
    rewrite (lookup_alter_at _ _ _ _ Hi). eexists; split; [reflexivity|].
    split; reflexivity.
Qed.

(** One call of [clearFieldError] on an existing field, in full. *)
Lemma clearFieldError_run w i el :
  w_dom w !! i = Some el ->
  let d1 := alter (fun e => set_classList
                              (token_remove (str "error") (el_classList e)) e)
                  i (w_dom w) in
  let d2 := match find_id (el_id el ++ str "-error") (w_dom w) with
            | Some j => alter (set_textContent []) j d1
            | None => d1
            end in
  clearFieldError (Some i) w =
  (Ret tt, World d2 (w_timers w) (w_now w) (w_out w)).
Proof.
  intros Hi. cbv zeta.
  unfold clearFieldError, mbind, M_bind, bind, deref.
  rewrite Hi, getElementById_error.
  destruct (find_id _ _); reflexivity.
Qed.

(** [clearFieldError] leaves the field without the [error] class and the
    element [<id>-error], when the page has one, without text. *)
Lemma clearFieldError_display w i el :
  w_dom w !! i = Some el ->
  let w' := snd (clearFieldError (Some i) w) in
  (exists el', w_dom w' !! i = Some el' /\
               has_token (str "error") (el_classList el') = false) /\
  (forall j, find_id (el_id el ++ str "-error") (w_dom w) = Some j ->
             exists ee, w_dom w' !! j = Some ee /\ el_textContent ee = []).
Proof.
  intros Hi w'. subst w'. rewrite (clearFieldError_run w i el Hi).
  cbn [snd w_dom].
  destruct (find_id (el_id el ++ str "-error") (w_dom w)) as [j|] eqn:Hj.
  - destruct (find_id_lookup _ _ _ Hj) as (ee & Hee & Hid).
    assert (Hne : i <> j).
    { intros ->. rewrite Hi in Hee. inversion Hee; subst ee.
      symmetry in Hid. revert Hid. apply suffix_not_self. discriminate. }
    split.
    + rewrite lookup_alter_other by congruence.
      rewrite (lookup_alter_at _ _ _ _ Hi). eexists; split; [reflexivity|].
      fields. apply has_token_remove.
    + intros j' [= <-].
      erewrite lookup_alter_at
        by (rewrite lookup_alter_other by exact Hne; exact Hee).
      eexists; split; reflexivity.
  - split; [|discriminate].
    rewrite (lookup_alter_at _ _ _ _ Hi). eexists; split; [reflexivity|].
    fields. apply has_token_remove.
Qed.

End ValidateFieldDisplay.

(** C2: [validateField], which checks the trimmed value of the field,
    implements the rule table with the first failing rule winning.  For a
    control (an element with a [value]) whose id is [name], [email] or
    [message] it returns the verdict
    of the table on the trimmed value and shows the message of the first
    failing rule; a name is invalid iff it is empty, shorter than 2, or
    does not match the name pattern; an e-mail is invalid iff it is empty
    or does not match the e-mail pattern; a message is invalid iff it is
    empty or shorter than 10, and a message of trimmed length exactly 10
    is valid. *)
Theorem validateField_rule_table
    (f : Spec.field) (w : world) (i : nat) (el : element) :
  w_dom w !! i = Some el ->
  has_value el = true ->
  el_id el = Spec.field_id f ->
  let value := trim (el_value el) in
  exists b msg w',
    validateField (Some i) w = (Ret b, w') /\
    Spec.verdict (Spec.rules f) value (b, msg) /\
    (exists el', w_dom w' !! i = Some el' /\
                 has_token (str "error") (el_classList el') = negb b) /\
    (forall j, find_id (el_id el ++ str "-error") (w_dom w) = Some j ->
               exists ee, w_dom w' !! j = Some ee /\ el_textContent ee = msg) /\
    match f with
    | Spec.Name =>
        b = false <->
        value = [] \/ (length value < 2)%nat \/ ~ matches name_regex value
    | Spec.Email =>
        b = false <-> value = [] \/ ~ matches emailRegex value
    | Spec.Message =>
        (b = false <-> value = [] \/ (length value < 10)%nat) /\
        (length value = 10%nat -> b = true)
    end.
Proof.
  intros Hi Hval Hid value.
  pose proof (validateField_run w i el Hi Hval) as Hrun.
  pose proof (validateField_display w i el Hi Hval) as [Hfield Herr].
  pose proof (check_field_verdict f value) as Hv.
  cbv zeta in Hrun, Hfield, Herr. fold value in Hrun, Hfield, Herr.
  rewrite Hrun in Hfield, Herr. simpl snd in Hfield, Herr.
  rewrite <- Hid in Hv.
  destruct (check_field (el_id el) value) as [b msg] eqn:Hc.
  simpl fst in *; simpl snd in *.
  eexists b, msg, _. split; [exact Hrun|]. split; [exact Hv|].
  split.
  { destruct Hfield as (el' & Hl & Hcl & _). exists el'. split; [exact Hl|].
    rewrite Hcl. apply has_token_display. }
  split; [exact Herr|].
  rewrite Hid in Hc. clear - Hc.
  destruct f; simpl Spec.field_id in Hc.
  - rewrite check_field_name in Hc.
    destruct (length value =? 0)%nat eqn:E0.
    { apply length_zero_nil in E0. inversion Hc. tauto. }
    destruct (length value <? 2)%nat eqn:E2.
    { apply Nat.ltb_lt in E2. inversion Hc. tauto. }
    apply Nat.ltb_ge in E2.
    assert (value <> []) by (intros E; rewrite E in E2; simpl in E2; lia).
    destruct (test name_regex value) eqn:Er; simpl in Hc; inversion Hc.
    + apply test_matches in Er. split; [discriminate|].
      intros [?|[?|?]]; [contradiction | lia | contradiction].
    + apply test_false in Er. tauto.
  - rewrite check_field_email in Hc.
    destruct (length value =? 0)%nat eqn:E0.
    { apply length_zero_nil in E0. inversion Hc. tauto. }
    assert (value <> []).
    { intros E. rewrite E in E0. discriminate. }
    destruct (test emailRegex value) eqn:Er; simpl in Hc; inversion Hc.
    + apply test_matches in Er. split; [discriminate|].
      intros [?|?]; contradiction.
    + apply test_false in Er. tauto.
  - rewrite check_field_message in Hc.
    destruct (length value =? 0)%nat eqn:E0.
    { apply length_zero_nil in E0. inversion Hc. split; [tauto|].
      rewrite E0. discriminate. }
    assert (value <> []).
    { intros E. rewrite E in E0. discriminate. }
    destruct (length value <? 10)%nat eqn:E2; inversion Hc.
    + apply Nat.ltb_lt in E2. split; [tauto | lia].
    + apply Nat.ltb_ge in E2. split; [|reflexivity].
      split; [discriminate|]. intros [?|?]; [contradiction | lia].
Qed.

(** The name field of the sample page, filled with [Jane Doe]. *)
Lemma validateField_rule_table_witness :
  exists b msg w',
    validateField (Some 1%nat) Sample.filled = (Ret b, w') /\
    Spec.verdict (Spec.rules Spec.Name) (str "Jane Doe") (b, msg) /\
    b = true.
Proof.
  destruct (validateField_rule_table Spec.Name Sample.filled 1 _
              eq_refl eq_refl eq_refl) as (b & msg & w' & Hrun & Hv & _ & _ & _).
  exists b, msg, w'. split; [exact Hrun|]. split; [exact Hv|].
  vm_compute in Hrun. inversion Hrun. reflexivity.
Defined.

(** C10: for a field, that is a control with a [value], whose id is none
    of [name], [email] and [message], [validateField] returns [true]
    whatever the value, the empty string included; afterwards the field
    does not carry the [error] class, its value is untouched, and the
    element [<id>-error], when the page has one, holds no message. *)
Theorem validateField_other_field (w : world) (i : nat) (el : element) :
  w_dom w !! i = Some el ->
  has_value el = true ->
  el_id el <> str "name" ->
  el_id el <> str "email" ->
  el_id el <> str "message" ->
  exists w',
    validateField (Some i) w = (Ret true, w') /\
    (exists el', w_dom w' !! i = Some el' /\
                 has_token (str "error") (el_classList el') = false /\
                 el_value el' = el_value el) /\
    (forall j, find_id (el_id el ++ str "-error") (w_dom w) = Some j ->
               exists ee, w_dom w' !! j = Some ee /\ el_textContent ee = []).
Proof.
  intros Hi Hhas H1 H2 H3.
  pose proof (validateField_run w i el Hi Hhas) as Hrun.
  pose proof (validateField_display w i el Hi Hhas) as [Hfield Herr].
  cbv zeta in Hrun, Hfield, Herr.
  rewrite Hrun in Hfield, Herr. simpl snd in Hfield, Herr.
  rewrite (check_field_other _ (trim (el_value el)) H1 H2 H3) in *.
  simpl fst in *; simpl snd in *.
  eexists. split; [exact Hrun|]. split; [|exact Herr].
  destruct Hfield as (el' & Hl & Hcl & Hval). exists el'.
  split; [exact Hl|]. split; [|exact Hval].
  rewrite Hcl. apply has_token_remove.
Qed.

(** ** [showFormStatus] *)

Section ShowFormStatus.

(** One call of [showFormStatus], in full. *)
Lemma showFormStatus_run message type w :
  showFormStatus message type w =
  (Ret tt,
   match find_id (str "form-status") (w_dom w) with
   | None => w
   | Some i =>
       World (alter (set_className (str "form-status show " ++ type)) i
                    (alter (set_textContent message) i (w_dom w)))
             (if eqb type (str "success")
              then w_timers w ++ [Timer (w_now w + 4000) (HideStatus i)]
              else w_timers w)
             (w_now w) (w_out w)
   end).
Proof.
  unfold showFormStatus, mbind, M_bind, bind, getElementById.
  cbn [str]. destruct (find_id _ (w_dom w)) as [i|]; [|reflexivity].
  destruct (eqb type _); reflexivity.
Qed.

(** [showFormStatus] writes the text and the class of the status region,
    and the timer queue; nothing else. *)
Lemma showFormStatus_frame message type w :
  let w' := snd (showFormStatus message type w) in
  map static (w_dom w') = map static (w_dom w) /\
  map el_value (w_dom w') = map el_value (w_dom w) /\
  map el_disabled (w_dom w') = map el_disabled (w_dom w) /\
  w_now w' = w_now w /\ w_out w' = w_out w.
Proof.
  rewrite showFormStatus_run. cbn [snd].
  destruct (find_id _ (w_dom w)); cbn [w_dom w_now w_out];
    rewrite ?map_alter_same by reflexivity; auto.
Qed.


Lemma showFormStatus_error_timers message type w :
  type <> str "success" ->
  w_timers (snd (showFormStatus message type w)) = w_timers w.
Proof.
  intros H. rewrite showFormStatus_run. cbn [snd].
  apply eqb_neq in H. rewrite H.
  destruct (find_id _ (w_dom w)); reflexivity.
Qed.

(** When the page has a status region, it shows the message with the
    classes [form-status show <type>]. *)
Lemma showFormStatus_region message type w i :
  find_id (str "form-status") (w_dom w) = Some i ->
  status_region (snd (showFormStatus message type w)) =
  Some (message, parse_tokens (str "form-status show " ++ type) [] []).
Proof.
  intros Hi. destruct (find_id_lookup _ _ _ Hi) as (el & Hel & _).
  unfold status_region.
  rewrite (find_id_static _ _ (w_dom w))
    by apply (showFormStatus_frame message type w).
  rewrite Hi. rewrite showFormStatus_run, Hi. cbn [snd w_dom mbind option_bind].
  erewrite lookup_alter_at by (apply lookup_alter_at; exact Hel).
  reflexivity.
Qed.

End ShowFormStatus.

(** ** [handleFormSubmit], the synchronous pass *)

Section HandleFormSubmit.

(** The event target is always an element of the page; a dangling
    reference behaves like [null]. *)
Lemma handleFormSubmit_no_form form w :
  w_dom w !! form = None ->
  handleFormSubmit form w = (Throw null_access, snd (emit PreventDefault w)).
Proof.
  intros H. unfold handleFormSubmit, mbind, M_bind, bind, getElementById, deref.
  cbn [emit str fst snd w_dom]. rewrite H. reflexivity.
Qed.

(** The safety check: with a placeholder in [form.action] the handler
    shows the configuration error, logs it and returns. *)
Lemma handleFormSubmit_placeholder form w fe :
  w_dom w !! form = Some fe ->
  is_placeholder (el_action fe) = true ->
  handleFormSubmit form w =
  (Ret None,
   snd (emit (ConsoleError
                [str "ERROR: Formspree form ID not configured properly in index.html"])
          (snd (showFormStatus Msg.not_configured (str "error")
                  (snd (emit PreventDefault w)))))).
Proof.
  intros H Hp. unfold handleFormSubmit, mbind, M_bind, bind, getElementById, deref.
  cbn [emit str fst snd w_dom]. rewrite H, Hp.
  rewrite showFormStatus_run. reflexivity.
Qed.

(** Past the safety check: the three validations in turn, then either the
    generic error or the request. *)
Lemma handleFormSubmit_checked form w fe :
  w_dom w !! form = Some fe ->
  is_placeholder (el_action fe) = false ->
  let w0 := snd (emit PreventDefault w) in
  let submitBtn := find_id (str "submit-btn") (w_dom w) in
  let r1 := validateField (find_id (str "name") (w_dom w)) w0 in
  let r2 := validateField (find_id (str "email") (w_dom w)) (snd r1) in
  let r3 := validateField (find_id (str "message") (w_dom w)) (snd r2) in
  handleFormSubmit form w =
  match fst r1 with
  | Throw e => (Throw e, snd r1)
  | Ret b1 =>
    match fst r2 with
    | Throw e => (Throw e, snd r2)
    | Ret b2 =>
      match fst r3 with
      | Throw e => (Throw e, snd r3)
      | Ret b3 =>
        if negb b1 || negb b2 || negb b3 then
          (Ret None, snd (showFormStatus Msg.fix_errors (str "error") (snd r3)))
        else send_request form submitBtn (snd r3)
      end
    end
  end.
Proof.
  intros H Hp w0 submitBtn r1 r2 r3.
  subst r1 r2 r3 w0 submitBtn.
  unfold handleFormSubmit.
  rewrite bind_run, emit_run; cbv beta iota.
  do 4 (rewrite bind_run, getElementById_run by discriminate; cbv beta iota).
  rewrite bind_run. unfold deref at 1. cbn [w_dom snd]. rewrite H, Hp.
  rewrite bind_run.
  destruct (validateField (find_id (str "name") _) _) as [[b1|e1] w1];
    cbn [fst snd]; [|reflexivity].
  rewrite bind_run.
  destruct (validateField (find_id (str "email") _) _) as [[b2|e2] w2];
    cbn [fst snd]; [|reflexivity].
  rewrite bind_run.
  destruct (validateField (find_id (str "message") _) _) as [[b3|e3] w3];
    cbn [fst snd]; [|reflexivity].
  destruct (negb b1 || negb b2 || negb b3).
  - rewrite bind_run, showFormStatus_run. reflexivity.
  - reflexivity.
Qed.

End HandleFormSubmit.

Section Requests.

Lemma requests_emit e w :
  requests (snd (emit e w)) =
  requests w ++ match e with Fetch r => [r] | _ => [] end.
Proof.
  unfold requests. cbn [emit snd w_out]. rewrite omap_app.
  destruct e; reflexivity.
Qed.

Lemma requests_out w w' : w_out w' = w_out w -> requests w' = requests w.
Proof. unfold requests. intros ->. reflexivity. Qed.

Lemma requests_validateField target w :
  requests (snd (validateField target w)) = requests w.
Proof. apply requests_out, validateField_frame. Qed.

Lemma requests_showFormStatus message type w :
  requests (snd (showFormStatus message type w)) = requests w.
Proof. apply requests_out, showFormStatus_frame. Qed.

Lemma lookup_value (l l' : list element) i x y :
  map el_value l = map el_value l' ->
  l !! i = Some x -> l' !! i = Some y -> el_value x = el_value y.
Proof.
  intros E Hx Hy.
  assert (H : map el_value l !! i = Some (el_value x)).
  { change (map el_value l) with (el_value <$> l).
    rewrite list_lookup_fmap, Hx. reflexivity. }
  rewrite E in H. change (map el_value l') with (el_value <$> l') in H.
  rewrite list_lookup_fmap, Hy in H. cbn in H. congruence.
Qed.

(** A check that returned [true] found its field, and the trimmed value
    of that field passes its rules; [w0] is the page the handler started
    from, which earlier checks changed in display only. *)
Lemma validateField_true_rules f w0 w :
  map static (w_dom w) = map static (w_dom w0) ->
  map el_value (w_dom w) = map el_value (w_dom w0) ->
  fst (validateField (find_id (Spec.field_id f) (w_dom w0)) w) = Ret true ->
  exists i el,
    find_id (Spec.field_id f) (w_dom w0) = Some i /\
    w_dom w0 !! i = Some el /\
    Spec.verdict (Spec.rules f) (trim (el_value el)) (true, []).
Proof.
  intros Hs Hv Hr.
  destruct (find_id (Spec.field_id f) (w_dom w0)) as [i|] eqn:Hi;
    [|discriminate].
  destruct (find_id_lookup _ _ _ Hi) as (el & Hel & Hid).
  symmetry in Hs.
  destruct (map_lookup static _ _ _ _ Hs Hel) as (el' & Hel' & Hst).
  destruct (has_value el') eqn:Hhas;
    [|rewrite (validateField_no_value w i el' Hel' Hhas) in Hr; discriminate].
  rewrite (validateField_run w i el' Hel' Hhas) in Hr. cbn [fst] in Hr.
  assert (Hid' : el_id el' = Spec.field_id f).
  { rewrite <- Hid. unfold static in Hst. congruence. }
  assert (Hval : el_value el' = el_value el)
    by exact (lookup_value _ _ _ _ _ Hv Hel' Hel).
  exists i, el. split; [reflexivity|]. split; [exact Hel|].
  pose proof (check_field_verdict f (trim (el_value el))) as V.
  rewrite Hid', Hval in Hr.
  pose proof (check_field_valid_msg (Spec.field_id f) (trim (el_value el))) as Hm.
  destruct (check_field (Spec.field_id f) (trim (el_value el))) as [b m].
  cbn [fst snd] in *. inversion Hr; subst b. rewrite (Hm eq_refl) in V.
  exact V.
Qed.

End Requests.

(** C1: in one pass of [handleFormSubmit] a request goes out only if the
    three calls of [validateField] of that pass, on [name], [email] and
    [message], all returned [true]; then each of the three fields exists
    and its trimmed value passes every rule of its row of the table.  If
    any of the three did not return [true], the pass issues no request. *)
Theorem fetch_requires_valid_fields (form : nat) (w : world) :
  let w' := snd (handleFormSubmit form w) in
  (requests w' <> requests w ->
   validations w = all_valid /\
   forall f, exists i el,
     find_id (Spec.field_id f) (w_dom w) = Some i /\
     w_dom w !! i = Some el /\
     Spec.verdict (Spec.rules f) (trim (el_value el)) (true, [])) /\
  (validations w <> all_valid -> requests w' = requests w).
Proof.
  cbv zeta.
  assert (Hkey : requests (snd (handleFormSubmit form w)) = requests w \/
                 validations w = all_valid).
  { destruct (w_dom w !! form) as [fe|] eqn:Hf.
    2:{ left. rewrite (handleFormSubmit_no_form _ _ Hf). cbn [snd].
        rewrite requests_emit, app_nil_r. reflexivity. }
    destruct (is_placeholder (el_action fe)) eqn:Hp.
    { left. rewrite (handleFormSubmit_placeholder _ _ _ Hf Hp). cbn [snd].
      rewrite requests_emit, app_nil_r, requests_showFormStatus.
      rewrite requests_emit, app_nil_r. reflexivity. }
    rewrite (handleFormSubmit_checked _ _ _ Hf Hp). cbv zeta.
    unfold validations, all_valid.
    set (w0 := snd (emit PreventDefault w)).
    set (r1 := validateField (find_id (str "name") (w_dom w)) w0).
    set (r2 := validateField (find_id (str "email") (w_dom w)) (snd r1)).
    set (r3 := validateField (find_id (str "message") (w_dom w)) (snd r2)).
    assert (H1 : requests (snd r1) = requests w).
    { subst r1. rewrite requests_validateField. subst w0.
      rewrite requests_emit, app_nil_r. reflexivity. }
    assert (H2 : requests (snd r2) = requests w).
    { subst r2. rewrite requests_validateField. exact H1. }
    assert (H3 : requests (snd r3) = requests w).
    { subst r3. rewrite requests_validateField. exact H2. }
    destruct (fst r1) as [b1|e1]; [|left; exact H1].
    destruct (fst r2) as [b2|e2]; [|left; exact H2].
    destruct (fst r3) as [b3|e3]; [|left; exact H3].
    destruct b1, b2, b3; cbn [negb orb];
      try (left; cbn [snd]; rewrite requests_showFormStatus; exact H3).
    right. reflexivity. }
  split.
  - intros Hreq. destruct Hkey as [Hk|Hk]; [contradiction|].
    split; [exact Hk|].
    unfold validations, all_valid in Hk.
    set (w0 := snd (emit PreventDefault w)) in Hk.
    set (r1 := validateField (find_id (str "name") (w_dom w)) w0) in Hk.
    set (r2 := validateField (find_id (str "email") (w_dom w)) (snd r1)) in Hk.
    set (r3 := validateField (find_id (str "message") (w_dom w)) (snd r2)) in Hk.
    assert (K1 : fst r1 = Ret true) by congruence.
    assert (K2 : fst r2 = Ret true) by congruence.
    assert (K3 : fst r3 = Ret true) by congruence.
    pose proof (validateField_frame (find_id (str "name") (w_dom w)) w0)
      as (S1 & V1 & _).
    pose proof (validateField_frame (find_id (str "email") (w_dom w)) (snd r1))
      as (S2 & V2 & _).
    cbv zeta in S1, V1, S2, V2. fold r1 in S1, V1, S2, V2. fold r2 in S2, V2.
    intros [| |].
    + apply (validateField_true_rules Spec.Name w w0); [reflexivity..|exact K1].
    + apply (validateField_true_rules Spec.Email w (snd r1));
        [exact S1 | exact V1 | exact K2].
    + apply (validateField_true_rules Spec.Message w (snd r2));
        [rewrite S2; exact S1 | rewrite V2; exact V1 | exact K3].
  - intros Hv. destruct Hkey as [Hk|Hk]; [exact Hk | contradiction].
Qed.

(** On the filled sample page the request goes out, and the three checks
    had returned [true]. *)
Lemma fetch_requires_valid_fields_witness :
  requests (snd (handleFormSubmit 0 Sample.filled)) <> requests Sample.filled /\
  validations Sample.filled = all_valid.
Proof.
  assert (H : requests (snd (handleFormSubmit 0 Sample.filled))
              <> requests Sample.filled) by (vm_compute; discriminate).
  split; [exact H|].
  exact (proj1 (proj1 (fetch_requires_valid_fields 0 Sample.filled) H)).
Defined.

Section StatusRegion.

Lemma status_region_dom w w' :
  w_dom w' = w_dom w -> status_region w' = status_region w.
Proof. unfold status_region. intros ->. reflexivity. Qed.

Lemma error_tokens :
  parse_tokens (str "form-status show " ++ str "error") [] [] =
  [str "form-status"; str "show"; str "error"].
Proof. reflexivity. Qed.

Lemma success_tokens :
  parse_tokens (str "form-status show " ++ str "success") [] [] =
  [str "form-status"; str "show"; str "success"].
Proof. reflexivity. Qed.

(** Away from the status region [showFormStatus] changes no element. *)
Lemma showFormStatus_elsewhere message type w i :
  find_id (str "form-status") (w_dom w) <> Some i ->
  w_dom (snd (showFormStatus message type w)) !! i = w_dom w !! i.
Proof.
  intros H. rewrite showFormStatus_run. cbn [snd].
  destruct (find_id (str "form-status") (w_dom w)) as [s|]; [|reflexivity].
  cbn [w_dom]. rewrite !lookup_alter_other by congruence. reflexivity.
Qed.

End StatusRegion.

(** C3: when [form.action] holds a recognised placeholder
    ([YOUR_FORMSPREE_ID] or [xyzqwvba]), [handleFormSubmit] returns at
    once, whatever the fields hold: no request is issued, no timer is
    set, no element other than the status region is touched, and the
    status region shows the configuration error, tagged [error]. *)
Theorem placeholder_not_configured (form : nat) (w : world) (fe : element) :
  w_dom w !! form = Some fe ->
  is_placeholder (el_action fe) = true ->
  exists w',
    handleFormSubmit form w = (Ret None, w') /\
    requests w' = requests w /\
    w_timers w' = w_timers w /\
    values w' = values w /\
    (forall i, find_id (str "form-status") (w_dom w) <> Some i ->
               w_dom w' !! i = w_dom w !! i) /\
    (forall s, find_id (str "form-status") (w_dom w) = Some s ->
               status_region w' =
               Some (Msg.not_configured,
                     [str "form-status"; str "show"; str "error"])).
Proof.
  intros Hf Hp. eexists. split; [apply (handleFormSubmit_placeholder _ _ _ Hf Hp)|].
  set (w0 := snd (emit PreventDefault w)).
  split.
  { rewrite requests_emit, app_nil_r, requests_showFormStatus.
    subst w0. rewrite requests_emit, app_nil_r. reflexivity. }
  split.
  { cbn [emit snd w_timers].
    rewrite showFormStatus_error_timers by discriminate. reflexivity. }
  split.
  { unfold values. cbn [emit snd w_dom].
    destruct (showFormStatus_frame Msg.not_configured (str "error") w0)
      as (_ & Hv & _).
    cbv zeta in Hv. rewrite Hv. reflexivity. }
  split.
  { intros i Hi. cbn [emit snd w_dom].
    rewrite showFormStatus_elsewhere by exact Hi. reflexivity. }
  intros s Hs.
  rewrite (status_region_dom
             (snd (showFormStatus Msg.not_configured (str "error") w0)))
    by reflexivity.
  rewrite (showFormStatus_region _ _ w0 s Hs), error_tokens. reflexivity.
Qed.

(** The sample page with the template endpoint left in place. *)
Lemma placeholder_not_configured_witness :
  exists w',
    handleFormSubmit 0 (Sample.start
      (Sample.page Sample.template (str "Jane Doe") (str "jane@example.com")
                   (str "This is a long enough message.") false)) =
    (Ret None, w') /\
    requests w' = [] /\
    status_region w' =
    Some (Msg.not_configured, [str "form-status"; str "show"; str "error"]).
Proof.
  destruct (placeholder_not_configured 0
              (Sample.start
                 (Sample.page Sample.template (str "Jane Doe")
                    (str "jane@example.com")
                    (str "This is a long enough message.") false))
              _ eq_refl eq_refl)
    as (w' & Hrun & Hreq & _ & _ & _ & Hst).
  exists w'. split; [exact Hrun|]. split; [exact Hreq|].
  apply (Hst 8%nat). reflexivity.
Defined.

(** The empty subject field of the sample page, a text input for which
    the code has no rule: validating it returns [true] and clears its
    error display. *)
Lemma validateField_other_field_witness :
  exists w',
    validateField (Some 9%nat) Sample.with_subject = (Ret true, w') /\
    (exists el', w_dom w' !! 9%nat = Some el' /\
                 has_token (str "error") (el_classList el') = false /\
                 el_value el' = []) /\
    exists ee, w_dom w' !! 10%nat = Some ee /\ el_textContent ee = [].
Proof.
  destruct (validateField_other_field Sample.with_subject 9 Sample.subject
              eq_refl eq_refl)
    as (w' & Hrun & Hfield & Herr);
    [discriminate | discriminate | discriminate |].
  exists w'. split; [exact Hrun|]. split; [exact Hfield|].
  apply (Herr 10%nat). reflexivity.
Defined.

(** ** The promise chain *)

Section Chain.

(** The callback of [.catch], in full. *)
Lemma on_error_run e w :
  on_error e w =
  showFormStatus
    (if eqb (exn_message e) (str "FORMSPREE_NOT_FOUND") then Msg.not_found
     else if eqb (exn_message e) (str "FORMSPREE_VALIDATION_ERROR")
          then Msg.rejected
     else if includes (exn_message e) (str "Failed to fetch") then Msg.network
     else Msg.failed)
    (str "error")
    (snd (emit (ConsoleError [str "Form submission error:"; exn_message e]) w)).
Proof.
  unfold on_error. rewrite bind_run, emit_run. cbv beta iota. cbn [snd].
  destruct (eqb (exn_message e) (str "FORMSPREE_NOT_FOUND")); [reflexivity|].
  destruct (eqb (exn_message e) (str "FORMSPREE_VALIDATION_ERROR"));
    [reflexivity|].
  destruct (includes (exn_message e) (str "Failed to fetch")); reflexivity.
Qed.

(** The world after the [.then] callback has handled a 2xx response, up to
    the call of [response.json()]. *)
Lemma respond_ok p resp w :
  ok resp = true ->
  let w1 := snd (showFormStatus Msg.sent (str "success") w) in
  let w2 := snd (reset (p_form p) w1) in
  let w3 := snd (emit (ConsoleLog
                         [Msg.check_mark ++
                          str " Form submitted successfully to Formspree at"]
                         (w_now w2)) w2) in
  respond p (Responded resp) w =
  match json_failure resp with
  | None => (Ret tt, w3)
  | Some msg => on_error (SyntaxError msg) w3
  end.
Proof.
  intros Hok. cbv zeta.
  unfold respond, catch_. rewrite bind_run. cbn [fetch_promise].
  rewrite mret_run. cbv beta iota.
  unfold on_response. rewrite Hok.
  rewrite bind_run, showFormStatus_run. cbv beta iota.
  unfold json. destruct (json_failure resp); reflexivity.
Qed.

(** A response outside 2xx: the [.then] callback throws and the [.catch]
    callback gets the error. *)
Lemma respond_not_ok p resp w :
  ok resp = false ->
  respond p (Responded resp) w =
  on_error
    (Error (if status resp =? 404 then str "FORMSPREE_NOT_FOUND"
            else if status resp =? 422 then str "FORMSPREE_VALIDATION_ERROR"
            else str "FORMSPREE_ERROR_" ++ of_number (status resp)))
    w.
Proof.
  intros Hok. unfold respond, catch_. rewrite bind_run. cbn [fetch_promise].
  rewrite mret_run. cbv beta iota.
  unfold on_response. rewrite Hok.
  destruct (status resp =? 404); [reflexivity|].
  destruct (status resp =? 422); reflexivity.
Qed.

(** No response at all: the [.then] callback is skipped. *)
Lemma respond_rejected p msg w :
  respond p (Rejected msg) w = on_error (TypeError msg) w.
Proof. reflexivity. Qed.

(** The chain before [.finally] never ends rejected: [.catch] handles
    every error. *)
Lemma respond_returns p r w : fst (respond p r w) = Ret tt.
Proof.
  destruct r as [resp|msg].
  - destruct (ok resp) eqn:Hok.
    + rewrite (respond_ok p resp w Hok).
      destruct (json_failure resp); [|reflexivity].
      rewrite on_error_run, showFormStatus_run. reflexivity.
    + rewrite (respond_not_ok p resp w Hok), on_error_run, showFormStatus_run.
      reflexivity.
  - rewrite respond_rejected, on_error_run, showFormStatus_run. reflexivity.
Qed.

(** The callback of [.finally], in full. *)
Lemma on_settled_run p k w :
  p_submitBtn p = Some k ->
  on_settled p w =
  (Ret tt,
   World (alter (set_textContent (p_originalText p)) k
                (alter (set_disabled false) k (w_dom w)))
         (w_timers w) (w_now w) (w_out w)).
Proof. intros H. unfold on_settled. rewrite bind_run, H. reflexivity. Qed.

(** The whole chain: [.finally] runs once, last, on the world the rest of
    the chain left. *)
Lemma settle_run p r w :
  settle p r w =
  match on_settled p (snd (respond p r w)) with
  | (Ret _, w') => (Ret tt, w')
  | (Throw e, w') => (Throw e, w')
  end.
Proof.
  unfold settle, finally_.
  pose proof (respond_returns p r w) as H.
  destruct (respond p r w) as [res w']. cbn [fst snd] in *. subst res.
  reflexivity.
Qed.


End Chain.

(** ** The request *)

Section SendRequest.

(** [send_request] in full: it needs the button, and then always issues
    the request. *)
Lemma send_request_run form k w btn fe :
  w_dom w !! k = Some btn ->
  w_dom w !! form = Some fe ->
  let d := alter (set_textContent (str "Sending...")) k
                 (alter (set_disabled true) k (w_dom w)) in
  send_request form (Some k) w =
  (Ret (Some (Pending form (Some k) (el_textContent btn))),
   World d (w_timers w) (w_now w)
         (w_out w ++ [Fetch (Request (el_action fe) (str "POST")
                                     (form_entries form d)
                                     [(str "Accept", str "application/json")])])).
Proof.
  intros Hk Hf d.
  assert (Hs : map static d = map static (w_dom w)).
  { subst d. rewrite !map_alter_same by reflexivity. reflexivity. }
  symmetry in Hs.
  destruct (map_lookup static _ _ _ _ Hs Hf) as (fe' & Hfe' & Hst).
  assert (Ha : el_action fe' = el_action fe)
    by (unfold static in Hst; congruence).
  unfold send_request. rewrite bind_run. unfold deref at 1. rewrite Hk.
  cbv beta iota zeta.
  rewrite bind_run. unfold update at 1. cbv beta iota.
  rewrite bind_run. unfold update at 1. cbv beta iota.
  rewrite bind_run. unfold dom at 1. cbv beta iota. cbn [w_dom].
  rewrite bind_run. unfold deref at 1. cbn [w_dom].
  fold d. rewrite Hfe', Ha. reflexivity.
Qed.

End SendRequest.

(** ** What the handlers leave alone *)

Section Controls.

Lemma controls_proj l l' :
  map controls l = map controls l' ->
  map static l = map static l' /\
  map el_value l = map el_value l' /\
  map el_disabled l = map el_disabled l'.
Proof.
  intros E.
  assert (H : forall {B} (h : _ -> B),
             map (fun e => h (controls e)) l = map (fun e => h (controls e)) l').
  { intros B h. rewrite <- !(map_map controls h), E. reflexivity. }
  split; [|split].
  - exact (H _ (fun c => fst (fst (fst (fst c))))).
  - exact (H _ (fun c => snd (fst (fst (fst c))))).
  - exact (H _ (fun c => snd (fst (fst c)))).
Qed.

Lemma controls_choices l l' :
  map controls l = map controls l' -> map choices l = map choices l'.
Proof.
  intros E.
  rewrite <- !(map_map controls (fun c => snd c)), E. reflexivity.
Qed.

Lemma not_error_id (a : jsstring) : a ++ str "-error" <> str "submit-btn".
Proof.
  intros E. apply (f_equal (@rev N)) in E. rewrite rev_app_distr in E.
  cbn in E. discriminate.
Qed.

(** [validateField] keeps the controls as they are. *)
Lemma validateField_controls target w :
  map controls (w_dom (snd (validateField target w))) = map controls (w_dom w).
Proof.
  destruct (validateField_ways target w)
    as [(i & el & -> & Hi & Hv)|[E|E]]; try (rewrite E; reflexivity).
  rewrite (validateField_run w i el Hi Hv). cbn [snd w_dom].
  destruct (find_id (el_id el ++ str "-error") (w_dom w)) as [j|] eqn:Hj.
  - rewrite map_alter_at.
    + apply map_alter_same. reflexivity.
    + intros x Hx.
      destruct (find_id_lookup _ _ _ Hj) as (ee & Hee & Hid).
      assert (Hxid : el_id x = el_id el ++ str "-error").
      { destruct (Nat.eq_dec i j) as [->|Hne].
        - rewrite (lookup_alter_at _ _ _ _ Hee) in Hx.
          inversion Hx; subst x. exact Hid.
        - rewrite lookup_alter_other in Hx by exact Hne. congruence. }
      assert (E : eqb (el_id x) (str "submit-btn") = false).
      { apply eqb_neq. rewrite Hxid. apply not_error_id. }
      unfold controls, static. fields. rewrite E. reflexivity.
  - apply map_alter_same. reflexivity.
Qed.

(** [showFormStatus] keeps the controls as they are. *)
Lemma showFormStatus_controls message type w :
  map controls (w_dom (snd (showFormStatus message type w)))
  = map controls (w_dom w).
Proof.
  rewrite showFormStatus_run. cbn [snd].
  destruct (find_id (str "form-status") (w_dom w)) as [s|] eqn:Hs;
    [|reflexivity].
  cbn [w_dom]. rewrite map_alter_same by reflexivity.
  apply map_alter_at. intros x Hx.
  destruct (find_id_lookup _ _ _ Hs) as (ee & Hee & Hid).
  assert (x = ee) by congruence. subst x.
  unfold controls, static. fields. rewrite Hid. reflexivity.
Qed.

(** The submit button is read off the controls. *)
Lemma submit_button_controls w w' :
  map controls (w_dom w') = map controls (w_dom w) ->
  submit_button w' = submit_button w.
Proof.
  intros E. unfold submit_button.
  destruct (controls_proj _ _ E) as (Hs & _).
  rewrite (find_id_static _ _ _ Hs).
  destruct (find_id (str "submit-btn") (w_dom w)) as [k|] eqn:Hk;
    [|reflexivity].
  destruct (find_id_lookup _ _ _ Hk) as (e & He & Hid).
  symmetry in E. destruct (map_lookup controls _ _ _ _ E He) as (e' & He' & Hc).
  cbn [mbind option_bind]. rewrite He, He'. cbn [mbind option_bind].
  unfold controls, static in Hc.
  assert (Hid' : el_id e' = el_id e) by congruence.
  rewrite Hid', Hid, eqb_refl in Hc. congruence.
Qed.

End Controls.

(** ** The outcomes of the synchronous pass *)

Section Outcomes.

Lemma validateField_world target w :
  let w' := snd (validateField target w) in
  map controls (w_dom w') = map controls (w_dom w) /\
  w_timers w' = w_timers w /\ w_now w' = w_now w /\ w_out w' = w_out w.
Proof.
  cbv zeta. split; [apply validateField_controls|].
  destruct (validateField_frame target w) as (_ & _ & _ & Ht & Hn & Ho).
  auto.
Qed.

(** One pass of [handleFormSubmit] either issues no request and leaves
    the controls as they were, or it passed the safety check and the
    three validations, put the button in its loading state and issued
    one request; [d] is the page as the validations left it. *)
Lemma handleFormSubmit_cases form w :
  (exists res w',
     handleFormSubmit form w = (res, w') /\
     (forall p, res <> Ret (Some p)) /\
     map controls (w_dom w') = map controls (w_dom w) /\
     requests w' = requests w) \/
  (exists fe k btn d,
     w_dom w !! form = Some fe /\
     is_placeholder (el_action fe) = false /\
     validations w = all_valid /\
     find_id (str "submit-btn") (w_dom w) = Some k /\
     w_dom w !! k = Some btn /\
     map controls d = map controls (w_dom w) /\
     handleFormSubmit form w =
     (Ret (Some (Pending form (Some k) (el_textContent btn))),
      World (alter (set_textContent (str "Sending...")) k
                   (alter (set_disabled true) k d))
            (w_timers w) (w_now w)
            (w_out w ++ [PreventDefault] ++
             [Fetch (Request (el_action fe) (str "POST")
                       (form_entries form
                          (alter (set_textContent (str "Sending...")) k
                                 (alter (set_disabled true) k d)))
                       [(str "Accept", str "application/json")])]))).
Proof.
  destruct (w_dom w !! form) as [fe|] eqn:Hf.
  2:{ left. eexists _, _. split; [apply (handleFormSubmit_no_form _ _ Hf)|].
      split; [discriminate|]. split; [reflexivity|].
      rewrite requests_emit, app_nil_r. reflexivity. }
  destruct (is_placeholder (el_action fe)) eqn:Hp.
  { left. eexists _, _.
    split; [apply (handleFormSubmit_placeholder _ _ _ Hf Hp)|].
    split; [discriminate|]. split.
    - cbn [emit snd w_dom]. rewrite showFormStatus_controls. reflexivity.
    - rewrite requests_emit, app_nil_r, requests_showFormStatus.
      rewrite requests_emit, app_nil_r. reflexivity. }
  pose proof (handleFormSubmit_checked _ _ _ Hf Hp) as Hrun.
  cbv zeta in Hrun. unfold validations, all_valid.
  set (w0 := snd (emit PreventDefault w)) in *.
  set (r1 := validateField (find_id (str "name") (w_dom w)) w0) in *.
  set (r2 := validateField (find_id (str "email") (w_dom w)) (snd r1)) in *.
  set (r3 := validateField (find_id (str "message") (w_dom w)) (snd r2)) in *.
  destruct (validateField_world (find_id (str "name") (w_dom w)) w0)
    as (C1 & T1 & N1 & O1).
  destruct (validateField_world (find_id (str "email") (w_dom w)) (snd r1))
    as (C2 & T2 & N2 & O2).
  destruct (validateField_world (find_id (str "message") (w_dom w)) (snd r2))
    as (C3 & T3 & N3 & O3).
  fold r1 in C1, T1, N1, O1, C2, T2, N2, O2, C3, T3, N3, O3.
  fold r2 in C2, T2, N2, O2, C3, T3, N3, O3.
  fold r3 in C3, T3, N3, O3.
  change (w_dom w0) with (w_dom w) in C1.
  change (w_timers w0) with (w_timers w) in T1.
  change (w_now w0) with (w_now w) in N1.
  change (w_out w0) with (w_out w ++ [PreventDefault]) in O1.
  rewrite C1 in C2. rewrite C2 in C3.
  rewrite T1 in T2. rewrite T2 in T3.
  rewrite N1 in N2. rewrite N2 in N3.
  rewrite O1 in O2. rewrite O2 in O3.
  assert (Q : forall x, w_out x = w_out w ++ [PreventDefault] ->
                        requests x = requests w).
  { intros x Hx. unfold requests. rewrite Hx, omap_app, app_nil_r.
    reflexivity. }
  destruct (fst r1) as [b1|e1].
  2:{ left. eexists _, _. split; [exact Hrun|]. split; [discriminate|]. auto. }
  destruct (fst r2) as [b2|e2].
  2:{ left. eexists _, _. split; [exact Hrun|]. split; [discriminate|]. auto. }
  destruct (fst r3) as [b3|e3].
  2:{ left. eexists _, _. split; [exact Hrun|]. split; [discriminate|]. auto. }
  destruct (negb b1 || negb b2 || negb b3) eqn:Hb.
  { left. eexists _, _. split; [exact Hrun|]. split; [discriminate|]. split.
    - rewrite showFormStatus_controls. exact C3.
    - rewrite requests_showFormStatus. auto. }
  destruct b1, b2, b3; try discriminate.
  destruct (find_id (str "submit-btn") (w_dom w)) as [k|] eqn:Hk.
  2:{ left. eexists _, _. split; [exact Hrun|]. split; [discriminate|].
      cbn [send_request snd]. auto. }
  destruct (find_id_lookup _ _ _ Hk) as (btn & Hbtn & Hid).
  symmetry in C3.
  destruct (map_lookup controls _ _ _ _ C3 Hbtn) as (btn3 & Hbtn3 & Hc3).
  destruct (map_lookup controls _ _ _ _ C3 Hf) as (fe3 & Hfe3 & Hcf).
  assert (Htext : el_textContent btn3 = el_textContent btn).
  { unfold controls, static in Hc3.
    assert (Hid3 : el_id btn3 = el_id btn) by congruence.
    rewrite Hid3, Hid, eqb_refl in Hc3. congruence. }
  assert (Hact : el_action fe3 = el_action fe).
  { unfold controls, static in Hcf. congruence. }
  rewrite (send_request_run form k (snd r3) btn3 fe3 Hbtn3 Hfe3) in Hrun.
  cbv zeta in Hrun. rewrite Htext, Hact, T3, N3, O3 in Hrun.
  right. exists fe, k, btn, (w_dom (snd r3)).
  repeat (split; [solve [auto]|]).
  rewrite <- app_assoc in Hrun. exact Hrun.
Qed.


End Outcomes.

Section FormData.

Lemma form_entries_cons form x l :
  form_entries form (x :: l) =
  (if submits form x then entries_of x else []) ++ form_entries form l.
Proof.
  unfold form_entries. cbn [List.filter].
  destruct (submits form x); reflexivity.
Qed.

(** What a control contributes depends on its static part, its value, its
    [disabled] flag and its choices. *)
Lemma entries_ext form x y :
  static x = static y -> el_value x = el_value y ->
  el_disabled x = el_disabled y -> choices x = choices y ->
  submits form x = submits form y /\ entries_of x = entries_of y.
Proof.
  unfold static, choices, submits, entries_of.
  intros [= S1 S2 S3 S4 S5 S6 S7 S8] V D [= C1 C2 C3].
  rewrite S1, S3, S4, S7, V, D, C1, C2, C3. split; reflexivity.
Qed.

Lemma cons_eq {B} (a b : B) l l' : a :: l = b :: l' -> a = b /\ l = l'.
Proof. intros H. inversion H. auto. Qed.

Lemma form_entries_ext form l l' :
  map static l = map static l' ->
  map el_value l = map el_value l' ->
  map el_disabled l = map el_disabled l' ->
  map choices l = map choices l' ->
  form_entries form l = form_entries form l'.
Proof.
  revert l'; induction l as [|x l IH]; intros [|y l'] Hs Hv Hd Hc;
    try discriminate; [reflexivity|].
  cbn [map] in Hs, Hv, Hd, Hc.
  apply cons_eq in Hs as [S1 S2]. apply cons_eq in Hv as [V1 V2].
  apply cons_eq in Hd as [D1 D2]. apply cons_eq in Hc as [C1 C2].
  rewrite !form_entries_cons, (IH l' S2 V2 D2 C2).
  destruct (entries_ext form x y S1 V1 D1 C1) as [-> ->]. reflexivity.
Qed.

Lemma map_alter_congr {B} (g : element -> B) f i l l' :
  map g l = map g l' ->
  (forall x y, g x = g y -> g (f x) = g (f y)) ->
  map g (alter f i l) = map g (alter f i l').
Proof.
  intros E Hf. revert i l' E; induction l as [|x l IH]; intros i [|y l'] E;
    try discriminate; [reflexivity|].
  inversion E as [[E1 E2]]. destruct i as [|i]; simpl.
  - rewrite (Hf _ _ E1), E2. reflexivity.
  - rewrite E1. f_equal. apply IH, E2.
Qed.

Lemma In_alter (f : element -> element) i l x :
  In x (alter f i l) -> exists y, In y l /\ (x = y \/ x = f y).
Proof.
  revert i; induction l as [|a l IH]; intros [|i]; simpl; try tauto.
  - intros [<-|H]; eauto.
  - intros [<-|H]; [eauto|].
    destruct (IH _ H) as (y & Hy & E). eauto.
Qed.

(** White space is no surrogate. *)
Lemma space_not_surrogate c : is_space c = true -> is_surrogate c = false.
Proof.
  unfold is_space, is_surrogate, is_lead, is_trail. intros H.
  repeat rewrite orb_true_iff in H. rewrite andb_true_iff in H.
  rewrite !N.eqb_eq, !N.leb_le in H.
  apply orb_false_iff. split; apply andb_false_iff; rewrite !N.leb_gt; lia.
Qed.

Lemma to_scalar_plain c s :
  is_surrogate c = false -> to_scalar (c :: s) = c :: to_scalar s.
Proof.
  unfold is_surrogate. intros H. apply orb_false_iff in H as [H1 H2].
  cbn [to_scalar]. rewrite H1, H2. reflexivity.
Qed.

(** Checking a string for surrogates. *)
Lemma no_surrogate_check s :
  existsb is_surrogate s = false ->
  Forall (fun c => is_surrogate c = false) s.
Proof.
  induction s as [|c s IH]; [constructor|].
  cbn [existsb]. intros H. apply orb_false_iff in H as [H1 H2].
  constructor; [exact H1 | apply IH, H2].
Qed.

(** A string without surrogates is a scalar value string already. *)
Lemma to_scalar_id s :
  Forall (fun c => is_surrogate c = false) s -> to_scalar s = s.
Proof.
  induction 1 as [|c s Hc _ IH]; [reflexivity|].
  rewrite (to_scalar_plain c s Hc), IH. reflexivity.
Qed.

Lemma to_scalar_app_plain a s :
  Forall (fun c => is_surrogate c = false) a ->
  to_scalar (a ++ s) = a ++ to_scalar s.
Proof.
  induction 1 as [|c a Hc _ IH]; [reflexivity|].
  cbn [app]. rewrite (to_scalar_plain c _ Hc), IH. reflexivity.
Qed.

Lemma to_scalar_pair c d s :
  is_lead c = true -> is_trail d = true ->
  to_scalar (c :: d :: s) = c :: d :: to_scalar s.
Proof. intros L T. cbn [to_scalar]. rewrite L, T. reflexivity. Qed.

Lemma to_scalar_lone c s :
  is_lead c = true ->
  match s with d :: _ => is_trail d = false | [] => True end ->
  to_scalar (c :: s) = 0xFFFD :: to_scalar s.
Proof.
  intros L T. destruct s as [|d s]; cbn [to_scalar]; rewrite L;
    [reflexivity|].
  rewrite T. reflexivity.
Qed.

Lemma to_scalar_other c s :
  is_lead c = false ->
  to_scalar (c :: s) = (if is_trail c then 0xFFFD else c) :: to_scalar s.
Proof. intros L. cbn [to_scalar]. rewrite L. destruct (is_trail c); reflexivity. Qed.

Lemma to_scalar_snoc_plain n : forall s b,
  (length s <= n)%nat ->
  Forall (fun c => is_surrogate c = false) b ->
  to_scalar (s ++ b) = to_scalar s ++ b.
Proof.
  induction n as [|n IH]; intros s b Hn Hb.
  { destruct s; [|simpl in Hn; lia]. apply to_scalar_id, Hb. }
  destruct s as [|c s]; [apply to_scalar_id, Hb|].
  cbn [length] in Hn.
  destruct (is_lead c) eqn:L.
  - destruct s as [|d s].
    + change ([c] ++ b) with (c :: b).
      rewrite (to_scalar_lone c b L), (to_scalar_lone c [] L I).
      * rewrite (to_scalar_id b Hb). reflexivity.
      * destruct b as [|d b]; [exact I|].
        inversion Hb as [|? ? Hd _]; subst.
        unfold is_surrogate in Hd. apply orb_false_iff in Hd. tauto.
    + cbn [length] in Hn. destruct (is_trail d) eqn:T.
      * change ((c :: d :: s) ++ b) with (c :: d :: (s ++ b)).
        rewrite !(to_scalar_pair c d _ L T), (IH s b) by (lia || exact Hb).
        reflexivity.
      * change ((c :: d :: s) ++ b) with (c :: ((d :: s) ++ b)).
        rewrite (to_scalar_lone c (d :: s) L T).
        rewrite (to_scalar_lone c ((d :: s) ++ b) L T).
        rewrite (IH (d :: s) b) by (simpl; lia || exact Hb). reflexivity.
  - change ((c :: s) ++ b) with (c :: (s ++ b)).
    rewrite !(to_scalar_other c _ L), (IH s b) by (lia || exact Hb).
    reflexivity.
Qed.

(** The conversion leaves white space at both ends as it is. *)
Lemma to_scalar_padding a s b :
  Forall (fun c => is_space c = true) a ->
  Forall (fun c => is_space c = true) b ->
  to_scalar (a ++ s ++ b) = a ++ to_scalar s ++ b.
Proof.
  intros Ha Hb.
  assert (Ha' : Forall (fun c => is_surrogate c = false) a)
    by (eapply List.Forall_impl; [|exact Ha]; apply space_not_surrogate).
  assert (Hb' : Forall (fun c => is_surrogate c = false) b)
    by (eapply List.Forall_impl; [|exact Hb]; apply space_not_surrogate).
  rewrite (to_scalar_app_plain a _ Ha').
  rewrite (to_scalar_snoc_plain (length s) s b (le_n _) Hb').
  reflexivity.
Qed.

End FormData.

(** C9: the body of the request is the entry list of [new FormData(form)],
    built from the page after the button was disabled.  Every control
    that takes part contributes its entries; a text control or a
    [textarea] contributes its name and its current [value] as it stands,
    not the trimmed string [validateField] decided on: the only change
    [FormData] makes is to replace surrogates that are not paired, and
    that leaves white space at both ends of the value intact.  Every
    entry of the body is an entry of a control of the form. *)
Theorem request_body_raw (form : nat) (w : world) (p : pending) (w1 : world) :
  handleFormSubmit form w = (Ret (Some p), w1) ->
  exists k req,
    find_id (str "submit-btn") (w_dom w) = Some k /\
    requests w1 = requests w ++ [req] /\
    req_body req = form_entries form (alter (set_disabled true) k (w_dom w)) /\
    (forall i el,
        w_dom w !! i = Some el -> i <> k -> submits form el = true ->
        incl (entries_of el) (req_body req) /\
        (el_tag el = INPUT Text \/ el_tag el = TEXTAREA ->
         In (to_scalar (el_name el), Str (to_scalar (el_value el)))
            (req_body req) /\
         (Forall (fun c => is_surrogate c = false) (el_name el ++ el_value el) ->
          In (el_name el, Str (el_value el)) (req_body req)))) /\
    (forall a v b,
        Forall (fun c => is_space c = true) a ->
        Forall (fun c => is_space c = true) b ->
        to_scalar (a ++ v ++ b) = a ++ to_scalar v ++ b) /\
    (forall e,
        In e (req_body req) ->
        exists el, In el (w_dom w) /\ el_form el = Some form /\
                   In e (entries_of el)).
Proof.
  intros Hrun.
  destruct (handleFormSubmit_cases form w)
    as [(res & w' & Hr & Hno & _)|(fe & k & btn & d & Hf & Hp & Hv & Hk & Hb & Hc & Hr)];
    rewrite Hr in Hrun.
  { apply pair_equal_spec in Hrun as [Hres _]. destruct (Hno p Hres). }
  apply pair_equal_spec in Hrun as [_ <-].
  assert (Hbody :
    form_entries form (alter (set_textContent (str "Sending...")) k
                             (alter (set_disabled true) k d))
    = form_entries form (alter (set_disabled true) k (w_dom w))).
  { destruct (controls_proj _ _ Hc) as (Hs & Hval & Hd).
    apply form_entries_ext.
    - rewrite !map_alter_same by reflexivity. exact Hs.
    - rewrite !map_alter_same by reflexivity. exact Hval.
    - rewrite (map_alter_same el_disabled (set_textContent _)) by reflexivity.
      apply map_alter_congr; [exact Hd | reflexivity].
    - rewrite !map_alter_same by reflexivity.
      apply controls_choices, Hc. }
  eexists k, _. split; [exact Hk|]. split.
  { unfold requests. cbn [w_out]. rewrite omap_app. reflexivity. }
  cbn [req_body]. split; [exact Hbody|]. rewrite Hbody.
  assert (Hincl : forall i el,
             w_dom w !! i = Some el -> i <> k -> submits form el = true ->
             incl (entries_of el)
                  (form_entries form (alter (set_disabled true) k (w_dom w)))).
  { intros i el Hi Hne Hsub e He. unfold form_entries.
    apply in_flat_map. exists el. split; [|exact He].
    apply filter_In. split; [|exact Hsub].
    apply list_elem_of_In, (list_elem_of_lookup_2 _ i).
    rewrite lookup_alter_other by congruence. exact Hi. }
  split; [|split].
  - intros i el Hi Hne Hsub. split; [apply (Hincl i el Hi Hne Hsub)|].
    intros Htag.
    assert (Hin : In (to_scalar (el_name el), Str (to_scalar (el_value el)))
                     (form_entries form
                        (alter (set_disabled true) k (w_dom w)))).
    { apply (Hincl i el Hi Hne Hsub). unfold entries_of.
      destruct Htag as [-> | ->]; left; reflexivity. }
    split; [exact Hin|]. intros Hplain.
    apply Forall_app in Hplain as [Hn Hval].
    rewrite (to_scalar_id _ Hn), (to_scalar_id _ Hval) in Hin. exact Hin.
  - apply to_scalar_padding.
  - intros e Hin. unfold form_entries in Hin.
    apply in_flat_map in Hin as (x & Hx & He).
    apply filter_In in Hx as [Hx Hsub].
    assert (Hown : el_form x = Some form).
    { unfold submits in Hsub. destruct (el_form x) as [f|]; [|discriminate].
      repeat (apply andb_true_iff in Hsub as [Hsub _]).
      apply Nat.eqb_eq in Hsub. congruence. }
    apply In_alter in Hx as (y & Hy & [->| ->]); exists y;
      (split; [exact Hy|]); split; assumption.
Qed.

(** The sample page with white space around the e-mail address: the raw
    value fails the pattern, its trimmed form passes, and the raw value is
    what the request carries. *)
Lemma request_body_raw_witness :
  let raw := str "  jane@example.com " in
  let w := Sample.start
             (Sample.page Sample.endpoint (str "Jane Doe") raw
                          (str "This is a long enough message.") false) in
  test emailRegex raw = false /\
  test emailRegex (trim raw) = true /\
  exists req,
    requests (snd (handleFormSubmit 0 w)) = [req] /\
    In (str "email", Str raw) (req_body req).
Proof.
  intros raw w. split; [reflexivity|]. split; [reflexivity|].
  assert (Hrun : handleFormSubmit 0 w =
                 (Ret (Some (Pending 0 (Some 7%nat) (str "Send Message"))),
                  snd (handleFormSubmit 0 w))).
  { rewrite (surjective_pairing (handleFormSubmit 0 w)) at 1.
    f_equal. }
  destruct (request_body_raw 0 w _ _ Hrun)
    as (k & req & Hk & Hreq & _ & Hin & _).
  exists req. split; [exact Hreq|].
  inversion Hk; subst k.
  destruct (Hin 3%nat (Sample.control (INPUT Text) (str "email") raw))
    as (_ & Htext); [reflexivity | discriminate | reflexivity |].
  destruct (Htext (or_introl eq_refl)) as (_ & Hraw).
  apply Hraw. apply no_surrogate_check. reflexivity.
Defined.

(** ** The world after the chain *)

Section Settled.

(** The reset algorithm of a control writes its value and its choices. *)
Lemma reset_element_keeps form later el :
  let el' := reset_element form later el in
  static el' = static el /\ el_disabled el' = el_disabled el /\
  el_textContent el' = el_textContent el /\
  el_classList el' = el_classList el.
Proof.
  cbv zeta. unfold reset_element.
  destruct (is_field_of form el); [|auto].
  destruct (el_tag el) as [|[]| | | |]; auto.
Qed.


Lemma reset_static form l : map static (reset_fields form l) = map static l.
Proof.
  induction l as [|el l IH]; [reflexivity|].
  cbn [reset_fields map]. rewrite IH.
  destruct (reset_element_keeps form l el) as (-> & _). reflexivity.
Qed.

Lemma reset_lookup form (l : list element) i :
  reset_fields form l !! i = reset_element form (drop (S i) l) <$> l !! i.
Proof.
  revert i; induction l as [|el l IH]; intros [|i]; try reflexivity.
  cbn [reset_fields]. apply (IH i).
Qed.






(** The [.catch] callback shows exactly one message, tagged [error]. *)
Lemma on_error_region e w s :
  find_id (str "form-status") (w_dom w) = Some s ->
  status_region (snd (on_error e w)) =
  Some (if eqb (exn_message e) (str "FORMSPREE_NOT_FOUND") then Msg.not_found
        else if eqb (exn_message e) (str "FORMSPREE_VALIDATION_ERROR")
             then Msg.rejected
        else if includes (exn_message e) (str "Failed to fetch")
             then Msg.network
        else Msg.failed,
        [str "form-status"; str "show"; str "error"]).
Proof.
  intros Hs. rewrite on_error_run.
  rewrite (showFormStatus_region _ _ _ s) by exact Hs.
  rewrite error_tokens. reflexivity.
Qed.

Lemma on_error_frame e w :
  let w' := snd (on_error e w) in
  map static (w_dom w') = map static (w_dom w) /\
  values w' = values w /\
  w_out w' = w_out w ++ [ConsoleError [str "Form submission error:";
                                        exn_message e]].
Proof.
  cbv zeta. rewrite on_error_run.
  match goal with
  | |- context [showFormStatus ?m ?t ?x] =>
      destruct (showFormStatus_frame m t x) as (Hs & Hv & _ & _ & Ho)
  end.
  cbv zeta in Hs, Hv, Ho. unfold values. rewrite Hs, Hv, Ho.
  repeat split; reflexivity.
Qed.


End Settled.

Section SettledWorld.

(** The chain in full, for the captured button [k]. *)
Lemma settle_world p k r w :
  p_submitBtn p = Some k ->
  let w' := snd (respond p r w) in
  settle p r w =
  (Ret tt,
   World (alter (set_textContent (p_originalText p)) k
                (alter (set_disabled false) k (w_dom w')))
         (w_timers w') (w_now w') (w_out w')).
Proof.
  intros Hk. cbv zeta. rewrite settle_run, (on_settled_run p k _ Hk).
  reflexivity.
Qed.

(** Writing the button leaves the status region alone. *)
Lemma status_region_button k f g w w' :
  w_dom w' = alter f k (alter g k (w_dom w)) ->
  (forall x, static (f x) = static x) ->
  (forall x, static (g x) = static x) ->
  find_id (str "form-status") (w_dom w) <> Some k ->
  status_region w' = status_region w.
Proof.
  intros Hd Hf Hg Hne. unfold status_region. rewrite Hd.
  rewrite (find_id_static _ (alter f k (alter g k (w_dom w))) (w_dom w))
    by (rewrite !map_alter_same by assumption; reflexivity).
  destruct (find_id (str "form-status") (w_dom w)) as [s|]; [|reflexivity].
  cbn [mbind option_bind].
  rewrite !lookup_alter_other by congruence. reflexivity.
Qed.

Lemma respond_static p r w :
  map static (w_dom (snd (respond p r w))) = map static (w_dom w).
Proof.
  destruct r as [resp|msg].
  - destruct (ok resp) eqn:Hok.
    + rewrite (respond_ok p resp w Hok).
      destruct (showFormStatus_frame Msg.sent (str "success") w) as (Hs & _).
      cbv zeta in Hs.
      destruct (json_failure resp); cbn [snd].
      * destruct (on_error_frame (SyntaxError l)
                    (snd (emit (ConsoleLog
                      [Msg.check_mark ++
                       str " Form submitted successfully to Formspree at"]
                      (w_now (snd (reset (p_form p)
                         (snd (showFormStatus Msg.sent (str "success") w))))))
                      (snd (reset (p_form p)
                         (snd (showFormStatus Msg.sent (str "success") w)))))))
          as (H & _).
        cbv zeta in H. rewrite H. cbn [emit reset snd w_dom].
        rewrite reset_static. exact Hs.
      * cbn [emit reset snd w_dom]. rewrite reset_static. exact Hs.
    + rewrite (respond_not_ok p resp w Hok). apply on_error_frame.
  - rewrite respond_rejected. apply on_error_frame.
Qed.

End SettledWorld.

Section Sent.

(** When a request went out: what was captured and the loading state. *)
Lemma handleFormSubmit_sent form w p w1 :
  handleFormSubmit form w = (Ret (Some p), w1) ->
  exists k btn,
    find_id (str "submit-btn") (w_dom w) = Some k /\
    w_dom w !! k = Some btn /\
    p = Pending form (Some k) (el_textContent btn) /\
    map static (w_dom w1) = map static (w_dom w) /\
    values w1 = values w /\
    submit_button w1 = Some (true, str "Sending...") /\
    validations w = all_valid.
Proof.
  intros Hrun.
  destruct (handleFormSubmit_cases form w)
    as [(res & w' & Hr & Hno & _)
       |(fe & k & btn & d & Hf & Hp & Hv & Hk & Hb & Hc & Hr)];
    rewrite Hr in Hrun.
  { apply pair_equal_spec in Hrun as [Hres _]. destruct (Hno p Hres). }
  apply pair_equal_spec in Hrun as [Hp' <-].
  destruct (controls_proj _ _ Hc) as (Hs & Hval & _).
  exists k, btn. split; [exact Hk|]. split; [exact Hb|].
  split; [congruence|]. cbn [w_dom]. split.
  { rewrite !map_alter_same by reflexivity. exact Hs. }
  split.
  { unfold values. cbn [w_dom]. rewrite !map_alter_same by reflexivity.
    exact Hval. }
  split; [|exact Hv].
  unfold submit_button. cbn [w_dom].
  rewrite (find_id_static _ _ (w_dom w))
    by (rewrite !map_alter_same by reflexivity; exact Hs).
  rewrite Hk. cbn [mbind option_bind].
  symmetry in Hc. destruct (map_lookup controls _ _ _ _ Hc Hb) as (b3 & Hb3 & _).
  erewrite lookup_alter_at by (apply lookup_alter_at; exact Hb3).
  reflexivity.
Qed.

(** The [.finally] callback writes the captured button only: status
    region, values and effects are as the rest of the chain left them. *)
Lemma settle_after_send form w p w1 s :
  handleFormSubmit form w = (Ret (Some p), w1) ->
  find_id (str "form-status") (w_dom w) = Some s ->
  find_id (str "form-status") (w_dom w1) = Some s /\
  forall r,
    let w2 := snd (respond p r w1) in
    let w3 := snd (settle p r w1) in
    status_region w3 = status_region w2 /\
    w_out w3 = w_out w2 /\
    values w3 = values w2.
Proof.
  intros Hrun Hs.
  destruct (handleFormSubmit_sent _ _ _ _ Hrun)
    as (k & btn & Hk & Hb & -> & Hst & _).
  assert (Hs1 : find_id (str "form-status") (w_dom w1) = Some s)
    by (rewrite (find_id_static _ _ _ Hst); exact Hs).
  split; [exact Hs1|]. intros r. cbv zeta.
  set (p := Pending form (Some k) (el_textContent btn)) in *.
  rewrite (settle_world p k r w1 eq_refl). cbn [snd w_out].
  split; [|split; [reflexivity|]].
  - apply (status_region_button k (set_textContent (p_originalText p))
             (set_disabled false)); [reflexivity..|].
    rewrite (find_id_static _ _ (w_dom w))
      by (rewrite respond_static; exact Hst).
    rewrite Hs. intros [= ->]. revert Hs Hk. clear. intros Hs Hk.
    apply (find_id_distinct _ _ _ _ _ Hs Hk); [discriminate | reflexivity].
  - unfold values. cbn [w_dom]. rewrite !map_alter_same by reflexivity.
    reflexivity.
Qed.

End Sent.




(** C7 as stated fails: a transport failure whose error reads
    [Failed to fetch] ends with the network message, which names no
    contact channel. *)
Lemma network_message_without_fallback :
  fst <$> status_region
            (attempt 0 (Rejected (str "Failed to fetch")) Sample.filled)
  = Some Msg.network /\
  suggests_fallback Msg.network = false.
Proof. split; vm_compute; reflexivity. Qed.

(** C7, as the code has it: after a transport failure the status message
    names the fallback e-mail address exactly when the text of the error
    does not contain [Failed to fetch]; when it does, the page shows the
    network message, without a contact channel. *)
Theorem fallback_unless_failed_to_fetch
    (form : nat) (w : world) (p : pending) (w1 : world) (s : nat)
    (msg : jsstring) :
  handleFormSubmit form w = (Ret (Some p), w1) ->
  find_id (str "form-status") (w_dom w) = Some s ->
  msg <> str "FORMSPREE_NOT_FOUND" ->
  msg <> str "FORMSPREE_VALIDATION_ERROR" ->
  exists shown,
    status_region (snd (settle p (Rejected msg) w1)) =
      Some (shown, [str "form-status"; str "show"; str "error"]) /\
    shown = (if includes msg (str "Failed to fetch") then Msg.network
             else Msg.failed) /\
    suggests_fallback shown = negb (includes msg (str "Failed to fetch")).
Proof.
  intros Hrun Hs N1 N2.
  destruct (settle_after_send _ _ _ _ s Hrun Hs) as (Hs1 & Hsettle).
  destruct (Hsettle (Rejected msg)) as (-> & _). clear Hsettle.
  rewrite respond_rejected, (on_error_region _ _ s Hs1).
  cbn [exn_message TypeError].
  apply eqb_neq in N1, N2. rewrite N1, N2.
  eexists. split; [reflexivity|]. split; [reflexivity|].
  destruct (includes msg (str "Failed to fetch")); reflexivity.
Qed.

(** The filled sample page and a transport failure reading [Load failed]:
    the generic failure message, with the e-mail address. *)
Lemma fallback_unless_failed_to_fetch_witness :
  exists shown,
    status_region
      (snd (settle (Pending 0 (Some 7%nat) (str "Send Message"))
                   (Rejected (str "Load failed"))
                   (snd (handleFormSubmit 0 Sample.filled)))) =
      Some (shown, [str "form-status"; str "show"; str "error"]) /\
    suggests_fallback shown = true.
Proof.
  assert (Hrun : handleFormSubmit 0 Sample.filled =
                 (Ret (Some (Pending 0 (Some 7%nat) (str "Send Message"))),
                  snd (handleFormSubmit 0 Sample.filled))).
  { rewrite (surjective_pairing (handleFormSubmit 0 Sample.filled)) at 1.
    f_equal. }
  destruct (fallback_unless_failed_to_fetch 0 Sample.filled _ _ 8
              (str "Load failed") Hrun eq_refl)
    as (shown & Hst & _ & Hfb); [discriminate | discriminate |].
  exists shown. split; [exact Hst | exact Hfb].
Defined.

Section Values.



End Values.



Section Button.

Lemma submit_button_dom w w' :
  w_dom w' = w_dom w -> submit_button w' = submit_button w.
Proof. unfold submit_button. intros ->. reflexivity. Qed.

Lemma submit_button_reset form w :
  submit_button (snd (reset form w)) = submit_button w.
Proof.
  unfold submit_button. cbn [reset snd w_dom].
  rewrite (find_id_static _ _ _ (reset_static form (w_dom w))).
  destruct (find_id (str "submit-btn") (w_dom w)) as [k|]; [|reflexivity].
  cbn [mbind option_bind]. rewrite reset_lookup.
  destruct (w_dom w !! k) as [el|]; [|reflexivity].
  cbn [fmap option_fmap option_map mbind option_bind].
  destruct (reset_element_keeps form (drop (S k) (w_dom w)) el)
    as (_ & -> & -> & _).
  reflexivity.
Qed.

Lemma submit_button_showFormStatus message type w :
  submit_button (snd (showFormStatus message type w)) = submit_button w.
Proof. apply submit_button_controls, showFormStatus_controls. Qed.

Lemma submit_button_on_error e w :
  submit_button (snd (on_error e w)) = submit_button w.
Proof.
  rewrite on_error_run, submit_button_showFormStatus.
  apply submit_button_dom. reflexivity.
Qed.

(** No callback of the chain before [.finally] writes the button. *)
Lemma respond_button p r w :
  submit_button (snd (respond p r w)) = submit_button w.
Proof.
  destruct r as [resp|msg].
  - destruct (ok resp) eqn:Hok.
    + rewrite (respond_ok p resp w Hok).
      assert (H : submit_button
                    (snd (emit (ConsoleLog
                      [Msg.check_mark ++
                       str " Form submitted successfully to Formspree at"]
                      (w_now (snd (reset (p_form p)
                         (snd (showFormStatus Msg.sent (str "success") w))))))
                      (snd (reset (p_form p)
                         (snd (showFormStatus Msg.sent (str "success") w))))))
                  = submit_button w).
      { rewrite (submit_button_dom
                   (snd (reset (p_form p)
                      (snd (showFormStatus Msg.sent (str "success") w)))))
          by reflexivity.
        rewrite submit_button_reset. apply submit_button_showFormStatus. }
      destruct (json_failure resp); cbn [snd]; [|exact H].
      rewrite submit_button_on_error. exact H.
    + rewrite (respond_not_ok p resp w Hok). apply submit_button_on_error.
  - rewrite respond_rejected. apply submit_button_on_error.
Qed.

(** [.finally] re-enables the button and puts the captured text back. *)
Lemma settle_button p k r w :
  p_submitBtn p = Some k ->
  find_id (str "submit-btn") (w_dom w) = Some k ->
  submit_button (snd (settle p r w)) = Some (false, p_originalText p).
Proof.
  intros Hp Hk. rewrite (settle_world p k r w Hp). cbn [snd].
  pose proof (respond_static p r w) as Hs.
  unfold submit_button. cbn [w_dom].
  rewrite (find_id_static _ _ (w_dom w))
    by (rewrite !map_alter_same by reflexivity; exact Hs).
  rewrite Hk. cbn [mbind option_bind].
  destruct (find_id_lookup _ _ _ Hk) as (b & Hb & _).
  symmetry in Hs. destruct (map_lookup static _ _ _ _ Hs Hb) as (b2 & Hb2 & _).
  erewrite lookup_alter_at by (apply lookup_alter_at; exact Hb2).
  reflexivity.
Qed.

End Button.

(** C6 as stated fails twice over.  An attempt stopped by the safety
    check (or by validation) never sets up the chain, so no restoring
    step runs on that exit; and the restoring step writes
    [disabled = false], not the value the flag had before: a button that
    was disabled when the handler ran is enabled afterwards. *)
Lemma button_not_restored_on_every_exit :
  fst (handleFormSubmit 0
         (Sample.start
            (Sample.page Sample.template (str "Jane Doe")
               (str "jane@example.com")
               (str "This is a long enough message.") false))) = Ret None /\
  let w := Sample.start
             (Sample.page Sample.endpoint (str "Jane Doe")
                (str "jane@example.com")
                (str "This is a long enough message.") true) in
  submit_button w = Some (true, str "Send Message") /\
  submit_button (attempt 0 (Responded (Response 200 None)) w)
  = Some (false, str "Send Message") /\
  submit_button (attempt 0 (Responded (Response 200 None)) w)
  <> submit_button w.
Proof.
  split; [reflexivity|]. cbv zeta.
  split; [reflexivity|]. split; [reflexivity|]. vm_compute. discriminate.
Qed.

(** C6, as the code has it: a pass that issues a request puts the button
    in its loading state ([disabled], text [Sending...]); the button
    stays so through the callbacks of [.then] and [.catch]; and
    [.finally], which runs once, last, whatever the result of the
    request, enables the button and gives it back the text it had before
    the pass.  A pass that issues no request (placeholder endpoint,
    failed validation, a thrown error) never touches the button. *)
Theorem button_restored_after_request
    (form : nat) (w : world) (res : outcome (option pending)) (w1 : world) :
  handleFormSubmit form w = (res, w1) ->
  match res with
  | Ret (Some p) =>
      exists disabled text,
        submit_button w = Some (disabled, text) /\
        submit_button w1 = Some (true, str "Sending...") /\
        forall r,
          settle p r w1 = on_settled p (snd (respond p r w1)) /\
          submit_button (snd (respond p r w1)) = Some (true, str "Sending...") /\
          submit_button (snd (settle p r w1)) = Some (false, text)
  | _ => submit_button w1 = submit_button w
  end.
Proof.
  intros Hrun.
  assert (Hearly : (forall p, res <> Ret (Some p)) ->
                   submit_button w1 = submit_button w).
  { intros Hno.
    destruct (handleFormSubmit_cases form w)
      as [(res' & w' & Hr & _ & Hc & _)
         |(fe & k & btn & d & _ & _ & _ & _ & _ & _ & Hr)];
      rewrite Hr in Hrun; apply pair_equal_spec in Hrun as [<- <-].
    - apply submit_button_controls, Hc.
    - destruct (Hno _ eq_refl). }
  destruct res as [[p|]|e]; [|apply Hearly; discriminate..].
  clear Hearly.
  destruct (handleFormSubmit_sent _ _ _ _ Hrun)
    as (k & btn & Hk & Hb & -> & Hst & _ & Hload & _).
  exists (el_disabled btn), (el_textContent btn).
  split.
  { unfold submit_button. rewrite Hk. cbn [mbind option_bind].
    rewrite Hb. reflexivity. }
  split; [exact Hload|]. intros r.
  set (p := Pending form (Some k) (el_textContent btn)) in *.
  split; [|split].
  - rewrite settle_run, (on_settled_run p k _ eq_refl). reflexivity.
  - rewrite respond_button. exact Hload.
  - apply (settle_button p k r w1 eq_refl).
    rewrite (find_id_static _ _ _ Hst). exact Hk.
Qed.

(** The filled sample page, a request and a response with status 500. *)
Lemma button_restored_after_request_witness :
  submit_button
    (snd (settle (Pending 0 (Some 7%nat) (str "Send Message"))
                 (Responded (Response 500 None))
                 (snd (handleFormSubmit 0 Sample.filled))))
  = Some (false, str "Send Message").
Proof.
  destruct (button_restored_after_request 0 Sample.filled
              (Ret (Some (Pending 0 (Some 7%nat) (str "Send Message"))))
              (snd (handleFormSubmit 0 Sample.filled)))
    as (dis & text & Hb & _ & Hr).
  { rewrite (surjective_pairing (handleFormSubmit 0 Sample.filled)) at 1.
    f_equal. }
  destruct (Hr (Responded (Response 500 None))) as (_ & _ & Hfin).
  rewrite Hfin. inversion Hb. reflexivity.
Defined.

(** ** The status message over time *)

Section Timers.

Lemma showFormStatus_success_timer message w s :
  find_id (str "form-status") (w_dom w) = Some s ->
  w_timers (snd (showFormStatus message (str "success") w)) =
  w_timers w ++ [Timer (w_now w + 4000) (HideStatus s)].
Proof. intros Hs. rewrite showFormStatus_run, Hs. reflexivity. Qed.

(** With no timer pending, time passes and nothing happens. *)
Lemma advance_idle dt w :
  w_timers w = [] ->
  advance dt w = World (w_dom w) [] (w_now w + dt) (w_out w).
Proof. intros H. unfold advance. rewrite H. reflexivity. Qed.

(** X13: a success message, shown when no timer is pending, stays up for
    less than 4000 ms and is hidden from then on. *)
Lemma success_dismissed_at_4000 message w s :
  find_id (str "form-status") (w_dom w) = Some s ->
  w_timers w = [] ->
  let w' := snd (showFormStatus message (str "success") w) in
  status_shown w' = true /\
  (forall dt, dt < 4000 -> status_shown (advance dt w') = true) /\
  (forall dt, 4000 <= dt -> status_shown (advance dt w') = false).
Proof.
  intros Hs Ht w'.
  assert (Hreg : status_region w' =
                 Some (message, [str "form-status"; str "show"; str "success"])).
  { subst w'. rewrite (showFormStatus_region _ _ _ s Hs), success_tokens.
    reflexivity. }
  assert (Htm : w_timers w' = [Timer (w_now w + 4000) (HideStatus s)]).
  { subst w'. rewrite (showFormStatus_success_timer _ _ s Hs), Ht.
    reflexivity. }
  assert (Hnow : w_now w' = w_now w) by apply showFormStatus_frame.
  assert (Hs' : find_id (str "form-status") (w_dom w') = Some s).
  { rewrite (find_id_static _ _ (w_dom w)); [exact Hs|].
    apply showFormStatus_frame. }
  split; [unfold status_shown; rewrite Hreg; reflexivity|].
  split; intros dt Hdt; unfold advance; rewrite Htm, Hnow;
    cbn [List.filter]; unfold is_due; cbn [t_due].
  - assert (E : (w_now w + 4000 <=? w_now w + dt) = false)
      by (apply N.leb_gt; lia).
    rewrite E. cbn [negb run_timers].
    unfold status_shown.
    rewrite (status_region_dom w') by reflexivity. rewrite Hreg. reflexivity.
  - assert (E : (w_now w + 4000 <=? w_now w + dt) = true)
      by (apply N.leb_le; lia).
    rewrite E. cbn [negb run_timers run_callback t_callback update snd].
    unfold status_shown, status_region in *. cbn [w_dom].
    rewrite (find_id_static _ _ (w_dom w'))
      by (rewrite map_alter_same by reflexivity; reflexivity).
    rewrite Hs' in *. cbn [mbind option_bind] in *.
    destruct (w_dom w' !! s) as [el|] eqn:Hel; [|discriminate].
    rewrite (lookup_alter_at _ _ _ _ Hel). cbn [mbind option_bind] in *.
    inversion Hreg as [[Htext Hcl]]. fields. rewrite Hcl. reflexivity.
Qed.

(** X14: a message of any type other than [success], shown when no timer
    is pending, sets no timer and stays as it is however much time
    passes. *)
Lemma error_stays_without_stale_timer message type w dt :
  type <> str "success" ->
  w_timers w = [] ->
  let w' := snd (showFormStatus message type w) in
  w_timers w' = [] /\
  status_region (advance dt w') = status_region w'.
Proof.
  intros Hty Ht w'.
  assert (Htm : w_timers w' = []).
  { subst w'. rewrite showFormStatus_error_timers by exact Hty. exact Ht. }
  split; [exact Htm|].
  rewrite (advance_idle dt w' Htm). apply status_region_dom. reflexivity.
Qed.

End Timers.

(** C8, on the code: the timer set for a success message is never
    cancelled and hides whatever the status region shows when it fires.
    A message is sent at time 0; one second later a second submit fails
    validation and the error is displayed; at 4000 ms the timer of the
    first message removes [show], and the error is hidden although no
    further attempt replaced it. *)
Theorem stale_timer_hides_error :
  status_region Sample.sent_at_0 =
    Some (Msg.sent, [str "form-status"; str "show"; str "success"]) /\
  w_timers Sample.sent_at_0 = [Timer 4000 (HideStatus 8)] /\
  status_region Sample.resubmitted_at_1000 =
    Some (Msg.fix_errors, [str "form-status"; str "show"; str "error"]) /\
  requests Sample.resubmitted_at_1000 = requests Sample.sent_at_0 /\
  w_now Sample.at_4000 = 4000 /\
  requests Sample.at_4000 = requests Sample.sent_at_0 /\
  status_region Sample.at_4000 =
    Some (Msg.fix_errors, [str "form-status"; str "error"]) /\
  status_shown Sample.at_4000 = false.
Proof. repeat split; vm_compute; reflexivity. Qed.

(** * Further properties of the form code *)

Section Revalidation.

Lemma alter_fixed (f : element -> element) i (l : list element) :
  (forall x, l !! i = Some x -> f x = x) -> alter f i l = l.
Proof.
  intros H. rewrite <- (list_alter_id id l i) at 2 by reflexivity.
  apply list_alter_ext; [exact H | reflexivity].
Qed.

Lemma token_remove_add tok cl :
  token_remove tok (token_add tok cl) = token_remove tok cl.
Proof.
  unfold token_add. destruct (has_token tok cl); [reflexivity|].
  unfold token_remove. rewrite List.filter_app. cbn [List.filter].
  rewrite eqb_refl. cbn [negb]. apply app_nil_r.
Qed.

Lemma token_remove_twice tok cl :
  token_remove tok (token_remove tok cl) = token_remove tok cl.
Proof.
  unfold token_remove. induction cl as [|t cl IH]; [reflexivity|].
  cbn [List.filter]. destruct (eqb tok t) eqn:E; cbn [negb List.filter];
    rewrite ?E; cbn [negb]; rewrite IH; reflexivity.
Qed.

Lemma token_add_twice tok cl :
  token_add tok (token_add tok cl) = token_add tok cl.
Proof.
  unfold token_add at 1. rewrite has_token_add. reflexivity.
Qed.

Lemma display_twice b cl : display b (display b cl) = display b cl.
Proof.
  destruct b; [apply token_remove_twice | apply token_add_twice].
Qed.

Lemma token_remove_display b cl :
  token_remove (str "error") (display b cl) = token_remove (str "error") cl.
Proof.
  destruct b; [apply token_remove_twice | apply token_remove_add].
Qed.

(** The field and its error element are two elements. *)
Lemma error_element_apart (l : list element) i el j :
  l !! i = Some el ->
  find_id (el_id el ++ str "-error") l = Some j ->
  i <> j.
Proof.
  intros Hi Hj ->.
  destruct (find_id_lookup _ _ _ Hj) as (ee & Hee & Hid).
  rewrite Hi in Hee. inversion Hee; subst ee.
  symmetry in Hid. revert Hid. apply suffix_not_self. discriminate.
Qed.

End Revalidation.

(** X1: [validateField] is idempotent.  Validating a field a second time,
    with nothing in between, returns what the first call returned (or
    throws as it did) and leaves the page exactly as the first call left
    it: no class is added twice, no message is changed. *)
Theorem validateField_idempotent (target : option nat) (w : world) :
  validateField target (snd (validateField target w))
  = validateField target w.
Proof.
  destruct (validateField_ways target w)
    as [(i & el & -> & Hi & Hv)|[E|E]];
    try (rewrite E; cbn [snd]; exact E).
  rewrite (validateField_run w i el Hi Hv). cbn [snd].
  set (r := check_field (el_id el) (trim (el_value el))).
  set (D := fun e : element => set_classList (display (fst r) (el_classList e)) e).
  set (d1 := alter D i (w_dom w)).
  assert (Hd1 : d1 !! i = Some (D el)) by (apply lookup_alter_at, Hi).
  assert (HD : D (D el) = D el).
  { subst D. fields. rewrite display_twice. reflexivity. }
  destruct (find_id (el_id el ++ str "-error") (w_dom w)) as [j|] eqn:Hj.
  - pose proof (error_element_apart _ _ _ _ Hi Hj) as Hne.
    destruct (find_id_lookup _ _ _ Hj) as (ee & Hee & Hid).
    set (d2 := alter (set_textContent (snd r)) j d1).
    assert (Hd2 : d2 !! i = Some (D el)).
    { subst d2. rewrite lookup_alter_other by congruence. exact Hd1. }
    assert (Hfind : find_id (el_id el ++ str "-error") d2 = Some j).
    { rewrite (find_id_ids _ d2 (w_dom w)); [exact Hj|].
      subst d2 d1. rewrite !map_alter_same by reflexivity. reflexivity. }
    rewrite (validateField_run (World d2 _ _ _) i (D el) Hd2 Hv).
    cbn [w_dom w_timers w_now w_out]. subst D. fields. fold r.
    rewrite Hfind. f_equal. f_equal.
    rewrite alter_fixed.
    + apply alter_fixed. intros x Hx. rewrite Hd2 in Hx.
      inversion Hx; subst x. fields. rewrite display_twice. reflexivity.
    + intros x Hx. rewrite alter_fixed in Hx.
      * subst d2. rewrite list_lookup_alter_eq in Hx.
        destruct (d1 !! j) as [y|]; [|discriminate].
        cbn in Hx. inversion Hx. reflexivity.
      * intros y Hy. rewrite Hd2 in Hy. inversion Hy; subst y.
        fields. rewrite display_twice. reflexivity.
  - assert (Hfind : find_id (el_id el ++ str "-error") d1 = None).
    { rewrite (find_id_ids _ d1 (w_dom w)); [exact Hj|].
      subst d1. rewrite map_alter_same by reflexivity. reflexivity. }
    rewrite (validateField_run (World d1 _ _ _) i (D el) Hd1 Hv).
    cbn [w_dom w_timers w_now w_out]. subst D. fields. fold r.
    rewrite Hfind. f_equal. f_equal.
    apply alter_fixed. intros x Hx. rewrite Hd1 in Hx.
    inversion Hx; subst x. fields. rewrite display_twice. reflexivity.
Qed.

(** X2: focus undoes blur.  [clearFieldError] on a field that
    [validateField] has just checked leaves the page exactly as
    [clearFieldError] alone would have: whatever the verdict was, no trace
    of the validation display remains. *)
Theorem clearFieldError_erases_validation (target : option nat) (w : world) :
  snd (clearFieldError target (snd (validateField target w)))
  = snd (clearFieldError target w).
Proof.
  destruct (validateField_ways target w)
    as [(i & el & -> & Hi & Hv)|[E|E]]; try (rewrite E; reflexivity).
  rewrite (validateField_run w i el Hi Hv), (clearFieldError_run w i el Hi).
  cbn [snd].
  set (r := check_field (el_id el) (trim (el_value el))).
  set (D := fun e : element => set_classList (display (fst r) (el_classList e)) e).
  set (R := fun e : element =>
              set_classList (token_remove (str "error") (el_classList e)) e).
  assert (HRD : forall x, R (D x) = R x).
  { intros x. subst R D. fields. rewrite token_remove_display. reflexivity. }
  assert (Hd1 : alter D i (w_dom w) !! i = Some (D el))
    by (apply lookup_alter_at, Hi).
  destruct (find_id (el_id el ++ str "-error") (w_dom w)) as [j|] eqn:Hj.
  - pose proof (error_element_apart _ _ _ _ Hi Hj) as Hne.
    set (d2 := alter (set_textContent (snd r)) j (alter D i (w_dom w))).
    assert (Hd2 : d2 !! i = Some (D el)).
    { subst d2. rewrite lookup_alter_other by congruence. exact Hd1. }
    assert (Hfind : find_id (el_id el ++ str "-error") d2 = Some j).
    { rewrite (find_id_ids _ d2 (w_dom w)); [exact Hj|].
      subst d2. rewrite !map_alter_same by reflexivity. reflexivity. }
    rewrite (clearFieldError_run (World d2 _ _ _) i (D el) Hd2).
    cbn [w_dom w_timers w_now w_out]. subst D. fields.
    rewrite Hfind. cbn [snd]. f_equal. fold R.
    subst d2.
    rewrite (list_alter_alter_ne R _ _ i j) by exact Hne.
    rewrite !list_alter_alter_eq.
    apply list_alter_ext; [intros; reflexivity|].
    apply list_alter_ext; [|reflexivity].
    intros x _. apply HRD.
  - assert (Hfind : find_id (el_id el ++ str "-error") (alter D i (w_dom w))
                    = None).
    { rewrite (find_id_ids _ _ (w_dom w)); [exact Hj|].
      rewrite map_alter_same by reflexivity. reflexivity. }
    rewrite (clearFieldError_run (World (alter D i (w_dom w)) _ _ _) i (D el) Hd1).
    cbn [w_dom w_timers w_now w_out]. subst D. fields.
    rewrite Hfind. cbn [snd]. f_equal. fold R.
    rewrite list_alter_alter_eq. apply list_alter_ext; [|reflexivity].
    intros x _. apply HRD.
Qed.

Section Blank.

Lemma trimStart_blank s :
  Forall (fun c => is_space c = true) s -> trimStart s = [].
Proof.
  induction 1 as [|c s Hc _ IH]; [reflexivity|].
  cbn [trimStart]. rewrite Hc. exact IH.
Qed.

(** A value made of white space only trims to the empty string. *)
Lemma trim_blank s : Forall (fun c => is_space c = true) s -> trim s = [].
Proof.
  intros H. unfold trim, trimEnd. rewrite (trimStart_blank s H). reflexivity.
Qed.

Lemma check_field_empty f :
  check_field (Spec.field_id f) [] = (false, required_message f).
Proof. destruct f; reflexivity. Qed.

Lemma validateField_returns w i el :
  w_dom w !! i = Some el ->
  has_value el = true ->
  fst (validateField (Some i) w)
  = Ret (fst (check_field (el_id el) (trim (el_value el)))).
Proof.
  intros Hi Hv. rewrite (validateField_run w i el Hi Hv). reflexivity.
Qed.

End Blank.

(** X3: a value made of white space only counts as missing.  For each of
    the three fields, a control with a [value], [validateField] on such
    a value returns [false], marks the field with the [error] class and
    shows the message that the field is required. *)
Theorem blank_value_is_required
    (f : Spec.field) (w : world) (i : nat) (el : element) :
  w_dom w !! i = Some el ->
  has_value el = true ->
  el_id el = Spec.field_id f ->
  Forall (fun c => is_space c = true) (el_value el) ->
  exists w',
    validateField (Some i) w = (Ret false, w') /\
    (exists el', w_dom w' !! i = Some el' /\
                 has_token (str "error") (el_classList el') = true) /\
    (forall j, find_id (el_id el ++ str "-error") (w_dom w) = Some j ->
               exists ee, w_dom w' !! j = Some ee /\
                          el_textContent ee = required_message f).
Proof.
  intros Hi Hhas Hid Hblank.
  pose proof (validateField_run w i el Hi Hhas) as Hrun.
  pose proof (validateField_display w i el Hi Hhas) as [Hfield Herr].
  cbv zeta in Hrun, Hfield, Herr.
  rewrite Hrun in Hfield, Herr. cbn [snd] in Hfield, Herr.
  assert (Hc : check_field (el_id el) (trim (el_value el))
               = (false, required_message f)).
  { rewrite (trim_blank _ Hblank), Hid. apply check_field_empty. }
  rewrite Hc in Hrun, Hfield, Herr. cbn [fst snd] in Hrun, Hfield, Herr.
  eexists. split; [exact Hrun|]. split; [|exact Herr].
  destruct Hfield as (el' & Hl & Hcl & _). exists el'.
  split; [exact Hl|]. rewrite Hcl. apply has_token_add.
Qed.

(** A name field holding two spaces and a tab. *)
Lemma blank_value_is_required_witness :
  exists w',
    validateField (Some 1%nat)
      (Sample.start (Sample.page Sample.endpoint [0x20; 0x20; 0x09]
                       (str "jane@example.com")
                       (str "This is a long enough message.") false))
    = (Ret false, w') /\
    exists ee, w_dom w' !! 2%nat = Some ee /\
               el_textContent ee = str "Name is required".
Proof.
  destruct (blank_value_is_required Spec.Name
              (Sample.start (Sample.page Sample.endpoint [0x20; 0x20; 0x09]
                               (str "jane@example.com")
                               (str "This is a long enough message.") false))
              1 _ eq_refl eq_refl eq_refl)
    as (w' & Hrun & _ & Herr).
  { repeat constructor. }
  exists w'. split; [exact Hrun|]. apply (Herr 2%nat). reflexivity.
Defined.

(** X4: which e-mail addresses pass.  [validateField] returns [true] on
    the e-mail field, a control with a [value], exactly when the trimmed
    value reads
    [local@domain.rest]: three non-empty parts around one [@] and a dot
    after it, none of the parts holding white space or a second [@]. *)
Theorem email_accepted_iff (w : world) (i : nat) (el : element) :
  w_dom w !! i = Some el ->
  has_value el = true ->
  el_id el = str "email" ->
  fst (validateField (Some i) w) = Ret true <->
  exists a b c,
    trim (el_value el) = a ++ [0x40] ++ b ++ [0x2E] ++ c /\
    a <> [] /\ b <> [] /\ c <> [] /\
    Forall (fun x => not_space_at x = true) (a ++ b ++ c).
Proof.
  intros Hi Hhas Hid. rewrite (validateField_returns w i el Hi Hhas), Hid.
  rewrite check_field_email, <- matches_emailRegex, <- test_matches.
  destruct (length (trim (el_value el)) =? 0)%nat eqn:E0.
  - apply length_zero_nil in E0. rewrite E0. cbn. split; discriminate.
  - destruct (test emailRegex (trim (el_value el))); cbn;
      split; congruence.
Qed.

(** The e-mail field of the filled sample page. *)
Lemma email_accepted_iff_witness :
  fst (validateField (Some 3%nat) Sample.filled) = Ret true.
Proof.
  apply (proj2 (email_accepted_iff Sample.filled 3 _ eq_refl eq_refl
                  eq_refl)).
  exists (str "jane"), (str "example"), (str "com").
  split; [reflexivity|]. repeat (split; [discriminate|]).
  repeat constructor.
Defined.

(** X5: which names pass.  [validateField] returns [true] on the name
    field, a control with a [value], exactly when the trimmed value has
    at least two code units, each
    of them a letter [a-z] or [A-Z], white space, an apostrophe or a
    hyphen. *)
Theorem name_accepted_iff (w : world) (i : nat) (el : element) :
  w_dom w !! i = Some el ->
  has_value el = true ->
  el_id el = str "name" ->
  fst (validateField (Some i) w) = Ret true <->
  (2 <= length (trim (el_value el)))%nat /\
  Forall (fun c => name_char c = true) (trim (el_value el)).
Proof.
  intros Hi Hhas Hid. rewrite (validateField_returns w i el Hi Hhas), Hid.
  rewrite check_field_name.
  set (v := trim (el_value el)).
  destruct (length v =? 0)%nat eqn:E0.
  { apply Nat.eqb_eq in E0. split; [discriminate | intros [H _]; lia]. }
  destruct (length v <? 2)%nat eqn:E2.
  { apply Nat.ltb_lt in E2. split; [discriminate | intros [H _]; lia]. }
  apply Nat.ltb_ge in E2.
  destruct (test name_regex v) eqn:Er; cbn [negb].
  - apply test_matches, matches_Plus_Class in Er as [_ Hall].
    split; [intros _; split; assumption | reflexivity].
  - apply test_false in Er. split; [discriminate|].
    intros [_ Hall]. destruct Er. apply matches_Plus_Class.
    split; [|exact Hall]. intros E. rewrite E in E2. cbn in E2. lia.
Qed.

(** The name field of the filled sample page. *)
Lemma name_accepted_iff_witness :
  fst (validateField (Some 1%nat) Sample.filled) = Ret true.
Proof.
  apply (proj2 (name_accepted_iff Sample.filled 1 _ eq_refl eq_refl
                  eq_refl)).
  split; [apply Nat.leb_le; reflexivity | repeat constructor].
Defined.

Section Passes.

Lemma not_status_error_id (a : jsstring) :
  a ++ str "-error" <> str "form-status".
Proof.
  intros E. apply (f_equal (@rev N)) in E. rewrite rev_app_distr in E.
  cbn in E. discriminate.
Qed.

(** [validateField] throws nothing but the error of reading [null] or
    [undefined], and then it has changed nothing. *)
Lemma validateField_outcome target w :
  (exists b, fst (validateField target w) = Ret b) \/
  (exists e, access_error e /\ validateField target w = (Throw e, w)).
Proof.
  destruct (validateField_ways target w)
    as [(i & el & -> & Hi & Hv)|[E|E]].
  - left. rewrite (validateField_run w i el Hi Hv). eauto.
  - right. exists undefined_access. split; [right; reflexivity | exact E].
  - right. exists null_access. split; [left; reflexivity | exact E].
Qed.

(** Validating a field that is not the status region leaves the status
    region as it is. *)
Lemma validateField_status fid w0 w :
  map static (w_dom w) = map static (w_dom w0) ->
  fid <> str "form-status" ->
  status_region (snd (validateField (find_id fid (w_dom w0)) w))
  = status_region w.
Proof.
  intros Hs Hfid.
  destruct (find_id fid (w_dom w0)) as [i|] eqn:Hi0; [|reflexivity].
  assert (Hi : find_id fid (w_dom w) = Some i)
    by (rewrite (find_id_static _ _ _ Hs); exact Hi0).
  destruct (find_id_lookup _ _ _ Hi) as (el & Hel & Hid).
  destruct (has_value el) eqn:Hhas;
    [|rewrite (validateField_no_value w i el Hel Hhas); reflexivity].
  rewrite (validateField_run w i el Hel Hhas). cbn [snd].
  unfold status_region. cbn [w_dom].
  match goal with
  | |- context [find_id (str "form-status") ?d] =>
      assert (Hf : find_id (str "form-status") d
                   = find_id (str "form-status") (w_dom w))
  end.
  { apply find_id_ids.
    destruct (find_id (el_id el ++ str "-error") (w_dom w));
      rewrite !map_alter_same by reflexivity; reflexivity. }
  rewrite Hf.
  destruct (find_id (str "form-status") (w_dom w)) as [s|] eqn:Hst;
    [|reflexivity].
  cbn [mbind option_bind].
  assert (Hsi : i <> s).
  { apply (find_id_distinct _ _ _ _ _ Hi Hst). exact Hfid. }
  destruct (find_id (el_id el ++ str "-error") (w_dom w)) as [j|] eqn:Hj.
  - assert (Hsj : j <> s).
    { apply (find_id_distinct _ _ _ _ _ Hj Hst). apply not_status_error_id. }
    rewrite !lookup_alter_other by assumption. reflexivity.
  - rewrite lookup_alter_other by assumption. reflexivity.
Qed.

Lemma validating_step fid w x :
  fid <> str "form-status" ->
  validating w x ->
  validating w (snd (validateField (find_id fid (w_dom w)) x)).
Proof.
  intros Hfid (Hc & Ht & Hn & Ho & Hs).
  destruct (validateField_world (find_id fid (w_dom w)) x)
    as (Hc' & Ht' & Hn' & Ho').
  unfold validating.
  rewrite Hc', Ht', Hn', Ho'. repeat (split; [assumption|]).
  rewrite validateField_status; [exact Hs | | exact Hfid].
  apply (controls_proj _ _ Hc).
Qed.

(** The worlds between the three validations of one pass. *)
Lemma validations_world w :
  let w0 := snd (emit PreventDefault w) in
  let r1 := validateField (find_id (str "name") (w_dom w)) w0 in
  let r2 := validateField (find_id (str "email") (w_dom w)) (snd r1) in
  let r3 := validateField (find_id (str "message") (w_dom w)) (snd r2) in
  validating w w0 /\ validating w (snd r1) /\
  validating w (snd r2) /\ validating w (snd r3).
Proof.
  intros w0 r1 r2 r3.
  assert (H0 : validating w w0) by (repeat split).
  assert (H1 : validating w (snd r1))
    by (apply validating_step; [discriminate | exact H0]).
  assert (H2 : validating w (snd r2))
    by (apply validating_step; [discriminate | exact H1]).
  assert (H3 : validating w (snd r3))
    by (apply validating_step; [discriminate | exact H2]).
  auto.
Qed.

Lemma validating_requests w x : validating w x -> requests x = requests w.
Proof.
  intros (_ & _ & _ & Ho & _). unfold requests.
  rewrite Ho, omap_app, app_nil_r. reflexivity.
Qed.

(** [send_request] sets no timer, leaves the clock, and only adds to the
    effects. *)
Lemma send_request_effects form b w :
  let w' := snd (send_request form b w) in
  w_timers w' = w_timers w /\ w_now w' = w_now w /\
  exists rest, w_out w' = w_out w ++ rest.
Proof.
  cbv zeta.
  assert (Hsame : w_timers w = w_timers w /\ w_now w = w_now w /\
                  exists rest, w_out w = w_out w ++ rest).
  { split; [reflexivity|]. split; [reflexivity|].
    exists (@nil effect). symmetry. apply app_nil_r. }
  destruct (send_request form b w) as [res w'] eqn:E. cbn [snd].
  destruct b as [k|].
  2:{ apply pair_equal_spec in E as [_ <-]. exact Hsame. }
  unfold send_request in E. rewrite bind_run in E. unfold deref at 1 in E.
  destruct (w_dom w !! k) as [btn|].
  2:{ apply pair_equal_spec in E as [_ <-]. exact Hsame. }
  cbv beta iota zeta in E.
  rewrite bind_run in E. unfold update at 1 in E. cbv beta iota in E.
  rewrite bind_run in E. unfold update at 1 in E. cbv beta iota in E.
  rewrite bind_run in E. unfold dom at 1 in E. cbv beta iota in E.
  rewrite bind_run in E. unfold deref at 1 in E. cbn [w_dom] in E.
  destruct (_ !! form) as [fe|]; cbv beta iota in E.
  - rewrite bind_run, emit_run in E. cbv beta iota in E.
    apply pair_equal_spec in E as [_ <-]. cbn [w_timers w_now w_out].
    split; [reflexivity|]. split; [reflexivity|]. eauto.
  - apply pair_equal_spec in E as [_ <-]. exact Hsame.
Qed.

(** Every pass: no timer set, the clock untouched, and the first effect
    is [preventDefault]. *)
Lemma handleFormSubmit_effects form w :
  let w' := snd (handleFormSubmit form w) in
  w_timers w' = w_timers w /\ w_now w' = w_now w /\
  exists rest, w_out w' = w_out w ++ PreventDefault :: rest.
Proof.
  cbv zeta.
  destruct (w_dom w !! form) as [fe|] eqn:Hf.
  2:{ rewrite (handleFormSubmit_no_form _ _ Hf).
      cbn [snd emit w_timers w_now w_out].
      split; [reflexivity|]. split; [reflexivity|].
      exists (@nil effect). reflexivity. }
  destruct (is_placeholder (el_action fe)) eqn:Hp.
  { rewrite (handleFormSubmit_placeholder _ _ _ Hf Hp).
    set (w0 := snd (emit PreventDefault w)).
    destruct (showFormStatus_frame Msg.not_configured (str "error") w0)
      as (_ & _ & _ & Hn & Ho).
    pose proof (showFormStatus_error_timers Msg.not_configured (str "error")
                  w0) as Ht.
    cbv zeta in Hn, Ho.
    set (w1 := snd (showFormStatus Msg.not_configured (str "error") w0)) in *.
    cbn [snd emit w_timers w_now w_out].
    rewrite Ht, Hn, Ho by discriminate. subst w0.
    cbn [snd emit w_timers w_now w_out].
    split; [reflexivity|]. split; [reflexivity|].
    rewrite <- app_assoc. eauto. }
  rewrite (handleFormSubmit_checked _ _ _ Hf Hp). cbv zeta.
  destruct (validations_world w) as (_ & V1 & V2 & V3). cbv zeta in V1, V2, V3.
  set (r1 := validateField (find_id (str "name") (w_dom w)) _) in *.
  set (r2 := validateField (find_id (str "email") (w_dom w)) _) in *.
  set (r3 := validateField (find_id (str "message") (w_dom w)) _) in *.
  assert (Q : forall x, validating w x ->
                w_timers x = w_timers w /\ w_now x = w_now w /\
                exists rest, w_out x = w_out w ++ PreventDefault :: rest).
  { intros x (_ & Ht & Hn & Ho & _).
    split; [exact Ht|]. split; [exact Hn|].
    exists (@nil effect). exact Ho. }
  destruct (fst r1) as [b1|e1]; [|apply Q, V1].
  destruct (fst r2) as [b2|e2]; [|apply Q, V2].
  destruct (fst r3) as [b3|e3]; [|apply Q, V3].
  destruct V3 as (_ & Ht & Hn & Ho & _).
  destruct (negb b1 || negb b2 || negb b3).
  - cbn [snd].
    destruct (showFormStatus_frame Msg.fix_errors (str "error") (snd r3))
      as (_ & _ & _ & Hn' & Ho'). cbv zeta in Hn', Ho'.
    rewrite showFormStatus_error_timers by discriminate.
    rewrite Hn', Ho', Ht, Hn, Ho.
    split; [reflexivity|]. split; [reflexivity|].
    exists (@nil effect). reflexivity.
  - destruct (send_request_effects form (find_id (str "submit-btn") (w_dom w))
                (snd r3)) as (Ht' & Hn' & rest & Ho'). cbv zeta in Ht', Hn', Ho'.
    rewrite Ht', Hn', Ho', Ht, Hn, Ho.
    split; [reflexivity|]. split; [reflexivity|].
    rewrite <- app_assoc. eauto.
Qed.

End Passes.

(** X6: every pass of [handleFormSubmit] prevents the default action of
    the submit event, first of all and on every path, exits by a thrown
    error included: the effects of the pass begin with [preventDefault]. *)
Theorem default_always_prevented (form : nat) (w : world) :
  exists rest,
    w_out (snd (handleFormSubmit form w)) = w_out w ++ PreventDefault :: rest.
Proof. apply (handleFormSubmit_effects form w). Qed.

Section Quiet.

(** What a world between the validations shares with the world the pass
    started from. *)
Lemma validating_quiet w x :
  validating w x ->
  requests x = requests w /\
  w_timers x = w_timers w /\
  status_region x = status_region w /\
  submit_button x = submit_button w /\
  values x = values w.
Proof.
  intros V. pose proof (validating_requests w x V) as Hq.
  destruct V as (Hc & Ht & _ & _ & Hs).
  repeat (split; [assumption|]). split.
  - apply submit_button_controls, Hc.
  - apply (controls_proj _ _ Hc).
Qed.

End Quiet.

Section MissingField.

(** [validateField] touches the target and its error element only. *)
Lemma validateField_elsewhere target w i :
  (forall t el, target = Some t -> w_dom w !! t = Some el ->
                i <> t /\
                find_id (el_id el ++ str "-error") (w_dom w) <> Some i) ->
  w_dom (snd (validateField target w)) !! i = w_dom w !! i.
Proof.
  intros H.
  destruct (validateField_ways target w)
    as [(t & el & -> & Ht & Hv)|[E|E]]; try (rewrite E; reflexivity).
  destruct (H t el eq_refl Ht) as [Hne Herr].
  rewrite (validateField_run w t el Ht Hv). cbn [snd w_dom].
  destruct (find_id (el_id el ++ str "-error") (w_dom w)) as [j|].
  - rewrite !lookup_alter_other by congruence. reflexivity.
  - rewrite lookup_alter_other by congruence. reflexivity.
Qed.

(** Validating the field [gid] leaves an element with another id, which
    is not the error element of [gid] either, as it is. *)
Lemma validateField_keeps gid w0 w i el :
  map static (w_dom w) = map static (w_dom w0) ->
  w_dom w !! i = Some el ->
  el_id el <> gid -> el_id el <> gid ++ str "-error" ->
  w_dom (snd (validateField (find_id gid (w_dom w0)) w)) !! i = w_dom w !! i.
Proof.
  intros Hs Hi H1 H2. apply validateField_elsewhere.
  intros t x Ht Hx.
  assert (Hfind : find_id gid (w_dom w) = Some t)
    by (rewrite (find_id_static _ _ _ Hs); exact Ht).
  destruct (find_id_lookup _ _ _ Hfind) as (x' & Hx' & Hid).
  assert (x' = x) by congruence. subst x'.
  split.
  - intros ->. congruence.
  - intros Hf. destruct (find_id_lookup _ _ _ Hf) as (y & Hy & Hyid).
    assert (y = el) by congruence. subst y. congruence.
Qed.

(** The display of the name field after its validation, in a world that
    still has the field and its error element as that validation left
    them. *)
Lemma name_display w i el x :
  find_id (str "name") (w_dom w) = Some i ->
  w_dom w !! i = Some el ->
  has_value el = true ->
  let r1 := validateField (find_id (str "name") (w_dom w))
                          (snd (emit PreventDefault w)) in
  (forall k y, w_dom (snd r1) !! k = Some y ->
               el_id y = str "name" \/ el_id y = str "name-error" ->
               w_dom x !! k = Some y) ->
  let v := check_field (str "name") (trim (el_value el)) in
  (exists el', w_dom x !! i = Some el' /\
               has_token (str "error") (el_classList el') = negb (fst v)) /\
  (forall j, find_id (str "name-error") (w_dom w) = Some j ->
             exists ee, w_dom x !! j = Some ee /\ el_textContent ee = snd v).
Proof.
  intros Hi Hel Hv r1 Hx v. subst r1. rewrite Hi in Hx.
  set (w0 := snd (emit PreventDefault w)) in *.
  destruct (find_id_lookup _ _ _ Hi) as (el0 & Hel0 & Hid).
  assert (el0 = el) by congruence. subst el0.
  destruct (validateField_display w0 i el Hel Hv) as [Hfield Herr].
  destruct (validateField_frame (Some i) w0) as (Hs & _).
  cbv zeta in Hfield, Herr, Hs. rewrite Hid in Hfield, Herr.
  fold v in Hfield, Herr.
  split.
  - destruct Hfield as (el' & Hl & Hcl & _). exists el'. split.
    + apply (Hx i el' Hl). left.
      destruct (map_lookup static _ _ _ _ Hs Hl) as (z & Hz & Hst).
      assert (z = el) by (subst w0; cbn [emit snd w_dom] in Hz; congruence).
      subst z. unfold static in Hst. congruence.
    + rewrite Hcl. apply has_token_display.
  - intros j Hj. destruct (Herr j Hj) as (ee & Hee & Ht). exists ee.
    split; [|exact Ht]. apply (Hx j ee Hee). right.
    destruct (find_id_lookup _ _ _ Hj) as (z & Hz & Hzid).
    destruct (map_lookup static _ _ _ _ Hs Hee) as (z' & Hz' & Hst).
    assert (z' = z) by (subst w0; cbn [emit snd w_dom] in Hz'; congruence).
    subst z'. unfold static in Hst. congruence.
Qed.

End MissingField.

(** X7: a page without one of the three fields.  When the endpoint is
    configured but [name], [email] or [message] is not on the page,
    [handleFormSubmit] ends by a TypeError, that of reading [null] or,
    when an earlier field is an element without a [value], that of
    reading [undefined]: no request goes out, no timer is set, and the
    status region, the submit button and every value are as before, so
    no status message reports the failure.  The fields validated before
    the missing one keep the display of their check: when the missing
    field is not [name], the name field carries the [error] class
    exactly when its check failed and its error element holds the
    message of the check. *)
Theorem missing_field_throws
    (form : nat) (w : world) (fe : element) (f : Spec.field) :
  w_dom w !! form = Some fe ->
  is_placeholder (el_action fe) = false ->
  find_id (Spec.field_id f) (w_dom w) = None ->
  let r := handleFormSubmit form w in
  (exists e, access_error e /\ fst r = Throw e) /\
  requests (snd r) = requests w /\
  w_timers (snd r) = w_timers w /\
  status_region (snd r) = status_region w /\
  submit_button (snd r) = submit_button w /\
  values (snd r) = values w /\
  (forall i el,
      f <> Spec.Name ->
      find_id (str "name") (w_dom w) = Some i ->
      w_dom w !! i = Some el ->
      has_value el = true ->
      let v := check_field (str "name") (trim (el_value el)) in
      (exists el', w_dom (snd r) !! i = Some el' /\
                   has_token (str "error") (el_classList el') = negb (fst v)) /\
      (forall j, find_id (str "name-error") (w_dom w) = Some j ->
                 exists ee, w_dom (snd r) !! j = Some ee /\
                            el_textContent ee = snd v)).
Proof.
  intros Hf Hp Hnone. cbv zeta.
  rewrite (handleFormSubmit_checked _ _ _ Hf Hp). cbv zeta.
  destruct (validations_world w) as (V0 & V1 & V2 & V3).
  cbv zeta in V0, V1, V2, V3.
  set (w0 := snd (emit PreventDefault w)) in *.
  set (r1 := validateField (find_id (str "name") (w_dom w)) w0) in *.
  set (r2 := validateField (find_id (str "email") (w_dom w)) (snd r1)) in *.
  set (r3 := validateField (find_id (str "message") (w_dom w)) (snd r2)) in *.
  assert (Q : forall x, validating w x ->
                requests x = requests w /\ w_timers x = w_timers w /\
                status_region x = status_region w /\
                submit_button x = submit_button w /\ values x = values w)
    by (intros x; apply validating_quiet).
  destruct (validateField_outcome (find_id (str "name") (w_dom w)) w0)
    as [[b1 E1]|(e1 & A1 & E1)]; fold r1 in E1.
  2:{ rewrite E1. cbn [fst snd].
      split; [exists e1; split; [exact A1 | reflexivity]|].
      destruct (Q w0 V0) as (Q1 & Q2 & Q3 & Q4 & Q5).
      repeat (split; [assumption|]).
      intros i el _ Hi Hel Hv. exfalso.
      subst r1. rewrite Hi in E1.
      rewrite (validateField_run w0 i el Hel Hv) in E1. discriminate. }
  destruct (validateField_outcome (find_id (str "email") (w_dom w)) (snd r1))
    as [[b2 E2]|(e2 & A2 & E2)]; fold r2 in E2.
  2:{ rewrite (surjective_pairing r1), E1, E2. cbn [fst snd].
      split; [exists e2; split; [exact A2 | reflexivity]|].
      destruct (Q (snd r1) V1) as (Q1 & Q2 & Q3 & Q4 & Q5).
      repeat (split; [assumption|]).
      intros i el _ Hi Hel Hv.
      apply (name_display w i el (snd r1) Hi Hel Hv).
      intros k y Hy _. exact Hy. }
  assert (K2 : forall k y, w_dom (snd r1) !! k = Some y ->
                 el_id y = str "name" \/ el_id y = str "name-error" ->
                 w_dom (snd r2) !! k = w_dom (snd r1) !! k).
  { intros k y Hy Hid. subst r2.
    apply (validateField_keeps (str "email") w (snd r1) k y).
    - destruct V1 as (Hc & _). apply (controls_proj _ _ Hc).
    - exact Hy.
    - destruct Hid as [-> | ->]; discriminate.
    - destruct Hid as [-> | ->]; discriminate. }
  destruct (validateField_outcome (find_id (str "message") (w_dom w)) (snd r2))
    as [[b3 E3]|(e3 & A3 & E3)]; fold r3 in E3.
  2:{ rewrite (surjective_pairing r1), E1.
      rewrite (surjective_pairing r2), E2, E3. cbn [fst snd].
      split; [exists e3; split; [exact A3 | reflexivity]|].
      destruct (Q (snd r2) V2) as (Q1 & Q2 & Q3 & Q4 & Q5).
      repeat (split; [assumption|]).
      intros i el _ Hi Hel Hv.
      apply (name_display w i el (snd r2) Hi Hel Hv).
      intros k y Hy Hid. rewrite <- Hy. apply (K2 k y Hy Hid). }
  exfalso. destruct f; cbn [Spec.field_id] in Hnone.
  - subst r1. rewrite Hnone in E1. discriminate.
  - subst r2. rewrite Hnone in E2. discriminate.
  - subst r3. rewrite Hnone in E3. discriminate.
Qed.

(** A page whose form has no e-mail field, and a name that is too short:
    the handler throws and the status region stays as it was, while the
    name field shows its error. *)
Lemma missing_field_throws_witness :
  let w := Sample.start
             [ Sample.form Sample.endpoint;
               Sample.control (INPUT Text) (str "name") (str "A");
               Sample.plain (str "name-error");
               Sample.plain (str "form-status") ] in
  fst (handleFormSubmit 0 w) = Throw null_access /\
  status_region (snd (handleFormSubmit 0 w)) = status_region w /\
  exists ee, w_dom (snd (handleFormSubmit 0 w)) !! 2%nat = Some ee /\
             el_textContent ee = str "Name must be at least 2 characters".
Proof.
  intros w.
  destruct (missing_field_throws 0 w _ Spec.Email eq_refl eq_refl eq_refl)
    as (_ & _ & _ & H2 & _ & _ & H3).
  split; [reflexivity|]. split; [exact H2|].
  destruct (H3 1%nat _ ltac:(discriminate) eq_refl eq_refl eq_refl)
    as (_ & Herr).
  apply (Herr 2%nat). reflexivity.
Defined.





(** X10: where the request goes.  An issued request is one request, sent
    by [POST] to the [form.action] the page had, declaring that it
    accepts JSON; its address never holds one of the two placeholders. *)
Theorem request_shape (form : nat) (w : world) (p : pending) (w1 : world) :
  handleFormSubmit form w = (Ret (Some p), w1) ->
  exists fe req,
    w_dom w !! form = Some fe /\
    requests w1 = requests w ++ [req] /\
    req_url req = el_action fe /\
    req_method req = str "POST" /\
    req_headers req = [(str "Accept", str "application/json")] /\
    includes (req_url req) (str "YOUR_FORMSPREE_ID") = false /\
    includes (req_url req) (str "xyzqwvba") = false.
Proof.
  intros Hrun.
  destruct (handleFormSubmit_cases form w)
    as [(res & w' & Hr & Hno & _)
       |(fe & k & btn & d & Hf & Hp & _ & _ & _ & _ & Hr)];
    rewrite Hr in Hrun.
  { apply pair_equal_spec in Hrun as [Hres _]. destruct (Hno p Hres). }
  apply pair_equal_spec in Hrun as [_ <-].
  eexists fe, _. split; [exact Hf|]. split.
  { unfold requests. cbn [w_out]. rewrite omap_app. reflexivity. }
  cbn [req_url req_method req_headers].
  unfold is_placeholder in Hp. apply orb_false_iff in Hp as [P1 P2].
  auto 10.
Qed.

(** The filled sample page. *)
Lemma request_shape_witness :
  exists req,
    requests (snd (handleFormSubmit 0 Sample.filled)) = [req] /\
    req_url req = Sample.endpoint /\ req_method req = str "POST".
Proof.
  assert (Hrun : handleFormSubmit 0 Sample.filled =
                 (Ret (Some (Pending 0 (Some 7%nat) (str "Send Message"))),
                  snd (handleFormSubmit 0 Sample.filled))).
  { rewrite (surjective_pairing (handleFormSubmit 0 Sample.filled)) at 1.
    f_equal. }
  destruct (request_shape 0 Sample.filled _ _ Hrun)
    as (fe & req & Hf & Hq & Hu & Hm & _).
  exists req. split; [exact Hq|]. split; [|exact Hm].
  rewrite Hu. inversion Hf. reflexivity.
Defined.

Section ChainTimers.

Lemma on_error_timers e w :
  w_timers (snd (on_error e w)) = w_timers w /\
  w_now (snd (on_error e w)) = w_now w.
Proof.
  rewrite on_error_run.
  match goal with
  | |- context [showFormStatus ?m ?t ?x] =>
      rewrite (showFormStatus_error_timers m t x) by discriminate;
      destruct (showFormStatus_frame m t x) as (_ & _ & _ & Hn & _)
  end.
  cbv zeta in Hn. rewrite Hn. split; reflexivity.
Qed.

(** The chain before [.finally] sets a timer on a 2xx response and on
    nothing else. *)
Lemma respond_timers p r w :
  w_timers (snd (respond p r w)) =
  w_timers w ++
  (if is_success r then
     match find_id (str "form-status") (w_dom w) with
     | Some s => [Timer (w_now w + 4000) (HideStatus s)]
     | None => []
     end
   else []).
Proof.
  destruct r as [resp|msg]; cbn [is_success].
  - destruct (ok resp) eqn:Hok.
    + rewrite (respond_ok p resp w Hok).
      assert (H : w_timers (snd (showFormStatus Msg.sent (str "success") w))
                  = w_timers w ++
                    match find_id (str "form-status") (w_dom w) with
                    | Some s => [Timer (w_now w + 4000) (HideStatus s)]
                    | None => []
                    end).
      { rewrite showFormStatus_run. cbn [snd].
        destruct (find_id (str "form-status") (w_dom w)); cbn [w_timers];
          [reflexivity | symmetry; apply app_nil_r]. }
      destruct (json_failure resp) as [m|]; cbn [snd].
      * match goal with
        | |- context [on_error ?e ?x] =>
            destruct (on_error_timers e x) as (Ht & _)
        end.
        rewrite Ht. exact H.
      * exact H.
    + rewrite (respond_not_ok p resp w Hok), app_nil_r. apply on_error_timers.
  - rewrite respond_rejected, app_nil_r. apply on_error_timers.
Qed.

Lemma settle_timers p k r w :
  p_submitBtn p = Some k ->
  w_timers (snd (settle p r w)) = w_timers (snd (respond p r w)).
Proof. intros Hk. rewrite (settle_world p k r w Hk). reflexivity. Qed.

End ChainTimers.

Section AttemptTimers.


End AttemptTimers.

Section Advance.

Lemma run_callback_frame cb w :
  let w' := snd (run_callback cb w) in
  map static (w_dom w') = map static (w_dom w) /\
  w_timers w' = w_timers w /\ w_now w' = w_now w /\ w_out w' = w_out w.
Proof.
  destruct cb as [i]. cbn [run_callback update snd w_dom w_timers w_now w_out].
  rewrite map_alter_same by reflexivity. auto.
Qed.

Lemma run_timers_frame l w :
  let w' := run_timers l w in
  map static (w_dom w') = map static (w_dom w) /\
  w_timers w' = w_timers w /\ w_now w' = w_now w /\ w_out w' = w_out w.
Proof.
  revert w; induction l as [|tm l IH]; intros w; [cbn; auto|].
  cbn [run_timers].
  destruct (IH (snd (run_callback (t_callback tm) w))) as (A & B & C & D).
  destruct (run_callback_frame (t_callback tm) w) as (A' & B' & C' & D').
  cbv zeta in *. rewrite A, B, C, D. auto.
Qed.

(** Time passing: the clock moves, the timers that came due are gone,
    and their callbacks wrote class tokens only. *)
Lemma advance_frame dt w :
  map static (w_dom (advance dt w)) = map static (w_dom w) /\
  w_timers (advance dt w)
  = List.filter (fun tm => negb (is_due (w_now w + dt) tm)) (w_timers w) /\
  w_now (advance dt w) = w_now w + dt /\
  w_out (advance dt w) = w_out w.
Proof.
  unfold advance.
  match goal with
  | |- context [run_timers ?l ?x] =>
      destruct (run_timers_frame l x) as (A & B & C & D)
  end.
  cbv zeta in *. rewrite A, B, C, D. auto.
Qed.

End Advance.

(** X11: a timer only for success.  The synchronous pass sets no timer,
    whatever its exit.  The chain of an issued request, run in the world
    the response arrives in, sets exactly one timer when the response is
    2xx and the page has a status region, and none on any other result;
    the timer is aimed at the status region and due 4000 ms after the
    arrival of the response: with the response [dt] ms after the submit,
    [dt + 4000] ms after it. *)
Theorem timer_only_on_success
    (form : nat) (w : world) (res : outcome (option pending)) (w1 : world) :
  handleFormSubmit form w = (res, w1) ->
  w_timers w1 = w_timers w /\
  forall p r,
    res = Ret (Some p) ->
    (forall x,
        w_timers (snd (settle p r x)) =
        w_timers x ++
        (if is_success r then
           match find_id (str "form-status") (w_dom x) with
           | Some s => [Timer (w_now x + 4000) (HideStatus s)]
           | None => []
           end
         else [])) /\
    (forall dt s,
        is_success r = true ->
        find_id (str "form-status") (w_dom w) = Some s ->
        w_timers (snd (settle p r (advance dt w1))) =
        List.filter (fun tm => negb (is_due (w_now w + dt) tm)) (w_timers w)
        ++ [Timer (w_now w + dt + 4000) (HideStatus s)]).
Proof.
  intros Hrun.
  destruct (handleFormSubmit_effects form w) as (Ht & Hn & _).
  cbv zeta in Ht, Hn. rewrite Hrun in Ht, Hn. cbn [snd] in Ht, Hn.
  split; [exact Ht|]. intros p r ->.
  destruct (handleFormSubmit_sent _ _ _ _ Hrun)
    as (k & btn & _ & _ & -> & Hst & _).
  assert (G : forall x,
             w_timers (snd (settle (Pending form (Some k) (el_textContent btn))
                                   r x)) =
             w_timers x ++
             (if is_success r then
                match find_id (str "form-status") (w_dom x) with
                | Some s => [Timer (w_now x + 4000) (HideStatus s)]
                | None => []
                end
              else [])).
  { intros x.
    rewrite (settle_timers (Pending form (Some k) (el_textContent btn)) k r x
               eq_refl).
    apply respond_timers. }
  split; [exact G|].
  intros dt s Hok Hs. rewrite G, Hok.
  destruct (advance_frame dt w1) as (As & At & An & _).
  rewrite (find_id_static _ _ (w_dom w)) by (rewrite As; exact Hst).
  rewrite Hs, At, An, Ht, Hn. reflexivity.
Qed.

(** The filled sample page: a response with status 200 that arrives
    250 ms after the submit, and one with status 500. *)
Lemma timer_only_on_success_witness :
  let w1 := snd (handleFormSubmit 0 Sample.filled) in
  let p := Pending 0 (Some 7%nat) (str "Send Message") in
  w_timers (snd (settle p (Responded (Response 200 None)) (advance 250 w1)))
  = [Timer 4250 (HideStatus 8)] /\
  w_timers (snd (settle p (Responded (Response 500 None)) (advance 250 w1)))
  = [].
Proof.
  intros w1 p.
  destruct (timer_only_on_success 0 Sample.filled (Ret (Some p)) w1)
    as (_ & H).
  { subst w1 p.
    rewrite (surjective_pairing (handleFormSubmit 0 Sample.filled)) at 1.
    f_equal. }
  destruct (H p (Responded (Response 200 None)) eq_refl) as (_ & H200).
  destruct (H p (Responded (Response 500 None)) eq_refl) as (H500 & _).
  split.
  - rewrite (H200 250 8%nat eq_refl eq_refl). reflexivity.
  - rewrite (H500 (advance 250 w1)). reflexivity.
Defined.



(** The sample page, before any submit. *)
Lemma success_dismissed_at_4000_witness :
  let w' := snd (showFormStatus Msg.sent (str "success") Sample.filled) in
  status_shown w' = true /\
  status_shown (advance 3999 w') = true /\
  status_shown (advance 4000 w') = false.
Proof.
  destruct (success_dismissed_at_4000 Msg.sent Sample.filled 8
              eq_refl eq_refl) as (H0 & Hbefore & Hafter).
  split; [exact H0|]. split.
  - apply Hbefore. reflexivity.
  - apply Hafter. discriminate.
Defined.

Lemma error_stays_without_stale_timer_witness :
  let w' := snd (showFormStatus Msg.fix_errors (str "error") Sample.filled) in
  status_region (advance 60000 w') = status_region w'.
Proof.
  refine (proj2 (error_stays_without_stale_timer Msg.fix_errors (str "error")
                   Sample.filled 60000 _ eq_refl)).
  discriminate.
Defined.

(** * Navigation *)

Section NavFacts.

Import Nav.

Lemma updateActiveNav_lookup sectionId links i l :
  links !! i = Some l ->
  updateActiveNav sectionId links !! i =
  Some (if l_nav l then
          Link (l_href l) true
               (if href_is l (anchor sectionId) then accent else inherit)
        else l).
Proof.
  intros H. unfold updateActiveNav.
  change (map ?f links) with (f <$> links).
  rewrite list_lookup_fmap, H. reflexivity.
Qed.

(** Sections that are not passed leave [currentSection] as it is. *)
Lemma scan_not_passed y post cur :
  Forall (fun t => passed y t = false) post ->
  fold_left (fun cur s => if passed y s then s_id s else cur) post cur = cur.
Proof.
  intros H. revert cur. induction H as [|t post Ht _ IH]; intros cur;
    [reflexivity|].
  cbn [fold_left]. rewrite Ht. apply IH.
Qed.

(** A [#]-anchor is [#] followed by what [substring(1)] keeps. *)
Lemma anchor_substring h :
  startsWith h (str "#") = true -> anchor (drop 1 h) = h.
Proof.
  destruct h as [|c h]; [discriminate|].
  cbn. rewrite andb_true_r. intros E. apply N.eqb_eq in E. subst c.
  reflexivity.
Qed.

End NavFacts.

(** X15: highlights do not pile up.  [updateActiveNav] decides the colour
    of every link of the navigation afresh, so after two calls the links
    are as after the second call alone; links outside the navigation and
    all [href]s are never touched. *)
Theorem updateActiveNav_last_wins (a b : jsstring) (links : list Nav.link) :
  Nav.updateActiveNav a (Nav.updateActiveNav b links)
  = Nav.updateActiveNav a links /\
  map Nav.l_href (Nav.updateActiveNav a links) = map Nav.l_href links /\
  List.filter (fun l => negb (Nav.l_nav l)) (Nav.updateActiveNav a links)
  = List.filter (fun l => negb (Nav.l_nav l)) links.
Proof.
  unfold Nav.updateActiveNav. split; [|split].
  - rewrite map_map. apply map_ext. intros l.
    destruct (Nav.l_nav l) eqn:E; cbn; rewrite ?E; reflexivity.
  - rewrite map_map. apply map_ext. intros l.
    destruct (Nav.l_nav l); reflexivity.
  - induction links as [|l links IH]; [reflexivity|].
    cbn [map List.filter].
    destruct (Nav.l_nav l) eqn:E; cbn [Nav.l_nav negb]; rewrite ?E;
      cbn [negb]; rewrite IH; reflexivity.
Qed.

(** X16: the last section passed wins.  When a section is passed (its top
    is at most 200 above the scroll position) and no later section is,
    the scroll listener highlights for that section's [id], whatever the
    sections before it are: every link of the navigation whose [href] is
    [#id] gets the accent colour and every other one [inherit]. *)
Theorem scroll_highlights_last_passed
    (y : Z) (pre post : list Nav.sect) (s : Nav.sect) (c : N) (id : jsstring)
    (links : list Nav.link) :
  Nav.passed y s = true ->
  Forall (fun t => Nav.passed y t = false) post ->
  Nav.s_id s = Some (c :: id) ->
  Nav.currentSection y (pre ++ s :: post) = Some (c :: id) /\
  Nav.onScroll y (pre ++ s :: post) links = Nav.updateActiveNav (c :: id) links /\
  forall i l,
    links !! i = Some l -> Nav.l_nav l = true ->
    exists l',
      Nav.onScroll y (pre ++ s :: post) links !! i = Some l' /\
      Nav.l_color l' =
      (if Nav.href_is l (Nav.anchor (c :: id)) then Nav.accent
       else Nav.inherit).
Proof.
  intros Hs Hpost Hid.
  assert (Hcur : Nav.currentSection y (pre ++ s :: post) = Some (c :: id)).
  { unfold Nav.currentSection. rewrite fold_left_app. cbn [fold_left].
    rewrite Hs, (scan_not_passed y post _ Hpost). exact Hid. }
  split; [exact Hcur|].
  assert (Hon : Nav.onScroll y (pre ++ s :: post) links
                = Nav.updateActiveNav (c :: id) links).
  { unfold Nav.onScroll. rewrite Hcur. reflexivity. }
  split; [exact Hon|]. intros i l Hi Hnav. rewrite Hon.
  rewrite (updateActiveNav_lookup _ _ _ _ Hi), Hnav.
  eexists. split; reflexivity.
Qed.

(** Three sections, the page scrolled to 950: the second one is current. *)
Lemma scroll_highlights_last_passed_witness :
  Nav.onScroll 950
    [Nav.Sect (Some (str "top")) 0; Nav.Sect (Some (str "skills")) 900;
     Nav.Sect (Some (str "contact")) 1800]
    [Nav.Link (Some (str "#top")) true Nav.accent;
     Nav.Link (Some (str "#skills")) true Nav.inherit]
  = [Nav.Link (Some (str "#top")) true Nav.inherit;
     Nav.Link (Some (str "#skills")) true Nav.accent].
Proof.
  refine (proj1 (proj2 (scroll_highlights_last_passed 950
            [Nav.Sect (Some (str "top")) 0]
            [Nav.Sect (Some (str "contact")) 1800]
            (Nav.Sect (Some (str "skills")) 900) _ _ _ eq_refl _ eq_refl))).
  repeat constructor.
Defined.

(** X17: when the navigation is left alone.  The scroll listener changes
    no link when no section is passed yet, and also when the last section
    passed has no [id] or an empty one, even if sections before it were
    passed: the highlight of an earlier scroll position stays. *)
Theorem scroll_leaves_nav
    (y : Z) (sections : list Nav.sect) (links : list Nav.link) :
  (Forall (fun t => Nav.passed y t = false) sections ->
   Nav.onScroll y sections links = links) /\
  (forall pre s post,
      sections = pre ++ s :: post ->
      Nav.passed y s = true ->
      Forall (fun t => Nav.passed y t = false) post ->
      Nav.s_id s = None \/ Nav.s_id s = Some [] ->
      Nav.onScroll y sections links = links).
Proof.
  split.
  - intros H. unfold Nav.onScroll, Nav.currentSection.
    rewrite (scan_not_passed y sections _ H). reflexivity.
  - intros pre s post -> Hs Hpost Hid.
    unfold Nav.onScroll, Nav.currentSection.
    rewrite fold_left_app. cbn [fold_left].
    rewrite Hs, (scan_not_passed y post _ Hpost).
    destruct Hid as [-> | ->]; reflexivity.
Qed.

(** A section without [id] after a passed one. *)
Lemma scroll_leaves_nav_witness :
  Nav.onScroll 950
    [Nav.Sect (Some (str "top")) 0; Nav.Sect None 900]
    [Nav.Link (Some (str "#top")) true Nav.inherit]
  = [Nav.Link (Some (str "#top")) true Nav.inherit].
Proof.
  refine (proj2 (scroll_leaves_nav 950 _ _)
            [Nav.Sect (Some (str "top")) 0] (Nav.Sect None 900) []
            eq_refl eq_refl _ _).
  - constructor.
  - left. reflexivity.
Defined.

(** X18: a click on a local anchor.  When the link's [href] starts with
    [#] and the page has an element whose [id] is the rest of it, the
    listener prevents the default action, scrolls to that element and
    updates the navigation for that id; the clicked link, when it belongs
    to the navigation, ends with the accent colour, since [#] followed by
    [href.substring(1)] is the [href] again. *)
Theorem click_local_anchor
    (i : nat) (page : list element) (links : list Nav.link)
    (l : Nav.link) (h : jsstring) (t : nat) :
  links !! i = Some l ->
  Nav.l_href l = Some h ->
  startsWith h (str "#") = true ->
  Nav.getElementById (drop 1 h) page = Some t ->
  Nav.onClick i page links =
    Ret ([Nav.Prevent; Nav.Scroll t], Nav.updateActiveNav (drop 1 h) links) /\
  (exists el, page !! t = Some el /\ el_id el = drop 1 h) /\
  (Nav.l_nav l = true ->
   Nav.updateActiveNav (drop 1 h) links !! i
   = Some (Nav.Link (Some h) true Nav.accent)).
Proof.
  intros Hi Hh Hstart Ht.
  split; [|split].
  - unfold Nav.onClick. rewrite Hi, Hh, Hstart. cbv zeta. rewrite Ht.
    reflexivity.
  - unfold Nav.getElementById in Ht.
    destruct (drop 1 h); [discriminate|].
    apply find_id_lookup, Ht.
  - intros Hnav. rewrite (updateActiveNav_lookup _ _ _ _ Hi), Hnav.
    unfold Nav.href_is. rewrite Hh, (anchor_substring h Hstart), eqb_refl.
    reflexivity.
Qed.

(** A click on the link to the contact section of the sample page. *)
Lemma click_local_anchor_witness :
  Nav.onClick 1 (w_dom Sample.filled)
    [Nav.Link (Some (str "#top")) true Nav.accent;
     Nav.Link (Some (str "#contact-form")) true Nav.inherit]
  = Ret ([Nav.Prevent; Nav.Scroll 0],
         [Nav.Link (Some (str "#top")) true Nav.inherit;
          Nav.Link (Some (str "#contact-form")) true Nav.accent]).
Proof.
  exact (proj1 (click_local_anchor 1 (w_dom Sample.filled)
                  [Nav.Link (Some (str "#top")) true Nav.accent;
                   Nav.Link (Some (str "#contact-form")) true Nav.inherit]
                  _ (str "#contact-form") 0
                  eq_refl eq_refl eq_refl eq_refl)).
Defined.

(** X19: clicks that go nowhere.  A link whose [href] does not start with
    [#] is left to the browser: nothing is prevented or changed.  A link
    to [#] alone, or to an id the page does not have, has its default
    action prevented and nothing else happens, the navigation keeping its
    highlight.  A link without [href] makes the listener throw. *)
Theorem click_elsewhere
    (i : nat) (page : list element) (links : list Nav.link) (l : Nav.link) :
  links !! i = Some l ->
  (forall h, Nav.l_href l = Some h -> startsWith h (str "#") = false ->
             Nav.onClick i page links = Ret ([], links)) /\
  (forall h, Nav.l_href l = Some h -> startsWith h (str "#") = true ->
             h = str "#" \/ find_id (drop 1 h) page = None ->
             Nav.onClick i page links = Ret ([Nav.Prevent], links)) /\
  (Nav.l_href l = None -> Nav.onClick i page links = Throw null_access).
Proof.
  intros Hi. unfold Nav.onClick. rewrite Hi. split; [|split].
  - intros h -> ->. reflexivity.
  - intros h -> -> Hnone. cbv zeta.
    assert (E : Nav.getElementById (drop 1 h) page = None).
    { destruct Hnone as [-> | Hnone]; [reflexivity|].
      unfold Nav.getElementById. destruct (drop 1 h); [reflexivity|exact Hnone]. }
    rewrite E. reflexivity.
  - intros ->. reflexivity.
Qed.

(** A link to [#] on the sample page. *)
Lemma click_elsewhere_witness :
  Nav.onClick 0 (w_dom Sample.filled) [Nav.Link (Some (str "#")) true Nav.accent]
  = Ret ([Nav.Prevent], [Nav.Link (Some (str "#")) true Nav.accent]).
Proof.
  refine (proj1 (proj2 (click_elsewhere 0 (w_dom Sample.filled)
                          [Nav.Link (Some (str "#")) true Nav.accent] _ eq_refl))
            (str "#") eq_refl eq_refl _).
  left. reflexivity.
Defined.

(** * The theme *)

Section ThemeFacts.

Import Theme.

(** Setting the four custom properties over a palette already set. *)
Lemma palette_over (a b c d a' b' c' d' : list N) (m : gmap (list N) (list N)) :
  <[str "--card" := a]> (<[str "--muted" := b]> (<[str "--text" := c]>
    (<[str "--bg" := d]>
      (<[str "--card" := a']> (<[str "--muted" := b']> (<[str "--text" := c']>
        (<[str "--bg" := d']> m)))))))
  = <[str "--card" := a]> (<[str "--muted" := b]> (<[str "--text" := c]>
      (<[str "--bg" := d]> m))).
Proof.
  apply map_eq. intros n. rewrite !lookup_insert.
  repeat case_decide; reflexivity.
Qed.

Lemma applyTheme_over a b e : applyTheme a (applyTheme b e) = applyTheme a e.
Proof.
  unfold applyTheme.
  destruct (eqb a (str "light")), (eqb b (str "light"));
    cbn [storage style]; rewrite insert_insert_eq, palette_over; reflexivity.
Qed.

Lemma applyTheme_saved t e : storage (applyTheme t e) !! key = Some t.
Proof.
  unfold applyTheme. destruct (eqb t (str "light")); cbn [storage];
    apply lookup_insert_eq.
Qed.

(** With a non-empty theme stored, the system preference is not
    consulted. *)
Lemma setupThemeToggle_saved pd e c t :
  storage e !! key = Some (c :: t) ->
  setupThemeToggle pd e = applyTheme (c :: t) e.
Proof. intros H. unfold setupThemeToggle. rewrite H. reflexivity. Qed.

(** What [setupThemeToggle] applies is never the empty string. *)
Lemma setupThemeToggle_applies pd e :
  exists c t, setupThemeToggle pd e = applyTheme (c :: t) e.
Proof.
  unfold setupThemeToggle.
  destruct (storage e !! key) as [[|c t]|]; [|eauto|];
    destruct pd; cbn; eauto.
Qed.

(** [applyTheme] in one expression. *)
Lemma applyTheme_run theme e :
  applyTheme theme e =
  let light := eqb theme (str "light") in
  Env (<[key := theme]> (storage e))
      (<[str "--card" := if light then str "#f3f4f6" else str "#020617"]>
         (<[str "--muted" := if light then str "#6b7280" else str "#9ca3af"]>
            (<[str "--text" := if light then str "#1f2937" else str "#e5e7eb"]>
               (<[str "--bg" := if light then str "#ffffff" else str "#0f172a"]>
                  (style e))))).
Proof. unfold applyTheme. destruct (eqb theme (str "light")); reflexivity. Qed.

End ThemeFacts.

(** X20: switching leaves no residue.  [applyTheme] after [applyTheme]
    gives what the second call alone gives: the stored name and all four
    custom properties are those of the last theme applied. *)
Theorem applyTheme_last_wins (a b : jsstring) (e : Theme.env) :
  Theme.applyTheme a (Theme.applyTheme b e) = Theme.applyTheme a e.
Proof. apply applyTheme_over. Qed.

(** X21: the stored theme wins.  Once a non-empty theme has been applied,
    [setupThemeToggle] changes nothing, whatever the system prefers; in
    particular a second [setupThemeToggle] never undoes the first, so the
    preference of the first visit is kept even when the system preference
    changes. *)
Theorem saved_theme_wins (prefersDark prefersDark' : bool) (e : Theme.env) :
  (forall c t,
      Theme.setupThemeToggle prefersDark (Theme.applyTheme (c :: t) e)
      = Theme.applyTheme (c :: t) e) /\
  Theme.setupThemeToggle prefersDark' (Theme.setupThemeToggle prefersDark e)
  = Theme.setupThemeToggle prefersDark e.
Proof.
  assert (H : forall pd c t x,
             Theme.setupThemeToggle pd (Theme.applyTheme (c :: t) x)
             = Theme.applyTheme (c :: t) x).
  { intros pd c t x.
    rewrite (setupThemeToggle_saved pd _ c t) by apply applyTheme_saved.
    apply applyTheme_over. }
  split; [intros c t; apply H|].
  destruct (setupThemeToggle_applies prefersDark e) as (c & t & ->).
  apply H.
Qed.

(** X22: what [applyTheme] touches.  It stores the theme under
    [portfolio-theme] and nothing else in the storage; it sets the four
    custom properties [--bg], [--text], [--muted] and [--card] and no
    other; and the palette is the light one exactly when the theme is the
    string [light]: every other name, the empty string included, gives
    the dark palette. *)
Theorem applyTheme_frame (theme : jsstring) (e : Theme.env) :
  let e' := Theme.applyTheme theme e in
  Theme.storage e' !! Theme.key = Some theme /\
  (forall k, k <> Theme.key -> Theme.storage e' !! k = Theme.storage e !! k) /\
  (forall n, n <> str "--bg" -> n <> str "--text" -> n <> str "--muted" ->
             n <> str "--card" -> Theme.style e' !! n = Theme.style e !! n) /\
  Theme.style e' !! str "--bg"
  = Some (if eqb theme (str "light") then str "#ffffff" else str "#0f172a") /\
  Theme.style e' !! str "--text"
  = Some (if eqb theme (str "light") then str "#1f2937" else str "#e5e7eb") /\
  Theme.style e' !! str "--muted"
  = Some (if eqb theme (str "light") then str "#6b7280" else str "#9ca3af") /\
  Theme.style e' !! str "--card"
  = Some (if eqb theme (str "light") then str "#f3f4f6" else str "#020617").
Proof.
  cbv zeta. rewrite applyTheme_run. cbv zeta.
  generalize (eqb theme (str "light")). intros light.
  cbn [Theme.storage Theme.style].
  split; [apply lookup_insert_eq|].
  split; [intros k Hk; apply lookup_insert_ne; congruence|].
  split; [intros n H1 H2 H3 H4;
          rewrite !lookup_insert_ne by congruence; reflexivity|].
  rewrite !lookup_insert; repeat case_decide; try discriminate;
    try congruence; repeat split; reflexivity.
Qed.

(** A light theme over a stored dark one: another property is kept. *)
Lemma applyTheme_frame_witness :
  let e := Theme.Env {[ Theme.key := str "dark" ]}
                     {[ str "--accent" := str "#3b82f6" ]} in
  let e' := Theme.applyTheme (str "light") e in
  Theme.storage e' !! Theme.key = Some (str "light") /\
  Theme.style e' !! str "--accent" = Some (str "#3b82f6") /\
  Theme.style e' !! str "--bg" = Some (str "#ffffff").
Proof.
  intros e e'. subst e'.
  destruct (applyTheme_frame (str "light") e) as (H1 & _ & H3 & H4 & _).
  split; [exact H1|]. split; [|exact H4].
  rewrite (H3 (str "--accent")) by discriminate. reflexivity.
Defined.

(** * [debounce] *)

Section DebounceFacts.

Import Debounce.

Context {A : Type}.
Variable delay : N.

(** Up to 2147483647 ms a delay is taken as it is. *)
Lemma timeout_small : delay <= 2147483647 -> timeout delay = delay.
Proof.
  intros H. unfold timeout. cbv zeta.
  rewrite N.mod_small by (change (2 ^ 32) with 4294967296; lia).
  assert (E : (delay <? 2 ^ 31) = true)
    by (apply N.ltb_lt; change (2 ^ 31) with 2147483648; lia).
  rewrite E. reflexivity.
Qed.

Lemma call_timers (a : A) s :
  tidy s ->
  d_timers (call delay a s) = [(d_next s, (d_now s + timeout delay, a))].
Proof.
  unfold tidy, call. cbn [d_timers].
  destruct (d_timers s) as [|[id x] [|y l]];
    [destruct (d_timeoutId s); reflexivity| |contradiction].
  intros ->. cbn [clearTimeout List.filter fst].
  rewrite Nat.eqb_refl. reflexivity.
Qed.

Lemma tidy_call (a : A) s : tidy s -> tidy (call delay a s).
Proof.
  intros H. unfold tidy. rewrite (call_timers a s H). reflexivity.
Qed.

Lemma tidy_advance dt (s : state A) : tidy s -> tidy (advance dt s).
Proof.
  unfold tidy, advance. cbn [d_timers d_timeoutId].
  destruct (d_timers s) as [|[id x] [|y l]]; [auto| |contradiction].
  intros H. cbn [List.filter]. destruct (negb _); [exact H | exact I].
Qed.

Lemma tidy_step s (e : event A) : tidy s -> tidy (step delay s e).
Proof. destruct e; [apply tidy_call | apply tidy_advance]. Qed.

Lemma tidy_run events (s : state A) : tidy s -> tidy (run delay events s).
Proof.
  revert s. induction events as [|e events IH]; intros s H; [exact H|].
  apply IH, tidy_step, H.
Qed.

(** A call followed by a pause shorter than the delay calls nothing. *)
Lemma quiet_pair (a : A) gap s :
  tidy s -> gap < timeout delay ->
  d_calls (advance gap (call delay a s)) = d_calls s.
Proof.
  intros H Hgap. unfold advance. cbn [d_calls].
  rewrite (call_timers a s H). cbn [List.filter]. unfold is_due.
  cbn [fst snd call d_now].
  assert (E : (d_now s + timeout delay <=? d_now s + gap) = false)
    by (apply N.leb_gt; lia).
  rewrite E. cbn [map]. apply app_nil_r.
Qed.

Lemma quiet_burst (calls : list (A * N)) s :
  tidy s ->
  Forall (fun c => snd c < timeout delay) calls ->
  tidy (run delay (burst calls) s) /\
  d_calls (run delay (burst calls) s) = d_calls s.
Proof.
  intros H Hall. revert s H.
  induction Hall as [|[a gap] calls Hgap _ IH]; intros s H; [auto|].
  change (run delay (burst ((a, gap) :: calls)) s)
    with (run delay (burst calls) (advance gap (call delay a s))).
  cbn [snd] in Hgap.
  destruct (IH (advance gap (call delay a s))) as (T & C).
  { apply tidy_advance, tidy_call, H. }
  split; [exact T|]. rewrite C. apply quiet_pair; assumption.
Qed.

End DebounceFacts.

(** X23: one timer at most.  Whatever calls and pauses follow
    [debounce(func, delay)], at most one timer of the debounced function
    is active at any time, and the variable [timeoutId] holds its id. *)
Theorem debounce_one_timer
    (A : Type) (delay : N) (events : list (Debounce.event A)) :
  Debounce.tidy (Debounce.run delay events Debounce.init) /\
  (length (Debounce.d_timers (Debounce.run delay events Debounce.init)) <= 1)%nat.
Proof.
  assert (H : Debounce.tidy (Debounce.run delay events Debounce.init))
    by (apply tidy_run; exact I).
  split; [exact H|]. unfold Debounce.tidy in H.
  destruct (Debounce.d_timers _) as [|[id x] [|y l]]; cbn;
    [lia | lia | contradiction].
Qed.

(** X24: a burst calls [func] once, with the last arguments.  After any
    history, a run of calls each followed by a pause shorter than the
    delay, then one more call and a pause of at least the delay, adds
    exactly one call of [func], with the arguments of the last call;
    during the burst itself [func] is not called.  The delay counts as
    [setTimeout] takes it, a 32-bit signed number of milliseconds: up to
    2147483647 that is the delay itself. *)
Theorem debounce_burst_calls_once
    (A : Type) (delay : N) (history : list (Debounce.event A))
    (calls : list (A * N)) (a : A) (dt : N) :
  Forall (fun c => snd c < timeout delay) calls ->
  timeout delay <= dt ->
  let s := Debounce.run delay history Debounce.init in
  let s' := Debounce.run delay (Debounce.burst calls) s in
  Debounce.d_calls s' = Debounce.d_calls s /\
  Debounce.d_calls (Debounce.advance dt (Debounce.call delay a s'))
  = Debounce.d_calls s ++ [a] /\
  Debounce.d_timers (Debounce.advance dt (Debounce.call delay a s')) = [] /\
  (delay <= 2147483647 -> timeout delay = delay).
Proof.
  intros Hall Hdt s s'.
  assert (Hs : Debounce.tidy s) by (apply tidy_run; exact I).
  destruct (quiet_burst delay calls s Hs Hall) as (T & C). fold s' in T, C.
  split; [exact C|].
  unfold Debounce.advance. cbn [Debounce.d_calls Debounce.d_timers].
  rewrite (call_timers delay a s' T). cbn [List.filter].
  unfold Debounce.is_due.
  cbn [fst snd Debounce.call Debounce.d_now Debounce.d_calls].
  assert (E : (Debounce.d_now s' + timeout delay <=? Debounce.d_now s' + dt)
              = true)
    by (apply N.leb_le; lia).
  rewrite E, C. split; [reflexivity|]. split; [reflexivity|].
  apply timeout_small.
Qed.

(** Three keystrokes 100 ms apart with a delay of 300 ms. *)
Lemma debounce_burst_calls_once_witness :
  Debounce.d_calls
    (Debounce.run 300
       [Debounce.Call (str "a"); Debounce.Wait 100;
        Debounce.Call (str "ab"); Debounce.Wait 100;
        Debounce.Call (str "abc"); Debounce.Wait 300]
       Debounce.init)
  = [str "abc"].
Proof.
  refine (proj1 (proj2 (debounce_burst_calls_once (list N) 300 []
            [(str "a", 100); (str "ab", 100)] (str "abc") 300 _ _))).
  - repeat (constructor; [reflexivity|]). constructor.
  - discriminate.
Defined.

(** * Reveal on view *)

Section RevealFacts.

Import Reveal.

Lemma Forall_alter_keep {B} (P : B -> Prop) (f : B -> B) i (l : list B) :
  (forall x, P x -> P (f x)) -> Forall P l -> Forall P (alter f i l).
Proof.
  intros Hf H. revert i. induction H as [|x l Hx Hl IH]; intros [|i];
    cbn; try constructor; auto; apply IH.
Qed.

Lemma reveal_keeps (P : item -> Prop) items entry :
  (forall it, P it ->
              P (Item (str "1") (str "translateY(0)") (transition it) false)) ->
  Forall P items -> Forall P (reveal items entry).
Proof.
  intros Hf H. unfold reveal. destruct (snd entry); [|exact H].
  apply Forall_alter_keep; assumption.
Qed.

Lemma callback_keeps (P : item -> Prop) entries items :
  (forall it, P it ->
              P (Item (str "1") (str "translateY(0)") (transition it) false)) ->
  Forall P items -> Forall P (callback entries items).
Proof.
  intros Hf. unfold callback. revert items.
  induction entries as [|e entries IH]; intros items H; [exact H|].
  cbn [fold_left]. apply IH, reveal_keeps; assumption.
Qed.

Lemma callback_length entries items :
  length (callback entries items) = length items.
Proof.
  unfold callback. revert items.
  induction entries as [|e entries IH]; intros items; [reflexivity|].
  cbn [fold_left]. rewrite IH. unfold reveal.
  destruct (snd e); [apply length_alter | reflexivity].
Qed.

(** A revealed element stays revealed through a callback. *)
Lemma callback_revealed entries items i it :
  items !! i = Some it -> revealed it ->
  exists it', callback entries items !! i = Some it' /\ revealed it'.
Proof.
  unfold callback. revert items it.
  induction entries as [|[j b] entries IH]; intros items it Hi Hr; [eauto|].
  cbn [fold_left]. unfold reveal at 2. cbn [fst snd].
  destruct b; [|apply (IH _ it); assumption].
  destruct (Nat.eq_dec j i) as [->|Hne].
  - apply (IH _ (Item (str "1") (str "translateY(0)") (transition it) false)).
    + rewrite list_lookup_alter_eq, Hi. reflexivity.
    + repeat split.
  - apply (IH _ it); [|exact Hr].
    rewrite list_lookup_alter_ne by exact Hne. exact Hi.
Qed.

End RevealFacts.

(** X25: hidden and watched, or revealed and released.  After
    [setupIntersectionObserver], whatever batches of entries the observer
    delivers, every element is in one of two states: hidden (opacity [0],
    shifted down) and still observed, or revealed (opacity [1], in
    place) and no longer observed; no element is added or lost. *)
Theorem reveal_two_states
    (items : list Reveal.item) (batches : list (list (nat * bool))) :
  let final := fold_left (fun its entries => Reveal.callback entries its)
                         batches (Reveal.setup items) in
  length final = length items /\
  Forall (fun it => Reveal.hidden it \/ Reveal.revealed it) final.
Proof.
  cbv zeta.
  assert (H0 : length (Reveal.setup items) = length items /\
               Forall (fun it => Reveal.hidden it \/ Reveal.revealed it)
                      (Reveal.setup items)).
  { unfold Reveal.setup. split; [apply length_map|].
    apply List.Forall_forall. intros it Hin.
    apply in_map_iff in Hin as (x & <- & _).
    left. repeat split. }
  revert H0. generalize (Reveal.setup items).
  induction batches as [|es batches IH]; intros its (Hl & Hf); [auto|].
  cbn [fold_left]. apply IH. split.
  - rewrite callback_length. exact Hl.
  - apply callback_keeps; [|exact Hf]. intros it _. right. repeat split.
Qed.

(** X26: one shot.  An entry that intersects reveals its target, and an
    element once revealed stays revealed through every later callback,
    intersecting or not: the reveal is never undone. *)
Theorem reveal_is_final
    (items : list Reveal.item) (i : nat) (it : Reveal.item)
    (later : list (list (nat * bool))) :
  items !! i = Some it ->
  let shown := Reveal.callback [(i, true)] items in
  (exists it', shown !! i = Some it' /\ Reveal.revealed it') /\
  exists it'',
    fold_left (fun its entries => Reveal.callback entries its) later shown !! i
    = Some it'' /\ Reveal.revealed it''.
Proof.
  intros Hi shown.
  assert (H : exists it', shown !! i = Some it' /\ Reveal.revealed it').
  { subst shown. unfold Reveal.callback, Reveal.reveal. cbn [fold_left fst snd].
    rewrite list_lookup_alter_eq, Hi. eexists. split; [reflexivity|].
    repeat split. }
  split; [exact H|].
  revert H. generalize shown.
  induction later as [|es later IH]; intros its (it' & Hl & Hr); [eauto|].
  cbn [fold_left]. apply IH. apply (callback_revealed es its i it' Hl Hr).
Qed.

(** Two elements; the first one comes into view, then leaves it. *)
Lemma reveal_is_final_witness :
  exists it,
    Reveal.callback [(0%nat, false)]
      (Reveal.callback [(0%nat, true)] (Reveal.setup [Reveal.Item [] [] [] false;
                                                 Reveal.Item [] [] [] false]))
    !! 0%nat = Some it /\
    Reveal.revealed it.
Proof.
  destruct (reveal_is_final
              (Reveal.setup [Reveal.Item [] [] [] false;
                             Reveal.Item [] [] [] false])
              0 _ [[(0%nat, false)]] eq_refl) as (_ & it & H & Hr).
  exists it. split; [exact H | exact Hr].
Defined.
